(* ===== verification/_CoqProject ===== *)
-Q . S2P
Prelude.v
Utf8.v
Ratings.v
Regex.v
TimeFormat.v
Csv.v
Form.v
Records.v
App.v
Store.v
Concurrent.v
