(* ===== verification/Prelude.v ===== *)
(** * coffee-and-wifi: a verification development of [src/main.py]

    The program is a Flask application in one file.  When the module is
    loaded (lines 22-42) it reads [SECRET_KEY] from the environment and
    builds three choice lists of pairs (rating, glyph string) from the
    [emojis] dict.  [CafeForm] (lines 45-63) declares seven data fields
    with WTForms validators: [DataRequired], [URL], a [Regexp] time pattern
    for the opening and closing times, and [SelectField]s over the choice
    lists.  Three routes share one piece of state, the file
    [cafe-data.csv]: [home] (67-69) renders a page, [cafes] (72-79) decodes
    the file as UTF-8, reads every row with [csv.reader] and renders them,
    and [add] (82-100) validates a submission, looks each rating up in its
    choice list, appends one row with [csv.writer], encoded as UTF-8, and
    redirects to the listing.

    ** Files, in dependency order

    - [Prelude] (this file): Python values and the builtins the program
      uses.  [str] is a list of code points ([pystr]); [py_str_mul] is
      [s * n], [py_range] is [range], [py_replace_char] is [str.replace] of
      one character, [py_strip] is [str.strip] with Python's whitespace set
      [py_isspace], [py_str_Z] is [str] of an [int], [py_int] is [int] of a
      [str] (sign, underscores, surrounding whitespace, [ValueError]),
      [py_dict] is [dict] of a list of pairs (the last pair of a key wins),
      [py_getitem] is [d[k]] ([KeyError]) and [py_list_insert] is
      [list.insert].  Exceptions are the values of [exc]; fallible code
      returns a [result] with a bind notation.  The file also holds the
      notation scope [py_scope], the hint databases [py] and [pyrw], the
      tactics [invc], [result_case] and [bool_to_prop], and the lemmas on
      these operations shared by the other files.
    - [Utf8] (Module [Utf8]): the strict UTF-8 codec of the two
      [open(..., encoding="utf-8")] calls (lines 74 and 86) after CPython's
      [stringlib/codecs.h]: [encode_char] and [utf8_encode] with the shifts
      and masks of the encoder ([UnicodeEncodeError] on a surrogate), and
      [utf8_decode] with the checks of the decoder ([UnicodeDecodeError] on
      an invalid start byte, a missing continuation byte, an overlong form,
      an encoded surrogate or a code point above [0x10FFFF]).  Bytes are
      [N]s below 256.
    - [Ratings] (Module [Emoji]): the module body ([load_module], lines
      22-42) as a function of the environment, its globals [Globals], the
      comprehension [rating_list], and the lookup [rating_option] of lines
      87-89.  The rating encoder of the specification (section 4.1) is
      [encode_spec], with the glyph-counting decoder [decode_rating].
    - [Regex] (Module [Regex]): the syntax of the time pattern, its language
      [matches], an executable matcher [re_matchb] by Brzozowski
      derivatives, and [re_match_anchored], which is [re.match] on a
      pattern [^r$] (Python's [$] also matches before a final newline).
    - [TimeFormat] (Module [TimeFormat]): the pattern of lines 52 and 58 as
      [time_regex], its message, and [is_valid_time]; the specification's
      grammar is [spec_time_regex].
    - [Csv] (Module [Csv]): [writerow] is [csv.writer(f).writerow] of the
      excel dialect (lines 97-98); [read_csv] is lines 74-78: universal
      newline translation of a text-mode read ([translate_newlines]),
      splitting into lines ([split_lines]) and the [csv.reader] state machine
      of CPython's [_csv.c] ([pstate], [parser], [process_event],
      [feed_line], [read_rows]) with its field size limit [field_limit].
    - [Form] (Module [Form]): the class [FormLibrary] is the interface to
      the two library checks the program relies on but which are not part
      of it, the [URL()] validator and Flask-WTF's CSRF token check; the
      Section [WithLibrary] takes any instance of it.  [getfirst] is how a
      field reads its data from the request, [run_chain] the validator
      chain of WTForms with [StopValidation], [pre_validate] the choice
      check of [SelectField] with [coerce=str], [CafeForm] the form,
      [form_errors] and [form_valid] are [form.validate()].
    - [Records] (Module [Records]): the record of the specification's
      section 3 ([cafe], integer ratings), the row [add] writes for it
      ([cafe_row]), the record as a listing gives it back
      ([read_back_cafe]) and the decoding of a listed row by counting
      glyphs ([decode_row]).
    - [App] (Module [App]): the state [fs_state] (the bytes of the file, or
      its absence, and whether it may be written), the handlers [home],
      [cafes], [new_row] and [add] as functions from state and request to
      state and response, [dispatch] for the routes with Flask's method
      handling ([route]: the declared methods, [HEAD] with [GET],
      [OPTIONS] answered by Flask, [405] for any other method;
      [is_submitted] and [validate_on_submit] as Flask-WTF defines them),
      the relation [reachable] of the states a sequence of requests leads
      to, and the server answering requests one after the other ([serve])
      with the rows of the requests answered by the redirect to the
      listing ([accepted_rows]: the row [new_row] builds from each).
    - [Store] (Module [Store]): the specification's record store of section
      4.3 as an abstract state, a list of records ([view]), the abstraction
      function [store_view] that reads and decodes the file, and the
      request a browser sends for a record ([cafe_request]).
    - [Concurrent] (Module [Concurrent]): the threads of [app.run] (line
      104).  [add] is split at its write: [add_begin] runs it up to the
      buffered line (the [open] of line 86 creating the file), and
      [append_line] is the write, which appends to the file as it is then.
      [cstep] serves any request up to its write or performs any pending
      write; [crun] is a run of such steps with its list of [action]s.

    ** What is proved

    - The store ([App]): after any sequence of requests the file holds the
      initial rows followed by exactly one row for each request answered
      with the redirect to the listing, the row [new_row] built from its
      form, in the order of the requests, each a valid record
      ([store_invariant], by induction on the requests from the one-request
      lemma [dispatch_step]); the listing shows exactly the rows written
      ([cafes_lists_records]); [add] on every branch: valid submission,
      invalid submission or GET, missing secret key, store that may not be
      written ([add_valid], [add_invalid], [add_without_secret],
      [readonly_store_unchanged]: [PermissionError] after validation); the
      two scenarios of the specification's section 8; no request but a
      [POST] changes the store ([non_post_readonly]); the route table
      answers [405] exactly for the methods outside each rule
      ([method_not_allowed_iff]).
    - The encoding ([Utf8], [App]): decoding what the encoder produced gives
      the text back ([utf8_roundtrip]), so the invariant above holds of the
      bytes of the file; the encoder fails exactly on strings with a
      surrogate ([encode_ok_iff]); a file holding a byte that is never part
      of UTF-8 cannot be listed ([cafes_invalid_byte]), and once the file
      does not decode, no sequence of requests makes it readable again
      ([corrupt_store_persists], from the step lemma [decode_step] of the
      decoder and the fact that encoded text never starts with a
      continuation byte).
    - Concurrency ([Concurrent]): the two halves of [add] composed are
      [add] ([add_phases_eq]); under every interleaving of requests the file
      holds the initial rows followed by the rows in the order of their
      writes, each whole and valid ([concurrent_store]); the server is
      linearizable: a run whose writes are all done ends in a state the
      sequential model reaches ([concurrent_linearizable]), so the
      theorems on [reachable] hold under concurrency too; at every moment
      of every interleaving the abstract record store is the list of valid
      records written, in the order of their writes
      ([concurrent_refinement]).
    - The record store ([Records], [Store]): the file refines the
      specification's store: from a missing file, after any sequence of
      requests, the rows of the accepted requests are those of a list of
      valid records, in request order, and the abstract view of the file is
      that list ([store_refinement]); every valid record can be added by one
      request ([add_every_valid_cafe]); the row [new_row] builds from the
      request for a record decodes back to that record
      ([new_row_decodes]); the choice lists are well formed
      ([globals_well_formed]).
    - The CSV format ([Csv]): reading what the writer appended gives the rows
      back, whatever commas, quotes or line breaks they hold, a [\r\n] or
      lone [\r] inside a field coming back as [\n]
      ([read_csv_writerows], [read_csv_append]); reading any file gives rows
      or the field-limit error and nothing else
      ([read_csv_error_only_limit]); on what the writer produced, reading
      succeeds exactly when every field has at most 131072 characters, and
      a single longer field anywhere makes every read fail
      ([read_csv_written_limit]); a row appended after a last line left
      without a terminator (a hand-edited store) is merged into that line,
      its first field glued to the line's last field
      ([read_csv_unterminated]).
    - The form ([Form]): [form_valid_iff] states field by field when a
      submission is valid; a missing rating is reported with the message of
      [DataRequired], not with the first failing check.
    - The ratings ([Ratings]): loading never fails; the lookup of the
      handler is the specification's encoder for every integer
      ([choices_encode], [rating_option_str]); counting glyphs decodes a
      rating ([decode_encode_spec]); [int(str(z)) = z] ([int_of_str_Z]).
    - The time pattern ([Regex], [TimeFormat]): the matcher is correct
      ([re_matchb_spec], [re_match_anchored_spec]); the strings the
      validator accepts are characterised exactly ([is_valid_time_iff]);
      the specification's grammar is included ([spec_time_accepted]) and
      strictly smaller: for every hour, minute and meridiem the pattern
      also accepts a colon without minutes and minutes without a colon
      ([time_accepts_beyond_spec]); removing spaces keeps a time valid; an
      accepted time has 3 to 9 characters.

    ** Bounds and fuel

    [py_str_N] converts with fuel [S (N.size n)], enough because [n] has at
    most [N.size n] decimal digits ([py_str_N_spec]); more fuel gives the
    same string ([n_digits_more_fuel]).  [count_reps] counts glyphs with fuel
    [length s], enough because each repetition consumes at least one code
    point; any fuel at least [length s] gives the same count
    ([count_reps_fuel_indep]).  The reader's field limit is CPython's default,
    131072 characters; the theorems state where it matters.  Every other
    definition is structural.

    ** Not modelled

    The rendering of templates ([render_template], [Bootstrap5],
    [url_for]): a response records the data passed to the template or the
    redirect target; [Bootstrap5(app)] (line 24) only registers templates.
    The imports and the start of the server (lines 1-7, 103-104) have no
    behaviour to model.  Flask's server, HTTP parsing and the decoding of
    request bodies: requests carry their decoded form pairs, and the
    theorems that need the text of a form to encode ([add_valid],
    [add_every_valid_cafe]) assume it, as Werkzeug's decoding with
    replacement characters guarantees.  The decoder reads the whole file at
    once, where Python decodes it in chunks of 8192 bytes as [csv.reader]
    asks for lines: for a file with both an undecodable byte and a field
    over the limit, which error Python raises depends on where the two
    fall among those chunks; the model raises the decoding error.  The [URL()] validator and the CSRF token scheme are
    code of WTForms and Flask-WTF, not of this repository: they are the
    abstract operations of [FormLibrary], and every theorem holds for any
    implementation of them, which is why the form is only partly
    modelled.  Concurrent requests are modelled with two assumptions
    about the system below the program: each line reaches the file in one
    [write], which [O_APPEND] makes atomic, and the listing reads the file
    in one step.  [int] of non-ASCII decimal digits is
    not modelled ([py_int] accepts ASCII digits only); the CSV reader is the
    one of Python 3.11 and later, in which NUL is an ordinary character. *)

From stdpp Require Import base list gmap strings.
From Stdlib Require Import NArith ZArith Lia.

Declare Scope py_scope.
Delimit Scope py_scope with py.

(** ** Python strings

    A Python [str] is a sequence of Unicode code points; it is modelled as a
    list of [N].  [py] turns an ASCII literal into such a list; non-ASCII
    glyphs are written with their code points. *)

Abbreviation pystr := (list N).

Definition py (s : string) : pystr :=
  map (fun a => N.of_nat (Ascii.nat_of_ascii a)) (String.list_ascii_of_string s).

Arguments py s : simpl never.

Definition LF : N := 10.
Definition CR : N := 13.
Definition SPACE : N := 32.
Definition DQUOTE : N := 34.
Definition COMMA : N := 44.
Definition COLON : N := 58.
Definition UNDERSCORE : N := 95.

(** [str.isspace] on one code point, which is also the class matched by the
    regular-expression escape [\s] on [str] patterns (CPython's
    [Py_UNICODE_ISSPACE]). *)
Definition py_isspace (c : N) : bool :=
  ((9 <=? c) && (c <=? 13))%N || ((28 <=? c) && (c <=? 31))%N
  || (c =? 32)%N || (c =? 0x85)%N || (c =? 0xA0)%N || (c =? 0x1680)%N
  || ((0x2000 <=? c) && (c <=? 0x200A))%N
  || (c =? 0x2028)%N || (c =? 0x2029)%N || (c =? 0x202F)%N
  || (c =? 0x205F)%N || (c =? 0x3000)%N.

Definition is_digit (c : N) : bool := ((48 <=? c) && (c <=? 57))%N.

(** [s * n] for a string and an int: [n] copies, none when [n <= 0]. *)
Definition py_str_mul (s : pystr) (n : Z) : pystr :=
  concat (repeat s (Z.to_nat n)).

(** [range(lo, hi)]. *)
Definition py_range (lo hi : Z) : list Z :=
  map (fun i => (lo + Z.of_nat i)%Z) (seq 0 (Z.to_nat (hi - lo))).

(** [s.replace(c, new)] for a one-character pattern [c]. *)
Definition py_replace_char (c : N) (new : pystr) (s : pystr) : pystr :=
  flat_map (fun x => if (x =? c)%N then new else [x]) s.

(** [s.lstrip()] and [s.strip()] with no argument. *)
Fixpoint py_lstrip (s : pystr) : pystr :=
  match s with
  | [] => []
  | c :: s' => if py_isspace c then py_lstrip s' else s
  end.

Definition py_strip (s : pystr) : pystr := rev (py_lstrip (rev (py_lstrip s))).

(** ** Exceptions and the result monad

    Python code that can raise is modelled as a function into [result]: the
    exceptions this program can meet are the constructors of [exc]. *)

Inductive exc :=
| KeyError
| ValueError
| TypeError
| FileNotFoundError
| PermissionError
| CsvError (msg : pystr)
| RuntimeError (msg : pystr)
| UnicodeEncodeError
| UnicodeDecodeError.

Inductive result (A : Type) :=
| Ok (a : A)
| Err (e : exc).
Arguments Ok {A} a.
Arguments Err {A} e.

#[export] Instance result_ret : MRet result := fun A a => Ok a.
#[export] Instance result_bind : MBind result :=
  fun A B f m => match m with Ok a => f a | Err e => Err e end.

Definition of_option {A} (e : exc) (o : option A) : result A :=
  match o with Some a => Ok a | None => Err e end.

(** ** [str(n)] and [int(s)] on decimal integers *)

Fixpoint n_digits (fuel : nat) (n : N) (acc : pystr) : pystr :=
  match fuel with
  | O => acc
  | S f =>
      let acc' := (48 + n mod 10)%N :: acc in
      if (n <? 10)%N then acc' else n_digits f (n / 10)%N acc'
  end.

Definition py_str_N (n : N) : pystr := n_digits (S (N.to_nat (N.size n))) n [].

Definition py_str_Z (z : Z) : pystr :=
  if (z <? 0)%Z then 45%N :: py_str_N (Z.to_N (- z)) else py_str_N (Z.to_N z).

(** Digits with single underscores between them, as [int()] accepts. *)
Fixpoint digits_value (acc : Z) (prev_digit : bool) (s : pystr) : option Z :=
  match s with
  | [] => if prev_digit then Some acc else None
  | c :: s' =>
      if is_digit c then digits_value (acc * 10 + Z.of_N (c - 48))%Z true s'
      else if (c =? UNDERSCORE)%N && prev_digit then digits_value acc false s'
      else None
  end.

(** [int(s)] on a [str] of ASCII decimal digits, with surrounding
    whitespace and an optional sign; anything else raises [ValueError]. *)
Definition py_int (s : pystr) : result Z :=
  of_option ValueError
    match py_strip s with
    | c :: s' =>
        if (c =? 45)%N then option_map Z.opp (digits_value 0 false s')
        else if (c =? 43)%N then digits_value 0 false s'
        else digits_value 0 false (c :: s')
    | [] => None
    end.

(** ** Python dictionaries

    [dict(pairs)] and a dict display insert the pairs from left to right, so
    that a later key overrides an earlier one. *)
Definition py_dict {K V} `{Countable K} (l : list (K * V)) : gmap K V :=
  foldl (fun m kv => <[kv.1 := kv.2]> m) ∅ l.

(** [d[k]]: a missing key raises [KeyError]. *)
Definition py_getitem {K V} `{Countable K} (m : gmap K V) (k : K) : result V :=
  of_option KeyError (m !! k).

(** [l.insert(i, x)]: a negative index counts from the end, an index past the
    end appends. *)
Definition py_list_insert {A} (i : Z) (x : A) (l : list A) : list A :=
  let n := if (i <? 0)%Z then Z.to_nat (Z.max 0 (i + Z.of_nat (length l)))
           else Z.to_nat i in
  take n l ++ x :: drop n l.

(** ** Shared tactics and hints *)

Create HintDb py.
Create Rewrite HintDb pyrw.

Ltac invc H := inversion H; subst; clear H.

(** Destructs the scrutinee of the first [result] match in a hypothesis. *)
Ltac result_case :=
  match goal with
  | H : context [match ?m with Ok _ => _ | Err _ => _ end] |- _ =>
      let E := fresh "E" in destruct m eqn:E
  | |- context [match ?m with Ok _ => _ | Err _ => _ end] =>
      let E := fresh "E" in destruct m eqn:E
  end.

(** ** Generic lemmas *)

Lemma bind_Ok {A B} (a : A) (f : A -> result B) : (Ok a ≫= f) = f a.
Proof. reflexivity. Qed.

Lemma bind_Err {A B} (e : exc) (f : A -> result B) : (Err e ≫= f) = Err e.
Proof. reflexivity. Qed.

Lemma bind_eq_Ok {A B} (m : result A) (f : A -> result B) b :
  (m ≫= f) = Ok b <-> exists a, m = Ok a /\ f a = Ok b.
Proof.
  destruct m as [a|e]; cbn; split.
  - intros H. eauto.
  - intros (a' & [= ->] & H). exact H.
  - discriminate.
  - intros (a' & ? & _). discriminate.
Qed.

#[export] Hint Rewrite @bind_Ok @bind_Err : pyrw.

Lemma length_py_str_mul s n : length (py_str_mul s n) = (Z.to_nat n * length s)%nat.
Proof.
  unfold py_str_mul. induction (Z.to_nat n) as [|k IH]; cbn; [done|].
  rewrite length_app, IH. lia.
Qed.

Lemma py_str_mul_succ s n :
  (0 <= n)%Z -> py_str_mul s (Z.succ n) = s ++ py_str_mul s n.
Proof. intros. unfold py_str_mul. by rewrite Z2Nat.inj_succ. Qed.

Lemma elem_of_py_str_mul s n c : c ∈ py_str_mul s n -> c ∈ s.
Proof.
  unfold py_str_mul. rewrite list_elem_of_In, in_concat.
  intros (x & Hx & Hc). apply repeat_spec in Hx. subst. by apply list_elem_of_In.
Qed.

Lemma py_replace_char_notin c s : c ∉ py_replace_char c [] s.
Proof.
  unfold py_replace_char. induction s as [|x s IH]; cbn; [set_solver|].
  destruct (x =? c)%N eqn:E; [done|].
  apply N.eqb_neq in E. set_solver.
Qed.

Lemma py_replace_char_app c new s1 s2 :
  py_replace_char c new (s1 ++ s2) = py_replace_char c new s1 ++ py_replace_char c new s2.
Proof. apply flat_map_app. Qed.

Lemma py_replace_char_id c new s : c ∉ s -> py_replace_char c new s = s.
Proof.
  unfold py_replace_char. induction s as [|x s IH]; cbn; [done|].
  intros Hn. destruct (x =? c)%N eqn:E.
  - apply N.eqb_eq in E. subst. set_solver.
  - rewrite IH; set_solver.
Qed.

Lemma elem_of_py_replace_char c new s x :
  x ∈ py_replace_char c new s -> x ∈ new \/ (x ∈ s /\ x <> c).
Proof.
  unfold py_replace_char. induction s as [|y s IH]; cbn; [set_solver|].
  rewrite elem_of_app. intros [Hx|Hx].
  - destruct (y =? c)%N eqn:E; [by left|].
    apply N.eqb_neq in E. right. set_solver.
  - destruct (IH Hx) as [?|[??]]; [by left|right; set_solver].
Qed.

Lemma py_lstrip_nil_iff s : py_lstrip s = [] <-> Forall (fun c => py_isspace c = true) s.
Proof.
  induction s as [|c s IH]; cbn; [split; auto|].
  rewrite Forall_cons. destruct (py_isspace c); [tauto|].
  split; [discriminate|]. intros [? _]; discriminate.
Qed.

Lemma py_lstrip_hd s c t : py_lstrip s = c :: t -> py_isspace c = false.
Proof.
  induction s as [|x s IH]; cbn; [discriminate|].
  destruct (py_isspace x) eqn:E; [exact IH|]. by intros [= -> _].
Qed.

(** [strip()] leaves nothing exactly when every character is whitespace. *)
Lemma py_strip_nil_iff s : py_strip s = [] <-> Forall (fun c => py_isspace c = true) s.
Proof.
  rewrite <- py_lstrip_nil_iff. unfold py_strip. split.
  - intros H. apply (f_equal (@rev N)) in H. rewrite rev_involutive in H.
    apply py_lstrip_nil_iff, Forall_rev in H. rewrite rev_involutive in H.
    destruct (py_lstrip s) as [|c t] eqn:E; [done|].
    apply py_lstrip_hd in E. inversion H; congruence.
  - intros ->. reflexivity.
Qed.

Section PyDict.
Context {K V : Type} `{Countable K}.

Lemma foldl_insert_notin (l : list (K * V)) (m : gmap K V) k :
  k ∉ l.*1 -> foldl (fun m kv => <[kv.1 := kv.2]> m) m l !! k = m !! k.
Proof.
  revert m. induction l as [|[k' v'] l IH]; intros m Hk; cbn; [done|].
  cbn in Hk. rewrite IH by set_solver. apply lookup_insert_ne. set_solver.
Qed.

Lemma foldl_insert_in (l : list (K * V)) (m : gmap K V) k v :
  NoDup l.*1 -> (k, v) ∈ l ->
  foldl (fun m kv => <[kv.1 := kv.2]> m) m l !! k = Some v.
Proof.
  revert m. induction l as [|[k' v'] l IH]; intros m Hnd Hin; cbn in *;
    [set_solver|].
  apply NoDup_cons in Hnd as [Hnotin Hnd].
  apply elem_of_cons in Hin as [[= -> ->]|Hin].
  - rewrite foldl_insert_notin by done. apply lookup_insert_eq.
  - by apply IH.
Qed.

(** Looking up a key absent from the pairs gives [None]. *)
Lemma lookup_py_dict_None (l : list (K * V)) k : k ∉ l.*1 -> py_dict l !! k = None.
Proof. intros. unfold py_dict. by rewrite foldl_insert_notin. Qed.

(** With distinct keys, [dict(l)[k]] is the value paired with [k]. *)
Lemma lookup_py_dict_Some (l : list (K * V)) k v :
  NoDup l.*1 -> (k, v) ∈ l -> py_dict l !! k = Some v.
Proof. intros. by apply foldl_insert_in. Qed.
End PyDict.

Lemma elem_of_py_range lo hi n : n ∈ py_range lo hi <-> (lo <= n < hi)%Z.
Proof.
  unfold py_range. rewrite list_elem_of_fmap. split.
  - intros (i & -> & Hi). apply list_elem_of_In, in_seq in Hi. lia.
  - intros Hn. exists (Z.to_nat (n - lo)). split; [lia|].
    apply list_elem_of_In, in_seq. lia.
Qed.

Lemma NoDup_py_range lo hi : NoDup (py_range lo hi).
Proof.
  unfold py_range. apply NoDup_fmap_2; [intros ???; lia|].
  apply NoDup_ListNoDup, seq_NoDup.
Qed.

(** ** [int(str(z)) = z] *)

Lemma is_digit_not_space c : is_digit c = true -> py_isspace c = false.
Proof.
  unfold is_digit. intros [H1 H2]%andb_prop.
  apply N.leb_le in H1, H2.
  assert (c = 48 \/ c = 49 \/ c = 50 \/ c = 51 \/ c = 52 \/ c = 53 \/ c = 54
          \/ c = 55 \/ c = 56 \/ c = 57)%N as Hc by lia.
  repeat destruct Hc as [->|Hc]; [..|subst]; reflexivity.
Qed.

Lemma py_lstrip_id s : (forall c t, s = c :: t -> py_isspace c = false) -> py_lstrip s = s.
Proof. destruct s as [|c t]; cbn; [done|]. intros H. by rewrite (H c t eq_refl). Qed.

(** [strip()] leaves a string without whitespace unchanged. *)
Lemma py_strip_id s : Forall (fun c => py_isspace c = false) s -> py_strip s = s.
Proof.
  intros Hs. unfold py_strip.
  rewrite (py_lstrip_id s), (py_lstrip_id (rev s)), rev_involutive; [done| |].
  - intros c t Ht. apply Forall_rev in Hs. rewrite Ht in Hs. by inversion Hs.
  - intros c t ->. by inversion Hs.
Qed.

Lemma n_digits_S f n acc :
  n_digits (S f) n acc =
  if (n <? 10)%N then (48 + n mod 10)%N :: acc
  else n_digits f (n / 10)%N ((48 + n mod 10)%N :: acc).
Proof. reflexivity. Qed.

Lemma n_digits_spec f n acc :
  (n < 10 ^ N.of_nat (S f))%N ->
  exists ds, n_digits (S f) n acc = ds ++ acc /\ ds <> [] /\
    Forall (fun c => is_digit c = true) ds /\
    forall a b rest, digits_value a b (ds ++ rest)
                     = digits_value (a * 10 ^ Z.of_nat (length ds) + Z.of_N n)%Z true rest.
Proof.
  revert n acc. induction f as [|f IH]; intros n acc Hn; rewrite n_digits_S;
    pose proof (N.mod_lt n 10 ltac:(lia)) as Hmod;
    pose proof (N.div_mod n 10 ltac:(lia)) as Hdm;
    remember (n mod 10)%N as d eqn:Hd0; remember (n / 10)%N as q eqn:Hq0;
    assert (Hd : is_digit (48 + d)%N = true)
      by (unfold is_digit; apply andb_true_intro; split; apply N.leb_le; lia).
  - assert (n < 10)%N as Hlt by (cbn in Hn; lia).
    rewrite (proj2 (N.ltb_lt _ _) Hlt).
    exists [(48 + d)%N]. split; [done|]. split; [done|]. split; [by constructor|].
    intros a b rest. cbn. rewrite Hd. f_equal. lia.
  - destruct (n <? 10)%N eqn:Hlt.
    + apply N.ltb_lt in Hlt. exists [(48 + d)%N].
      split; [done|]. split; [done|]. split; [by constructor|].
      intros a b rest. cbn. rewrite Hd. f_equal. lia.
    + destruct (IH q ((48 + d)%N :: acc)) as (ds & Heq & Hne & Hall & Hval).
      { rewrite Nat2N.inj_succ, N.pow_succ_r' in Hn. lia. }
      exists (ds ++ [(48 + d)%N]). rewrite Heq, <- app_assoc.
      split; [done|]. split; [by destruct ds|].
      split; [apply Forall_app; by auto|].
      intros a b rest. rewrite <- app_assoc. cbn. rewrite Hval. cbn. rewrite Hd.
      f_equal. rewrite length_app, Nat2Z.inj_add, Z.pow_add_r by lia. cbn.
      assert (Z.of_N n = 10 * Z.of_N q + Z.of_N d)%Z as Hz by lia.
      assert (Z.of_N (48 + d - 48) = Z.of_N d)%Z as Hz' by lia.
      rewrite Hz', Hz. replace (10 ^ Z.of_nat 1)%Z with 10%Z by reflexivity. ring.
Qed.

(** [n] has at most [N.size n] decimal digits. *)
Lemma py_str_N_bound n : (n < 10 ^ N.of_nat (S (N.to_nat (N.size n))))%N.
Proof.
  pose proof (N.size_gt n) as Hg.
  assert (2 ^ N.size n <= 10 ^ N.size n)%N by (apply N.pow_le_mono_l; lia).
  assert (10 ^ N.size n < 10 ^ N.of_nat (S (N.to_nat (N.size n))))%N
    by (apply N.pow_lt_mono_r; lia).
  lia.
Qed.

Lemma py_str_N_spec n :
  Forall (fun c => is_digit c = true) (py_str_N n) /\ py_str_N n <> [] /\
  digits_value 0 false (py_str_N n) = Some (Z.of_N n).
Proof.
  unfold py_str_N.
  destruct (n_digits_spec (N.to_nat (N.size n)) n [])
    as (ds & -> & Hne & Hall & Hval).
  { apply py_str_N_bound. }
  rewrite app_nil_r. split; [done|]. split; [done|].
  rewrite <- (app_nil_r ds), Hval. cbn. f_equal; lia.
Qed.

(** [int(str(z))] gives [z] back. *)
Lemma int_of_str_Z z : py_int (py_str_Z z) = Ok z.
Proof.
  unfold py_int, py_str_Z.
  destruct (z <? 0)%Z eqn:Hz; [apply Z.ltb_lt in Hz|apply Z.ltb_ge in Hz].
  - destruct (py_str_N_spec (Z.to_N (- z))) as (Hall & Hne & Hval).
    rewrite py_strip_id.
    + cbn -[py_str_N]. rewrite Hval. cbn. f_equal. lia.
    + constructor; [reflexivity|]. eapply Forall_impl; [exact Hall|].
      intros c. apply is_digit_not_space.
  - destruct (py_str_N_spec (Z.to_N z)) as (Hall & Hne & Hval).
    rewrite py_strip_id.
    + destruct (py_str_N (Z.to_N z)) as [|c s] eqn:E; [done|].
      inversion Hall as [|? ? Hc _]; subst.
      unfold is_digit in Hc. apply andb_prop in Hc as [Hc1 Hc2].
      apply N.leb_le in Hc1.
      rewrite (proj2 (N.eqb_neq c 45)) by lia.
      rewrite (proj2 (N.eqb_neq c 43)) by lia.
      rewrite Hval. cbn. f_equal. lia.
    + eapply Forall_impl; [exact Hall|]. intros c. apply is_digit_not_space.
Qed.

(** Turns boolean comparisons on [N] in the hypotheses and the goal into
    propositions, for [lia]. *)
Ltac bool_to_prop :=
  repeat first
    [ rewrite andb_true_iff in *
    | rewrite orb_true_iff in *
    | rewrite N.leb_le in *
    | rewrite N.eqb_eq in *
    | rewrite N.ltb_lt in * ].

(** Extra fuel does not change the digits once the fuel covers them. *)
Lemma n_digits_more_fuel f f' n acc :
  (n < 10 ^ N.of_nat (S f))%N -> (f <= f')%nat ->
  n_digits (S f') n acc = n_digits (S f) n acc.
Proof.
  revert f' n acc. induction f as [|f IH]; intros f' n acc Hn Hf; rewrite !n_digits_S.
  - assert (n < 10)%N as Hlt by (cbn in Hn; lia). by rewrite (proj2 (N.ltb_lt _ _) Hlt).
  - destruct f' as [|f']; [lia|]. destruct (n <? 10)%N eqn:Hlt; [done|].
    apply IH; [|lia]. rewrite Nat2N.inj_succ, N.pow_succ_r' in Hn.
    apply N.Div0.div_lt_upper_bound; lia.
Qed.

(** A pair [dict(l)] finds is one of the pairs of [l]. *)
Lemma lookup_py_dict_elem {K V} `{Countable K} (l : list (K * V)) k v :
  py_dict l !! k = Some v -> (k, v) ∈ l.
Proof.
  unfold py_dict. cut (forall m : gmap K V,
    foldl (fun m kv => <[kv.1 := kv.2]> m) m l !! k = Some v -> (k, v) ∈ l \/ m !! k = Some v).
  { intros Hc Hl. destruct (Hc ∅ Hl) as [?|Hm]; [done|by rewrite lookup_empty in Hm]. }
  induction l as [|[k' v'] l IH]; intros m Hl; cbn in Hl; [by right|].
  destruct (IH _ Hl) as [Hin|Hm]; [left; by apply elem_of_cons; right|].
  destruct (decide (k = k')) as [->|Hne].
  - rewrite lookup_insert_eq in Hm. injection Hm as ->. left. by apply elem_of_cons; left.
  - rewrite lookup_insert_ne in Hm by congruence. by right.
Qed.
