(* ===== verification/Utf8.v ===== *)
(** * Utf8: the encoding of the store file

    [src/main.py] opens [cafe-data.csv] with [encoding="utf-8"] both to read
    it (line 74) and to append to it (line 86): the text the CSV reader sees
    is the strict UTF-8 decoding of the file's bytes, and the line the CSV
    writer produces is encoded before it reaches the file.  This file models
    Python's UTF-8 codec as CPython implements it
    ([Objects/stringlib/codecs.h]): [encode_char] with the shifts and masks
    of the encoder, which raises [UnicodeEncodeError] on a surrogate, and
    [utf8_decode] with the checks of the decoder, which raises
    [UnicodeDecodeError] on an invalid start byte, a missing continuation
    byte, an overlong form, an encoded surrogate or a code point above
    [0x10FFFF].  A byte is an [N] below 256.  The lemmas turn the bit
    operations into division and remainder by 64 ([lor_disjoint_add],
    [encode_char_1] to [encode_char_4], [decode_2] to [decode_4]) and show
    that the encoder succeeds exactly on strings of scalar values, that
    decoding what it produced gives the string back, and, from one step of
    the decoder ([decode_step]), that the decoder raises only
    [UnicodeDecodeError], accepts only bytes that occur in UTF-8, and that
    a sequence that does not decode still does not after encoded text is
    appended to it. *)

From stdpp Require Import base list strings.
From Stdlib Require Import NArith ZArith Lia.
From S2P Require Import Prelude.

Module Utf8.

(** ** The codec *)

Definition is_surrogate (c : N) : bool := (0xD800 <=? c)%N && (c <? 0xE000)%N.

(** A character a Python string can be encoded with: a code point below
    [0x110000] that is not a surrogate. *)
Definition is_scalar (c : N) : bool := (c <? 0x110000)%N && negb (is_surrogate c).

(** The encoder of one character. *)
Definition encode_char (c : N) : result (list N) :=
  if (c <? 0x80)%N then Ok [c]
  else if (c <? 0x800)%N then
    Ok [N.lor 0xC0 (N.shiftr c 6); N.lor 0x80 (N.land c 0x3F)]
  else if (c <? 0x10000)%N then
    if is_surrogate c then Err UnicodeEncodeError
    else Ok [N.lor 0xE0 (N.shiftr c 12); N.lor 0x80 (N.land (N.shiftr c 6) 0x3F);
             N.lor 0x80 (N.land c 0x3F)]
  else if (c <? 0x110000)%N then
    Ok [N.lor 0xF0 (N.shiftr c 18); N.lor 0x80 (N.land (N.shiftr c 12) 0x3F);
        N.lor 0x80 (N.land (N.shiftr c 6) 0x3F); N.lor 0x80 (N.land c 0x3F)]
  else Err UnicodeEncodeError.

(** [s.encode("utf-8")]. *)
Fixpoint utf8_encode (s : pystr) : result (list N) :=
  match s with
  | [] => Ok []
  | c :: s' => b ← encode_char c; bs ← utf8_encode s'; Ok (b ++ bs)
  end.

Definition is_cont (b : N) : bool := (0x80 <=? b)%N && (b <? 0xC0)%N.

(** [bytes.decode("utf-8")], strict. *)
Fixpoint utf8_decode (bs : list N) : result pystr :=
  match bs with
  | [] => Ok []
  | b1 :: rest =>
      if (b1 <? 0x80)%N then s ← utf8_decode rest; Ok (b1 :: s)
      else if (b1 <? 0xC2)%N then Err UnicodeDecodeError
      else if (b1 <? 0xE0)%N then
        match rest with
        | b2 :: rest' =>
            if is_cont b2 then
              s ← utf8_decode rest';
              Ok ((N.shiftl b1 6 + b2 - (N.shiftl 0xC0 6 + 0x80))%N :: s)
            else Err UnicodeDecodeError
        | [] => Err UnicodeDecodeError
        end
      else if (b1 <? 0xF0)%N then
        match rest with
        | b2 :: b3 :: rest' =>
            if is_cont b2 && is_cont b3 &&
               negb ((b1 =? 0xE0)%N && (b2 <? 0xA0)%N) &&
               negb ((b1 =? 0xED)%N && (0xA0 <=? b2)%N) then
              s ← utf8_decode rest';
              Ok ((N.shiftl b1 12 + N.shiftl b2 6 + b3
                   - (N.shiftl 0xE0 12 + N.shiftl 0x80 6 + 0x80))%N :: s)
            else Err UnicodeDecodeError
        | _ => Err UnicodeDecodeError
        end
      else if (b1 <? 0xF5)%N then
        match rest with
        | b2 :: b3 :: b4 :: rest' =>
            if is_cont b2 && is_cont b3 && is_cont b4 &&
               negb ((b1 =? 0xF0)%N && (b2 <? 0x90)%N) &&
               negb ((b1 =? 0xF4)%N && (0x90 <=? b2)%N) then
              s ← utf8_decode rest';
              Ok ((N.shiftl b1 18 + N.shiftl b2 12 + N.shiftl b3 6 + b4
                   - (N.shiftl 0xF0 18 + N.shiftl 0x80 12 + N.shiftl 0x80 6 + 0x80))%N :: s)
            else Err UnicodeDecodeError
        | _ => Err UnicodeDecodeError
        end
      else Err UnicodeDecodeError
  end.

(** The bytes that occur in UTF-8 text: no [0xC0], [0xC1] or [0xF5] and
    above. *)
Definition valid_byte (b : N) : bool := (b <? 0xC0)%N || ((0xC2 <=? b)%N && (b <? 0xF5)%N).

(** A byte sequence that does not start with a continuation byte. *)
Definition starts_lead (bs : list N) : Prop :=
  match bs with [] => True | b :: _ => is_cont b = false end.

(** ** Arithmetic of the bit operations *)

(** Decides every comparison of [N] in the goal with [lia]. *)
Ltac decide_cmp :=
  repeat match goal with
  | |- context [(?x <? ?y)%N] =>
      first [ rewrite (proj2 (N.ltb_lt x y)) by lia | rewrite (proj2 (N.ltb_ge x y)) by lia ]
  | |- context [(?x <=? ?y)%N] =>
      first [ rewrite (proj2 (N.leb_le x y)) by lia | rewrite (proj2 (N.leb_gt x y)) by lia ]
  | |- context [(?x =? ?y)%N] =>
      first [ rewrite (proj2 (N.eqb_eq x y)) by lia | rewrite (proj2 (N.eqb_neq x y)) by lia ]
  end.

Lemma mod_pow2_add_mul (a y k : N) : ((y + a * 2 ^ k) mod 2 ^ k = y mod 2 ^ k)%N.
Proof. apply N.Div0.mod_add. Qed.

(** An [or] of a multiple of [2^k] and a number below [2^k] is their sum. *)
Lemma lor_disjoint_add (a y k : N) :
  (a mod 2 ^ k = 0)%N -> (y < 2 ^ k)%N -> N.lor a y = (a + y)%N.
Proof.
  intros Ha Hy.
  assert (Hk : (2 ^ k <> 0)%N) by (apply N.pow_nonzero; lia).
  assert (Hq : a = (a / 2 ^ k * 2 ^ k)%N)
    by (rewrite (N.div_mod a (2 ^ k)) at 1 by exact Hk; rewrite Ha; lia).
  apply N.bits_inj. intros i. rewrite N.lor_spec.
  destruct (N.lt_ge_cases i k) as [Hi|Hi].
  - rewrite <- (N.mod_pow2_bits_low a k i Hi), Ha, N.bits_0. cbn.
    rewrite <- (N.mod_pow2_bits_low (a + y) k i Hi). f_equal.
    rewrite Hq, N.add_comm, mod_pow2_add_mul. symmetry. by apply N.mod_small.
  - assert (Hy0 : N.testbit y i = false).
    { destruct (N.eq_dec y 0) as [->|Hy0]; [apply N.bits_0|].
      apply N.bits_above_log2. apply N.log2_lt_pow2 in Hy; lia. }
    rewrite Hy0, orb_false_r.
    replace i with (i - k + k)%N by lia. rewrite <- !N.div_pow2_bits. f_equal.
    rewrite Hq at 2. rewrite N.add_comm, N.div_add by exact Hk.
    rewrite (N.div_small y) by exact Hy. lia.
Qed.

Lemma land_63 c : N.land c 0x3F = (c mod 64)%N.
Proof. change 0x3F%N with (N.ones 6). by rewrite N.land_ones. Qed.

Lemma cont_byte x : (N.lor 0x80 (N.land x 0x3F) = 0x80 + x mod 64)%N.
Proof.
  rewrite land_63. apply (lor_disjoint_add _ _ 6); [reflexivity|].
  pose proof (N.mod_lt x 64). cbn. lia.
Qed.

Lemma shr6 c : N.shiftr c 6 = (c / 64)%N.
Proof. by rewrite N.shiftr_div_pow2. Qed.

Lemma shr12 c : N.shiftr c 12 = (c / 64 / 64)%N.
Proof. rewrite N.shiftr_div_pow2, N.Div0.div_div. reflexivity. Qed.

Lemma shr18 c : N.shiftr c 18 = (c / 64 / 64 / 64)%N.
Proof. rewrite N.shiftr_div_pow2, !N.Div0.div_div. reflexivity. Qed.

Lemma shl6 x : N.shiftl x 6 = (x * 64)%N.
Proof. by rewrite N.shiftl_mul_pow2. Qed.

Lemma shl12 x : N.shiftl x 12 = (x * 4096)%N.
Proof. by rewrite N.shiftl_mul_pow2. Qed.

Lemma shl18 x : N.shiftl x 18 = (x * 262144)%N.
Proof. by rewrite N.shiftl_mul_pow2. Qed.

(** Like [decide_cmp], splitting on the comparisons [lia] cannot decide. *)
Ltac cmp_cases :=
  repeat match goal with
  | |- context [(?x <? ?y)%N] =>
      first [ rewrite (proj2 (N.ltb_lt x y)) by lia | rewrite (proj2 (N.ltb_ge x y)) by lia
            | destruct (N.ltb_spec x y) ]
  | |- context [(?x <=? ?y)%N] =>
      first [ rewrite (proj2 (N.leb_le x y)) by lia | rewrite (proj2 (N.leb_gt x y)) by lia
            | destruct (N.leb_spec x y) ]
  | |- context [(?x =? ?y)%N] =>
      first [ rewrite (proj2 (N.eqb_eq x y)) by lia | rewrite (proj2 (N.eqb_neq x y)) by lia
            | destruct (N.eqb_spec x y) ]
  end.

(** Ends a decoding step: the rest decodes or fails alike on both sides. *)
Ltac finish_decode :=
  cbn [andb negb]; try lia;
  match goal with
  | |- context [utf8_decode ?r] => destruct (utf8_decode r); cbn; [f_equal; f_equal; lia|done]
  end.

(** ** The encoder, length by length *)

Lemma encode_char_1 c : (c < 0x80)%N -> encode_char c = Ok [c].
Proof. intros Hc. unfold encode_char. by decide_cmp. Qed.

Lemma encode_char_2 c :
  (0x80 <= c < 0x800)%N -> encode_char c = Ok [(0xC0 + c / 64)%N; (0x80 + c mod 64)%N].
Proof.
  intros Hc. unfold encode_char. decide_cmp. rewrite shr6, cont_byte.
  rewrite (lor_disjoint_add _ _ 5); [done|reflexivity|].
  apply N.Div0.div_lt_upper_bound. cbn. lia.
Qed.

Lemma encode_char_3 c :
  (0x800 <= c < 0x10000)%N -> is_surrogate c = false ->
  encode_char c = Ok [(0xE0 + c / 64 / 64)%N; (0x80 + (c / 64) mod 64)%N; (0x80 + c mod 64)%N].
Proof.
  intros Hc Hs. unfold encode_char. decide_cmp. rewrite Hs, shr12, shr6, !cont_byte.
  rewrite (lor_disjoint_add _ _ 4); [done|reflexivity|].
  rewrite N.Div0.div_div. apply N.Div0.div_lt_upper_bound. cbn. lia.
Qed.

Lemma encode_char_4 c :
  (0x10000 <= c < 0x110000)%N ->
  encode_char c = Ok [(0xF0 + c / 64 / 64 / 64)%N; (0x80 + (c / 64 / 64) mod 64)%N;
                      (0x80 + (c / 64) mod 64)%N; (0x80 + c mod 64)%N].
Proof.
  intros Hc. unfold encode_char. decide_cmp. rewrite shr18, shr12, shr6, !cont_byte.
  rewrite (lor_disjoint_add _ _ 3); [done|reflexivity|].
  rewrite !N.Div0.div_div. apply N.Div0.div_lt_upper_bound. cbn. lia.
Qed.

(** ** The decoder on the encoder's sequences *)

Lemma decode_2 q r rest :
  (2 <= q < 32)%N -> (r < 64)%N ->
  utf8_decode ((0xC0 + q)%N :: (0x80 + r)%N :: rest)
  = (s ← utf8_decode rest; Ok ((64 * q + r)%N :: s)).
Proof.
  intros Hq Hr. cbn [utf8_decode]. unfold is_cont. rewrite !shl6. cmp_cases; finish_decode.
Qed.

Lemma decode_3 a b r rest :
  (a < 16)%N -> (b < 64)%N -> (r < 64)%N -> (a = 0 -> 32 <= b)%N -> (a = 13 -> b < 32)%N ->
  utf8_decode ((0xE0 + a)%N :: (0x80 + b)%N :: (0x80 + r)%N :: rest)
  = (s ← utf8_decode rest; Ok ((4096 * a + 64 * b + r)%N :: s)).
Proof.
  intros Ha Hb Hr H0 H13. cbn [utf8_decode]. unfold is_cont. rewrite !shl12, !shl6.
  cmp_cases; finish_decode.
Qed.

Lemma decode_4 a b d r rest :
  (a <= 4)%N -> (b < 64)%N -> (d < 64)%N -> (r < 64)%N ->
  (a = 0 -> 16 <= b)%N -> (a = 4 -> b < 16)%N ->
  utf8_decode ((0xF0 + a)%N :: (0x80 + b)%N :: (0x80 + d)%N :: (0x80 + r)%N :: rest)
  = (s ← utf8_decode rest; Ok ((262144 * a + 4096 * b + 64 * d + r)%N :: s)).
Proof.
  intros Ha Hb Hd Hr H0 H4. cbn [utf8_decode]. unfold is_cont. rewrite !shl18, !shl12, !shl6.
  cmp_cases; finish_decode.
Qed.

(** Quotient and remainder by 64, made opaque for [lia]. *)
Ltac div64 x q r :=
  pose proof (N.div_mod x 64 ltac:(lia)); pose proof (N.mod_lt x 64 ltac:(lia));
  set (q := (x / 64)%N) in *; set (r := (x mod 64)%N) in *; clearbody q r.

Ltac same_rest :=
  match goal with
  | |- context [utf8_decode ?r] => destruct (utf8_decode r); cbn; [f_equal; f_equal; lia|done]
  end.

(** Decoding the bytes of one character, then the rest. *)
Lemma decode_encode_char c bs rest :
  encode_char c = Ok bs -> utf8_decode (bs ++ rest) = (s ← utf8_decode rest; Ok (c :: s)).
Proof.
  intros Hc. destruct (N.lt_ge_cases c 0x80) as [H1|H1].
  { rewrite encode_char_1 in Hc by done. injection Hc as <-. cbn. by decide_cmp. }
  destruct (N.lt_ge_cases c 0x800) as [H2|H2].
  { rewrite encode_char_2 in Hc by lia. injection Hc as <-. cbn [app]. div64 c q r.
    rewrite decode_2 by lia. same_rest. }
  destruct (N.lt_ge_cases c 0x10000) as [H3|H3].
  { destruct (is_surrogate c) eqn:Hs.
    { revert Hc. unfold encode_char. decide_cmp. by rewrite Hs. }
    rewrite encode_char_3 in Hc by done. injection Hc as <-. cbn [app].
    unfold is_surrogate in Hs. apply andb_false_iff in Hs as [Hs|Hs];
      [apply N.leb_gt in Hs|apply N.ltb_ge in Hs]; div64 c q r; div64 q a b;
      (rewrite decode_3 by lia; same_rest). }
  destruct (N.lt_ge_cases c 0x110000) as [H4|H4].
  { rewrite encode_char_4 in Hc by lia. injection Hc as <-. cbn [app].
    div64 c q r; div64 q q' d; div64 q' a b.
    rewrite decode_4 by lia. same_rest. }
  revert Hc. unfold encode_char. by decide_cmp.
Qed.

Lemma utf8_encode_app a b :
  utf8_encode (a ++ b) = (x ← utf8_encode a; y ← utf8_encode b; Ok (x ++ y)).
Proof.
  induction a as [|c a IH]; cbn.
  - by destruct (utf8_encode b).
  - destruct (encode_char c); [|done]. cbn. rewrite IH.
    destruct (utf8_encode a); [|done]. cbn. destruct (utf8_encode b); [|done]. cbn.
    by rewrite app_assoc.
Qed.

Lemma encode_char_ok c : (exists bs, encode_char c = Ok bs) <-> is_scalar c = true.
Proof.
  unfold is_scalar. destruct (N.lt_ge_cases c 0x80) as [H1|H1].
  { rewrite encode_char_1 by done. decide_cmp. unfold is_surrogate. decide_cmp. naive_solver. }
  destruct (N.lt_ge_cases c 0x800) as [H2|H2].
  { rewrite encode_char_2 by lia. decide_cmp. unfold is_surrogate. decide_cmp. naive_solver. }
  destruct (N.lt_ge_cases c 0x110000) as [H4|H4].
  - decide_cmp. cbn. destruct (is_surrogate c) eqn:Hs.
    + split; [|discriminate]. intros (bs & Hc). revert Hc.
      assert (Hlt : (c < 0x10000)%N).
      { unfold is_surrogate in Hs. apply andb_prop in Hs as [_ Hs]. apply N.ltb_lt in Hs. lia. }
      unfold encode_char. decide_cmp. rewrite Hs. discriminate.
    + split; [done|intros _]. destruct (N.lt_ge_cases c 0x10000).
      * rewrite encode_char_3 by done. by eexists.
      * rewrite encode_char_4 by lia. by eexists.
  - unfold encode_char. decide_cmp. split; [intros (? & ?); discriminate|discriminate].
Qed.

Lemma decode_encoded s bs : utf8_encode s = Ok bs -> utf8_decode bs = Ok s.
Proof.
  revert bs. induction s as [|c s IH]; intros bs Hs; cbn in Hs; [by injection Hs as <-|].
  destruct (encode_char c) as [b|] eqn:Hc; [|discriminate]. cbn in Hs.
  destruct (utf8_encode s) as [bs'|] eqn:Hs'; [|discriminate]. injection Hs as <-.
  rewrite (decode_encode_char c b bs' Hc), (IH bs' eq_refl). reflexivity.
Qed.

(** [s.encode("utf-8")] succeeds exactly when every character of [s] is a
    scalar value. *)
Lemma encode_ok_iff s :
  (exists bs, utf8_encode s = Ok bs) <-> Forall (fun c => is_scalar c = true) s.
Proof.
  induction s as [|c s IH]; cbn; [split; [constructor|by eexists]|].
  rewrite Forall_cons, <- encode_char_ok, <- IH.
  destruct (encode_char c); cbn; [|naive_solver].
  destruct (utf8_encode s); cbn; naive_solver.
Qed.

(** The bytes of a character never start with a continuation byte. *)
Lemma encode_char_lead c bs : encode_char c = Ok bs -> exists x t, bs = x :: t /\ is_cont x = false.
Proof.
  intros Hc. unfold is_cont. destruct (N.lt_ge_cases c 0x80) as [H1|H1].
  { rewrite encode_char_1 in Hc by done. injection Hc as <-. eexists _, _. split; [done|].
    by decide_cmp. }
  destruct (N.lt_ge_cases c 0x800) as [H2|H2].
  { rewrite encode_char_2 in Hc by lia. injection Hc as <-. eexists _, _. split; [done|].
    generalize (c / 64)%N. intros. by decide_cmp. }
  destruct (N.lt_ge_cases c 0x10000) as [H3|H3].
  { destruct (is_surrogate c) eqn:Hs.
    { revert Hc. unfold encode_char. decide_cmp. by rewrite Hs. }
    rewrite encode_char_3 in Hc by done. injection Hc as <-. eexists _, _. split; [done|].
    generalize (c / 64 / 64)%N. intros. by decide_cmp. }
  destruct (N.lt_ge_cases c 0x110000) as [H4|H4].
  { rewrite encode_char_4 in Hc by lia. injection Hc as <-. eexists _, _. split; [done|].
    generalize (c / 64 / 64 / 64)%N. intros. by decide_cmp. }
  revert Hc. unfold encode_char. by decide_cmp.
Qed.

Lemma encode_lead s bs : utf8_encode s = Ok bs -> starts_lead bs.
Proof.
  destruct s as [|c s]; cbn; [by intros [= <-]|].
  destruct (encode_char c) as [b|] eqn:Hc; [|discriminate]. cbn.
  destruct (utf8_encode s); [|discriminate]. intros [= <-].
  by destruct (encode_char_lead c b Hc) as (x & t & -> & Hx).
Qed.

(** One step of the decoder: it fails, or it takes a valid lead byte and
    the continuation bytes [pre], whatever follows them. *)
Lemma decode_step b1 rest :
  utf8_decode (b1 :: rest) = Err UnicodeDecodeError \/
  exists pre rest' c, rest = pre ++ rest' /\ valid_byte b1 = true /\
    Forall (fun b => is_cont b = true) pre /\
    forall r, utf8_decode (b1 :: pre ++ r) = (s ← utf8_decode r; Ok (c :: s)).
Proof.
  unfold valid_byte. destruct (N.lt_ge_cases b1 0x80).
  { right. exists [], rest, b1. do 3 (split; [by decide_cmp|]). intros r. cbn. by decide_cmp. }
  destruct (N.lt_ge_cases b1 0xC2). { left. cbn. by decide_cmp. }
  destruct (N.lt_ge_cases b1 0xE0).
  { destruct rest as [|b2 rest]; [left; cbn; by decide_cmp|].
    destruct (is_cont b2) eqn:H2; [right|left; cbn; decide_cmp; by rewrite H2].
    eexists [b2], rest, _. do 3 (split; [by decide_cmp; repeat constructor|]).
    intros r. cbn. decide_cmp. by rewrite H2. }
  destruct (N.lt_ge_cases b1 0xF0).
  { destruct rest as [|b2 [|b3 rest]]; [left; cbn; by decide_cmp..|].
    destruct (is_cont b2 && is_cont b3 && negb ((b1 =? 0xE0)%N && (b2 <? 0xA0)%N) &&
              negb ((b1 =? 0xED)%N && (0xA0 <=? b2)%N)) eqn:Hc;
      [right|left; cbn; decide_cmp; by rewrite Hc].
    eexists [b2; b3], rest, _. split; [done|]. split; [by decide_cmp|].
    split; [rewrite !andb_true_iff in Hc; destruct Hc as [[[? ?] _] _]; by repeat constructor|].
    intros r. cbn. decide_cmp. by rewrite Hc. }
  destruct (N.lt_ge_cases b1 0xF5).
  { destruct rest as [|b2 [|b3 [|b4 rest]]]; [left; cbn; by decide_cmp..|].
    destruct (is_cont b2 && is_cont b3 && is_cont b4 &&
              negb ((b1 =? 0xF0)%N && (b2 <? 0x90)%N) &&
              negb ((b1 =? 0xF4)%N && (0x90 <=? b2)%N)) eqn:Hc;
      [right|left; cbn; decide_cmp; by rewrite Hc].
    eexists [b2; b3; b4], rest, _. split; [done|]. split; [by decide_cmp|].
    split; [rewrite !andb_true_iff in Hc; destruct Hc as [[[[? ?] ?] _] _]; by repeat constructor|].
    intros r. cbn. decide_cmp. by rewrite Hc. }
  left. cbn. by decide_cmp.
Qed.

(** The strict decoder raises [UnicodeDecodeError] and nothing else. *)
Lemma decode_err bs e : utf8_decode bs = Err e -> e = UnicodeDecodeError.
Proof.
  induction bs as [bs IH] using (induction_ltof1 _ (@length N)).
  destruct bs as [|b1 rest]; [discriminate|].
  destruct (decode_step b1 rest) as [->|(pre & rest' & c & -> & _ & _ & Hstep)]; [congruence|].
  rewrite Hstep. destruct (utf8_decode rest') eqn:Hr; [discriminate|]. intros [= <-].
  apply (IH rest'); [|done]. unfold ltof. rewrite length_cons, length_app. lia.
Qed.

(** Every byte of a decodable sequence is a valid byte. *)
Lemma decode_ok_valid bs s : utf8_decode bs = Ok s -> Forall (fun b => valid_byte b = true) bs.
Proof.
  revert s. induction bs as [bs IH] using (induction_ltof1 _ (@length N)). intros s.
  destruct bs as [|b1 rest]; [constructor|].
  destruct (decode_step b1 rest) as [->|(pre & rest' & c & -> & Hb1 & Hpre & Hstep)]; [discriminate|].
  rewrite Hstep. destruct (utf8_decode rest') as [s'|] eqn:Hr; [|discriminate]. intros _.
  constructor; [done|]. apply Forall_app. split.
  - eapply Forall_impl; [exact Hpre|]. unfold is_cont, valid_byte. intros b.
    rewrite andb_true_iff, !N.ltb_lt, N.leb_le. intros ?. by decide_cmp.
  - apply (IH rest' ltac:(unfold ltof; rewrite length_cons, length_app; lia) s' Hr).
Qed.

Lemma app_cont_prefix (pre r rest c : list N) :
  Forall (fun b => is_cont b = true) pre -> starts_lead c -> rest ++ c = pre ++ r ->
  exists r', rest = pre ++ r' /\ r = r' ++ c.
Proof.
  revert rest. induction pre as [|x pre IH]; intros rest Hpre Hc Heq; [by exists rest|].
  apply Forall_cons in Hpre as [Hx Hpre]. destruct rest as [|y rest].
  - destruct c as [|z c]; [discriminate|]. cbn in Heq, Hc. injection Heq as -> _. congruence.
  - injection Heq as -> Heq. destruct (IH rest Hpre Hc Heq) as (r' & -> & ->). by exists r'.
Qed.

(** A sequence that does not decode does not decode either when text
    the encoder produced is appended to it. *)
Lemma decode_err_app bs c : utf8_decode bs = Err UnicodeDecodeError -> starts_lead c ->
  utf8_decode (bs ++ c) = Err UnicodeDecodeError.
Proof.
  induction bs as [bs IH] using (induction_ltof1 _ (@length N)). intros Hbs Hc.
  destruct bs as [|b1 rest]; [discriminate|]. cbn [app].
  destruct (decode_step b1 (rest ++ c)) as [?|(pre & r & ch & Heq & _ & Hpre & Hstep)]; [done|].
  destruct (app_cont_prefix pre r rest c Hpre Hc Heq) as (r' & -> & ->).
  rewrite <- app_assoc, Hstep. rewrite Hstep in Hbs. destruct (utf8_decode r') eqn:Hr; [discriminate|].
  pose proof (decode_err r' e Hr) as ->.
  rewrite (IH r'); [done| |done|done]. unfold ltof. rewrite length_cons, length_app. lia.
Qed.

(** ** Theorems *)

(** C5: decoding the bytes the encoder produced gives the string back:
    the text [add] appends to the store is the text [cafes] reads. *)
Theorem utf8_roundtrip s bs : utf8_encode s = Ok bs -> utf8_decode bs = Ok s.
Proof. exact (decode_encoded s bs). Qed.

(** ** Witnesses *)

(** The coffee glyph (three bytes) and the power glyph (four bytes). *)
Lemma utf8_roundtrip_witness :
  utf8_encode [0x2615; 0x1F4AA]%N = Ok [0xE2; 0x98; 0x95; 0xF0; 0x9F; 0x92; 0xAA]%N /\
  utf8_decode [0xE2; 0x98; 0x95; 0xF0; 0x9F; 0x92; 0xAA]%N = Ok [0x2615; 0x1F4AA]%N.
Proof.
  assert (He : utf8_encode [0x2615; 0x1F4AA]%N = Ok [0xE2; 0x98; 0x95; 0xF0; 0x9F; 0x92; 0xAA]%N)
    by reflexivity.
  exact (conj He (utf8_roundtrip _ _ He)).
Defined.

End Utf8.
