(* ===== verification/Ratings.v ===== *)
(** * Ratings: the emoji table and the rating choice lists

    Models the module-level code of [src/main.py] (lines 22-42): the
    [emojis] dict, the three lists [coffee_rating_list], [wifi_rating_list]
    and [power_rating_list] built when the module is loaded, the
    [SECRET_KEY] read from the environment, and the lookup
    [dict(<list>).get(int(<data>))] the [add] handler makes (lines 87-89).
    The theorems show that loading never fails, that the lookup implements
    the rating encoder of the specification, and that a display string gives
    its rating back by counting glyphs. *)

From stdpp Require Import base list gmap strings.
From Stdlib Require Import NArith ZArith Lia.
From S2P Require Import Prelude.

Module Emoji.

(** ** The [emojis] dict (lines 26-31) *)

Definition x_glyph : pystr := [0x2718%N].
Definition coffee_glyph : pystr := [0x2615%N; 0xFE0F%N].
Definition wifi_glyph : pystr := [0x1F4AA%N].
Definition power_glyph : pystr := [0x1F50C%N].

Definition emojis : gmap pystr pystr :=
  py_dict [(py "x", x_glyph); (py "coffee", coffee_glyph);
           (py "wifi", wifi_glyph); (py "power", power_glyph)].

(** ** Module initialisation (lines 22-42)

    [[(index, glyph * index) for index in range(1, 6)]] *)
Definition rating_list (glyph : pystr) : list (Z * pystr) :=
  map (fun index => (index, py_str_mul glyph index)) (py_range 1 6).

(** The globals the handlers read: the configured secret key and the three
    choice lists. *)
Record Globals := {
  secret_key : option pystr;
  coffee_rating_list : list (Z * pystr);
  wifi_rating_list : list (Z * pystr);
  power_rating_list : list (Z * pystr)
}.

(** Executing the module body in the environment [environ]: the statements
    run in source order, each [emojis[...]] may raise [KeyError]. *)
Definition load_module (environ : gmap pystr pystr) : result Globals :=
  let secret := environ !! py "SECRET_KEY" in
  coffee ← py_getitem emojis (py "coffee");
  wifi ← py_getitem emojis (py "wifi");
  x ← py_getitem emojis (py "x");
  power ← py_getitem emojis (py "power");
  x' ← py_getitem emojis (py "x");
  mret {| secret_key := secret;
          coffee_rating_list := rating_list coffee;
          wifi_rating_list := py_list_insert 0 (0%Z, x) (rating_list wifi);
          power_rating_list := py_list_insert 0 (0%Z, x') (rating_list power) |}.

(** ** The lookup of the [add] handler (lines 87-89)

    [dict(rating_list).get(int(data))]: [int] may raise [ValueError]; a
    missing key gives [None]. *)
Definition rating_option (rating_list : list (Z * pystr)) (data : pystr)
  : result (option pystr) :=
  k ← py_int data;
  mret (py_dict rating_list !! k).

(** ** The rating encoder of the specification

    The specification describes one encoder per category: the coffee rating
    takes 1 to 5, the wifi and power ratings 0 to 5, and 0 is shown as the
    sentinel glyph. *)
Inductive category := Coffee | Wifi | Power.

Definition glyph_of (c : category) : pystr :=
  match c with Coffee => coffee_glyph | Wifi => wifi_glyph | Power => power_glyph end.

Definition encode_spec (c : category) (n : Z) : option pystr :=
  if (1 <=? n)%Z && (n <=? 5)%Z then Some (py_str_mul (glyph_of c) n)
  else match c with
       | Coffee => None
       | Wifi | Power => if (n =? 0)%Z then Some x_glyph else None
       end.

(** The choice list of a category in the globals. *)
Definition choices (g : Globals) (c : category) : list (Z * pystr) :=
  match c with
  | Coffee => coffee_rating_list g
  | Wifi => wifi_rating_list g
  | Power => power_rating_list g
  end.

(** Recovering a rating from its display string by counting glyphs. *)
Fixpoint strip_prefix (p s : pystr) : option pystr :=
  match p, s with
  | [], _ => Some s
  | a :: p', b :: s' => if (a =? b)%N then strip_prefix p' s' else None
  | _ :: _, [] => None
  end.

Fixpoint count_reps (fuel : nat) (g s : pystr) : option Z :=
  match s with
  | [] => Some 0%Z
  | _ :: _ =>
      match fuel with
      | O => None
      | S f => match strip_prefix g s with
               | Some s' => option_map Z.succ (count_reps f g s')
               | None => None
               end
      end
  end.

Definition decode_rating (c : category) (s : pystr) : option Z :=
  if bool_decide (s = x_glyph) then
    match c with Coffee => None | Wifi | Power => Some 0%Z end
  else count_reps (length s) (glyph_of c) s.

(** ** Lemmas on the tables *)

Lemma rating_list_keys glyph : (rating_list glyph).*1 = py_range 1 6.
Proof. reflexivity. Qed.

Lemma lookup_rating_list glyph n :
  py_dict (rating_list glyph) !! n
  = if (1 <=? n)%Z && (n <=? 5)%Z then Some (py_str_mul glyph n) else None.
Proof.
  destruct ((1 <=? n)%Z && (n <=? 5)%Z) eqn:Hn.
  - apply andb_prop in Hn as [H1 H2]. apply Z.leb_le in H1, H2.
    apply lookup_py_dict_Some; [rewrite rating_list_keys; apply NoDup_py_range|].
    apply list_elem_of_In, in_map_iff. exists n. split; [done|].
    apply list_elem_of_In, elem_of_py_range. lia.
  - apply lookup_py_dict_None. rewrite rating_list_keys, elem_of_py_range.
    apply andb_false_iff in Hn as [H|H]; apply Z.leb_gt in H; lia.
Qed.

Lemma lookup_rating_list_x glyph n :
  py_dict ((0%Z, x_glyph) :: rating_list glyph) !! n
  = if (n =? 0)%Z then Some x_glyph else py_dict (rating_list glyph) !! n.
Proof.
  assert (Hnd : NoDup ((0%Z, x_glyph) :: rating_list glyph).*1).
  { cbn [fmap list_fmap fst]. rewrite rating_list_keys. constructor.
    - rewrite elem_of_py_range. lia.
    - apply NoDup_py_range. }
  rewrite lookup_rating_list. destruct (Z.eqb_spec n 0) as [->|Hn0].
  - apply lookup_py_dict_Some; [done|]. apply elem_of_cons. by left.
  - destruct ((1 <=? n)%Z && (n <=? 5)%Z) eqn:Hn.
    + apply andb_prop in Hn as [H1 H2]. apply Z.leb_le in H1, H2.
      apply lookup_py_dict_Some; [done|]. apply elem_of_cons. right.
      apply list_elem_of_In, in_map_iff. exists n. split; [done|].
      apply list_elem_of_In, elem_of_py_range. lia.
    + apply lookup_py_dict_None. cbn [fmap list_fmap fst].
      rewrite rating_list_keys, elem_of_cons, elem_of_py_range.
      apply andb_false_iff in Hn as [H|H]; apply Z.leb_gt in H; lia.
Qed.

Lemma strip_prefix_app p s : strip_prefix p (p ++ s) = Some s.
Proof. induction p as [|a p IH]; cbn; [done|]. by rewrite N.eqb_refl. Qed.

Lemma count_reps_repeat g k fuel :
  g <> [] -> (k <= fuel)%nat ->
  count_reps fuel g (concat (repeat g k)) = Some (Z.of_nat k).
Proof.
  intros Hg. revert fuel. induction k as [|k IH]; intros fuel Hk; [by destruct fuel|].
  destruct fuel as [|f]; [lia|]. cbn [repeat concat].
  destruct g as [|a g']; [done|]. cbn [count_reps app].
  replace (strip_prefix (a :: g') (a :: g' ++ concat (repeat (a :: g') k)))
    with (Some (concat (repeat (a :: g') k))) by (symmetry; apply (strip_prefix_app (a :: g'))).
  rewrite IH by lia. cbn. f_equal. lia.
Qed.

Lemma glyph_of_head c : exists a t, glyph_of c = a :: t /\ a <> 0x2718%N.
Proof. destruct c; cbn; eexists _, _; split; [reflexivity| |reflexivity| |reflexivity|]; lia. Qed.

Lemma glyph_of_ge c ch : ch ∈ glyph_of c -> (0x2000 <= ch)%N.
Proof. destruct c; cbn; rewrite list_elem_of_In; cbn; lia. Qed.

Lemma rating_list_mem glyph v l :
  (v, l) ∈ rating_list glyph -> (1 <= v <= 5)%Z /\ l = py_str_mul glyph v.
Proof.
  unfold rating_list. rewrite list_elem_of_In, in_map_iff.
  intros (i & [= -> ->] & Hi). apply list_elem_of_In, elem_of_py_range in Hi. split; [lia|done].
Qed.

(** ** Theorems *)

(** The value of the module's globals. *)
Lemma load_module_value environ :
  load_module environ =
  Ok {| secret_key := environ !! py "SECRET_KEY";
        coffee_rating_list := rating_list coffee_glyph;
        wifi_rating_list := (0%Z, x_glyph) :: rating_list wifi_glyph;
        power_rating_list := (0%Z, x_glyph) :: rating_list power_glyph |}.
Proof. reflexivity. Qed.

(** [dict(choices).get(n)] is the encoder of the specification. *)
Lemma lookup_choices environ g c n :
  load_module environ = Ok g -> py_dict (choices g c) !! n = encode_spec c n.
Proof.
  rewrite load_module_value. intros [= <-]. unfold encode_spec.
  destruct c; cbn [choices coffee_rating_list wifi_rating_list power_rating_list];
    rewrite ?lookup_rating_list_x, lookup_rating_list; cbn [glyph_of];
    [done| |]; destruct (Z.eqb_spec n 0) as [->|]; [done| |done|];
    by destruct (_ && _).
Qed.

(** C16: the [add] handler's lookup [dict(choices).get(int(data))] on the
    string [str(n)] a select field posts for the choice [n] never raises and
    gives the encoding of [n] of the specification. *)
Theorem rating_option_str environ g c n :
  load_module environ = Ok g ->
  rating_option (choices g c) (py_str_Z n) = Ok (encode_spec c n).
Proof.
  intros Hg. unfold rating_option. rewrite int_of_str_Z. cbn.
  by rewrite (lookup_choices environ g c n Hg).
Qed.

(** Every pair of a choice list pairs a rating with its encoding. *)
Lemma choices_mem_encode environ g c v l :
  load_module environ = Ok g -> (v, l) ∈ choices g c -> encode_spec c v = Some l.
Proof.
  rewrite load_module_value. intros [= <-]. unfold encode_spec.
  destruct c; cbn [choices coffee_rating_list wifi_rating_list power_rating_list glyph_of];
    rewrite ?elem_of_cons;
    [|intros [[= -> ->]|Hin]; [done|]|intros [[= -> ->]|Hin]; [done|]];
    [intros Hin| |]; apply rating_list_mem in Hin as [Hv ->];
    rewrite (proj2 (Z.leb_le 1 v)), (proj2 (Z.leb_le v 5)) by lia; done.
Qed.

(** An encoded rating is a non-empty string of non-ASCII glyph code points. *)
Lemma encode_spec_glyphs c n s :
  encode_spec c n = Some s -> s <> [] /\ Forall (fun ch => (0x2000 <= ch)%N) s.
Proof.
  unfold encode_spec. destruct ((1 <=? n)%Z && (n <=? 5)%Z) eqn:Hn.
  - intros [= <-]. apply andb_prop in Hn as [H1 _]. apply Z.leb_le in H1. split.
    + intros Hnil. apply (f_equal length) in Hnil. rewrite length_py_str_mul in Hnil.
      destruct (glyph_of_head c) as (a & t & Hg & _). rewrite Hg in Hnil. cbn in Hnil. lia.
    + apply Forall_forall. intros ch Hch. apply (glyph_of_ge c).
      apply (elem_of_py_str_mul _ n). exact Hch.
  - destruct c; [discriminate| |]; destruct (n =? 0)%Z; intros [= <-];
      (split; [done|]); repeat constructor; cbn; lia.
Qed.

(** Counting glyphs gives the rating back from its display string. *)
Lemma decode_encode_spec c n s : encode_spec c n = Some s -> decode_rating c s = Some n.
Proof.
  unfold encode_spec, decode_rating. destruct ((1 <=? n)%Z && (n <=? 5)%Z) eqn:Hn.
  - intros [= <-]. apply andb_prop in Hn as [H1 _]. apply Z.leb_le in H1.
    destruct (glyph_of_head c) as (a & t & Hg & Ha).
    rewrite bool_decide_false.
    + unfold py_str_mul. rewrite count_reps_repeat; [f_equal; lia|by rewrite Hg|].
      change (concat (repeat (glyph_of c) (Z.to_nat n))) with (py_str_mul (glyph_of c) n).
      rewrite length_py_str_mul, Hg. cbn. nia.
    + unfold py_str_mul. replace (Z.to_nat n) with (S (Z.to_nat (n - 1))) by lia.
      rewrite Hg. cbn. intros [= ? _]. done.
  - destruct c; [discriminate| |]; destruct (Z.eqb_spec n 0) as [->|];
      intros [= <-]; reflexivity.
Qed.

(** Distinct ratings of a category are shown as distinct strings. *)
Corollary encode_spec_inj c n m s :
  encode_spec c n = Some s -> encode_spec c m = Some s -> n = m.
Proof. intros Hn%decode_encode_spec Hm%decode_encode_spec. congruence. Qed.

Lemma strip_prefix_inv p s s' : strip_prefix p s = Some s' -> s = p ++ s'.
Proof.
  revert s. induction p as [|a p IH]; intros s Hs; cbn in Hs; [cbn; congruence|].
  destruct s as [|b s]; [discriminate|]. destruct (N.eqb_spec a b) as [->|]; [|discriminate].
  cbn. f_equal. by apply IH.
Qed.

(** Any two fuels that cover the string's length give the same count. *)
Lemma count_reps_fuel_indep g s f1 f2 :
  g <> [] -> (length s <= f1)%nat -> (length s <= f2)%nat ->
  count_reps f1 g s = count_reps f2 g s.
Proof.
  intros Hg. revert s f2. induction f1 as [|f1 IH]; intros s f2 H1 H2.
  - destruct s; [by destruct f2|cbn in H1; lia].
  - destruct s as [|c s]; [by destruct f2|]. destruct f2 as [|f2]; [cbn in H2; lia|].
    cbn [count_reps]. destruct (strip_prefix g (c :: s)) as [s'|] eqn:Hs; [|done].
    apply strip_prefix_inv in Hs. destruct g as [|a g]; [done|].
    assert (length (c :: s) = S (length g + length s'))%nat as Hl
      by (rewrite Hs; cbn; by rewrite length_app).
    rewrite (IH s' f2) by lia. reflexivity.
Qed.

(** The pairs of a choice list are the encodings of the specification. *)
Lemma choices_mem_of_encode environ g c v l :
  load_module environ = Ok g -> encode_spec c v = Some l -> (v, l) ∈ choices g c.
Proof.
  intros Hg Hl. apply lookup_py_dict_elem. by rewrite (lookup_choices environ g c v Hg).
Qed.

(** ** Claims *)

(** C14: the choice lists the module builds implement the specification's
    encoder: [dict(choices).get(n)] is [encode_spec c n] for every
    category [c] and integer [n], the ratings outside the range included. *)
Theorem choices_encode environ g c n :
  load_module environ = Ok g -> py_dict (choices g c) !! n = encode_spec c n.
Proof. exact (lookup_choices environ g c n). Qed.

(** ** Witnesses *)

Lemma choices_encode_witness :
  exists g, load_module ∅ = Ok g /\
            py_dict (choices g Wifi) !! 3%Z = encode_spec Wifi 3%Z.
Proof. eexists. split; [reflexivity|]. apply (choices_encode ∅). reflexivity. Defined.

Lemma rating_option_str_witness :
  exists g, load_module ∅ = Ok g /\
            rating_option (choices g Power) (py_str_Z 0) = Ok (encode_spec Power 0%Z).
Proof. eexists. split; [reflexivity|]. apply (rating_option_str ∅). reflexivity. Defined.

End Emoji.
