(* ===== verification/Regex.v ===== *)
(** * Regex: the regular expressions of the form's [Regexp] validators

    The pattern of [src/main.py] lines 52 and 58 uses literals, character
    ranges [[a-b]], the class [\s], alternation, concatenation, the
    quantifier [?], groups (which do not change what matches) and the anchors
    [^] and [$].  This file gives such patterns a language ([matches], an
    inductive relation), an executable matcher by Brzozowski derivatives
    ([re_matchb]) proved equal to it, and the behaviour of Python's
    [re.match] on a pattern [^r$], whose [$] also matches just before a
    newline that ends the string. *)

From stdpp Require Import base list.
From Stdlib Require Import NArith ZArith Lia.
From S2P Require Import Prelude.

Module Regex.

Inductive regex :=
| Void
| Eps
| Chr (c : N)
| Range (lo hi : N)
| Space
| Alt (r1 r2 : regex)
| Cat (r1 r2 : regex)
| Opt (r : regex).

(** ** The language of a pattern *)
Inductive matches : regex -> pystr -> Prop :=
| m_eps : matches Eps []
| m_chr c : matches (Chr c) [c]
| m_range lo hi c : (lo <= c <= hi)%N -> matches (Range lo hi) [c]
| m_space c : py_isspace c = true -> matches Space [c]
| m_alt_l r1 r2 s : matches r1 s -> matches (Alt r1 r2) s
| m_alt_r r1 r2 s : matches r2 s -> matches (Alt r1 r2) s
| m_cat r1 r2 s1 s2 : matches r1 s1 -> matches r2 s2 -> matches (Cat r1 r2) (s1 ++ s2)
| m_opt_none r : matches (Opt r) []
| m_opt_some r s : matches r s -> matches (Opt r) s.

(** ** The derivative matcher *)
Fixpoint nullable (r : regex) : bool :=
  match r with
  | Void | Chr _ | Range _ _ | Space => false
  | Eps | Opt _ => true
  | Alt r1 r2 => nullable r1 || nullable r2
  | Cat r1 r2 => nullable r1 && nullable r2
  end.

Definition class_hit (r : regex) (a : N) : bool :=
  match r with
  | Chr c => (a =? c)%N
  | Range lo hi => (lo <=? a)%N && (a <=? hi)%N
  | Space => py_isspace a
  | _ => false
  end.

Fixpoint deriv (a : N) (r : regex) : regex :=
  match r with
  | Void | Eps => Void
  | Chr _ | Range _ _ | Space => if class_hit r a then Eps else Void
  | Alt r1 r2 => Alt (deriv a r1) (deriv a r2)
  | Cat r1 r2 =>
      if nullable r1 then Alt (Cat (deriv a r1) r2) (deriv a r2)
      else Cat (deriv a r1) r2
  | Opt r1 => deriv a r1
  end.

Fixpoint re_matchb (r : regex) (s : pystr) : bool :=
  match s with
  | [] => nullable r
  | a :: s' => re_matchb (deriv a r) s'
  end.

(** [re.match] of the pattern [^r$]: the whole string matches [r], or the
    string is [s' ++ "\n"] and [s'] matches [r]. *)
Definition re_match_anchored (r : regex) (s : pystr) : bool :=
  re_matchb r s ||
  match rev s with
  | c :: rs => (c =? LF)%N && re_matchb r (rev rs)
  | [] => false
  end.

(** The single-character regexes. *)
Definition is_class (r : regex) : bool :=
  match r with Chr _ | Range _ _ | Space => true | _ => false end.

(** ** Inversion lemmas of the language *)

Lemma matches_void s : ~ matches Void s.
Proof. inversion 1. Qed.

Lemma matches_eps s : matches Eps s <-> s = [].
Proof. split; [by inversion 1|intros ->; constructor]. Qed.

Lemma matches_class r s :
  is_class r = true -> matches r s <-> exists a, s = [a] /\ class_hit r a = true.
Proof.
  intros Hr. split.
  - inversion 1; subst; try discriminate; eexists; split; try reflexivity; cbn.
    + apply N.eqb_refl.
    + apply andb_true_intro. split; apply N.leb_le; lia.
    + done.
  - intros (a & -> & Ha). destruct r; try discriminate; cbn in Ha.
    + apply N.eqb_eq in Ha as ->. constructor.
    + apply andb_prop in Ha as [H1 H2]. apply N.leb_le in H1, H2. by constructor.
    + by constructor.
Qed.

Lemma matches_alt r1 r2 s : matches (Alt r1 r2) s <-> matches r1 s \/ matches r2 s.
Proof. split; [inversion 1; auto|intros [?|?]; by constructor]. Qed.

Lemma matches_cat r1 r2 s :
  matches (Cat r1 r2) s <-> exists s1 s2, s = s1 ++ s2 /\ matches r1 s1 /\ matches r2 s2.
Proof. split; [inversion 1; eauto|intros (? & ? & -> & ? & ?); by constructor]. Qed.

Lemma matches_opt r s : matches (Opt r) s <-> s = [] \/ matches r s.
Proof. split; [inversion 1; auto|intros [->|?]; by constructor]. Qed.

Lemma matches_chr c s : matches (Chr c) s <-> s = [c].
Proof.
  rewrite matches_class by done. cbn. split.
  - by intros (a & -> & ->%N.eqb_eq).
  - intros ->. exists c. by rewrite N.eqb_refl.
Qed.

Lemma matches_range lo hi s :
  matches (Range lo hi) s <-> exists a, s = [a] /\ (lo <= a <= hi)%N.
Proof.
  rewrite matches_class by done. cbn. setoid_rewrite andb_true_iff.
  setoid_rewrite N.leb_le. done.
Qed.

Lemma matches_space s : matches Space s <-> exists a, s = [a] /\ py_isspace a = true.
Proof. by rewrite matches_class. Qed.

(** Unfolds the language of a pattern built from the constructors, under
    binders too. *)
Ltac re_simpl :=
  repeat first
    [ setoid_rewrite matches_alt | setoid_rewrite matches_cat
    | setoid_rewrite matches_opt | setoid_rewrite matches_eps
    | setoid_rewrite matches_chr | setoid_rewrite matches_range
    | setoid_rewrite matches_space ].

#[export] Hint Rewrite matches_eps matches_alt matches_cat matches_opt
  matches_chr matches_range matches_space : pyrw.

Lemma nullable_correct r : nullable r = true <-> matches r [].
Proof.
  induction r as [| | | | |r1 IH1 r2 IH2|r1 IH1 r2 IH2|r IH]; cbn.
  - split; [discriminate|by intros ?%matches_void].
  - split; constructor.
  - split; [discriminate|]. intros (a & ? & _)%matches_class; [discriminate|done].
  - split; [discriminate|]. intros (a & ? & _)%matches_class; [discriminate|done].
  - split; [discriminate|]. intros (a & ? & _)%matches_class; [discriminate|done].
  - rewrite orb_true_iff, matches_alt. tauto.
  - rewrite andb_true_iff, matches_cat, IH1, IH2. split.
    + intros [??]. by exists [], [].
    + intros (s1 & s2 & Hs & ? & ?). symmetry in Hs.
      apply app_eq_nil in Hs as [-> ->]. done.
  - split; constructor.
Qed.

Lemma deriv_correct a r s : matches (deriv a r) s <-> matches r (a :: s).
Proof.
  revert s. induction r as [| | | | |r1 IH1 r2 IH2|r1 IH1 r2 IH2|r IH]; intros s; cbn [deriv].
  3-5: rewrite (matches_class _ (a :: s)) by done;
    destruct (class_hit _ a) eqn:Ha;
    [rewrite matches_eps; split;
       [intros ->; eauto|intros (b & [= -> ->] & _); done]
    |split; [by intros ?%matches_void|intros (b & [= -> ->] & ?); congruence]].
  - split; by intros ?%matches_void.
  - split; [by intros ?%matches_void|]. by intros ?%matches_eps.
  - rewrite !matches_alt, IH1, IH2. done.
  - destruct (nullable r1) eqn:Hn.
    + apply nullable_correct in Hn.
      rewrite matches_alt, !matches_cat, IH2. split.
      * intros [(s1 & s2 & -> & H1 & H2)|H].
        -- exists (a :: s1), s2. rewrite <- IH1. done.
        -- by exists [], (a :: s).
      * intros ([|b s1] & s2 & Hs & H1 & H2).
        -- cbn in Hs. subst. by right.
        -- injection Hs as -> ->. left. exists s1, s2. rewrite IH1. done.
    + rewrite !matches_cat. split.
      * intros (s1 & s2 & -> & H1 & H2). exists (a :: s1), s2. rewrite <- IH1. done.
      * intros ([|b s1] & s2 & Hs & H1 & H2).
        -- apply nullable_correct in H1. congruence.
        -- injection Hs as -> ->. exists s1, s2. rewrite IH1. done.
  - rewrite matches_opt, IH. split; [by right|intros [?|?]; [discriminate|done]].
Qed.

(** The derivative matcher decides the language. *)
Lemma re_matchb_spec r s : re_matchb r s = true <-> matches r s.
Proof.
  revert r. induction s as [|a s IH]; intros r; cbn.
  - apply nullable_correct.
  - rewrite IH. apply deriv_correct.
Qed.

(** [re.match("^r$", s)] succeeds exactly when [s], or [s] without one
    final newline, is in the language of [r]. *)
Lemma re_match_anchored_spec r s :
  re_match_anchored r s = true <->
  matches r s \/ exists s', s = s' ++ [LF] /\ matches r s'.
Proof.
  unfold re_match_anchored. rewrite orb_true_iff, re_matchb_spec.
  apply or_iff_compat_l.
  destruct (rev s) as [|c rs] eqn:Hr.
  - split; [discriminate|]. intros (s' & -> & _). rewrite rev_app_distr in Hr. discriminate.
  - rewrite andb_true_iff, re_matchb_spec, N.eqb_eq.
    apply (f_equal (@rev N)) in Hr. rewrite rev_involutive in Hr. cbn in Hr. subst s.
    split.
    + intros [-> ?]. eauto.
    + intros (s' & Hs & ?). apply app_inj_tail in Hs as [-> ->]. done.
Qed.

End Regex.
