(* ===== verification/TimeFormat.v ===== *)
(** * TimeFormat: the opening and closing time validator

    [src/main.py] lines 48-59 validate the [opening] and [closing] fields
    with [Regexp(regex="^([1-9]|1[0-2]):?(0[0-9]|[1-5][0-9])?\\s?(AM|PM)$")].
    The pattern is [time_regex] below, built from the constructs of
    [Regex]; [is_valid_time] is what the validator decides.  The theorems
    characterise the accepted strings exactly, show that every string the
    specification's grammar (section 4.2) accepts is accepted, and that the
    code accepts more: a colon without minutes, minutes without a colon, any
    Unicode whitespace before the meridiem, and a final newline. *)

From stdpp Require Import base list strings.
From Stdlib Require Import NArith ZArith Lia.
From S2P Require Import Prelude Regex.
Import Regex.

Module TimeFormat.

(** Code points of the characters the pattern names. *)
Definition D0 : N := 48.
Definition D1 : N := 49.
Definition D2 : N := 50.
Definition D5 : N := 53.
Definition D9 : N := 57.
Definition CHAR_A : N := 65.
Definition CHAR_M : N := 77.
Definition CHAR_P : N := 80.

Ltac unfold_chars := unfold D0, D1, D2, D5, D9, CHAR_A, CHAR_M, CHAR_P, COLON, LF in *.

(** [([1-9]|1[0-2])] *)
Definition hour_re : regex := Alt (Range D1 D9) (Cat (Chr D1) (Range D0 D2)).
(** [(0[0-9]|[1-5][0-9])] *)
Definition minute_re : regex :=
  Alt (Cat (Chr D0) (Range D0 D9)) (Cat (Range D1 D5) (Range D0 D9)).
(** [(AM|PM)] *)
Definition meridiem_re : regex :=
  Alt (Cat (Chr CHAR_A) (Chr CHAR_M)) (Cat (Chr CHAR_P) (Chr CHAR_M)).

(** [([1-9]|1[0-2]):?(0[0-9]|[1-5][0-9])?\s?(AM|PM)] *)
Definition time_regex : regex :=
  Cat hour_re (Cat (Opt (Chr COLON)) (Cat (Opt minute_re) (Cat (Opt Space) meridiem_re))).

Definition time_message : pystr := py "Incorrect format. Correct format: 9PM or 5:30AM".

(** [Regexp] runs [re.match] of the anchored pattern on the field data. *)
Definition is_valid_time (s : pystr) : bool := re_match_anchored time_regex s.

(** ** The grammar of the specification (section 4.2)

    An hour [1]-[12], optionally [:] and a two-digit minute, optionally one
    space, then [AM] or [PM]. *)
Definition spec_time_regex : regex :=
  Cat hour_re (Cat (Opt (Cat (Chr COLON) minute_re)) (Cat (Opt (Chr SPACE)) meridiem_re)).

Definition spec_valid_time (s : pystr) : bool := re_matchb spec_time_regex s.

(** ** The pieces of a time, as decidable predicates *)
Definition is_hour (h : pystr) : bool :=
  match h with
  | [a] => (D1 <=? a)%N && (a <=? D9)%N
  | [a; b] => (a =? D1)%N && (D0 <=? b)%N && (b <=? D2)%N
  | _ => false
  end.

Definition is_minute (m : pystr) : bool :=
  match m with
  | [a; b] => (D0 <=? a)%N && (a <=? D5)%N && (D0 <=? b)%N && (b <=? D9)%N
  | _ => false
  end.

Definition is_meridiem (e : pystr) : bool :=
  match e with
  | [a; b] => ((a =? CHAR_A)%N || (a =? CHAR_P)%N) && (b =? CHAR_M)%N
  | _ => false
  end.

(** The shape of a string [time_regex] matches. *)
Definition time_shape (b : pystr) : Prop :=
  exists h c m w e, b = h ++ c ++ m ++ w ++ e /\ is_hour h = true /\
    (c = [] \/ c = [COLON]) /\ (m = [] \/ is_minute m = true) /\
    (w = [] \/ exists x, w = [x] /\ py_isspace x = true) /\ is_meridiem e = true.

(** ** Lemmas on the pieces *)

Lemma matches_hour h : matches hour_re h <-> is_hour h = true.
Proof.
  unfold hour_re. re_simpl. split.
  - intros [(a & -> & ?)|(s1 & s2 & -> & -> & b & -> & ?)]; cbn; bool_to_prop; unfold_chars; lia.
  - destruct h as [|a [|b [|? ?]]]; cbn; try discriminate; intros H; bool_to_prop.
    + left. eauto.
    + right. exists [a], [b]. split; [done|]. split; [f_equal; lia|]. exists b. split; [done|lia].
Qed.

Lemma matches_minute m : matches minute_re m <-> is_minute m = true.
Proof.
  unfold minute_re. re_simpl. split.
  - intros [(s1 & s2 & -> & -> & b & -> & ?)|(s1 & s2 & -> & (a & -> & ?) & b & -> & ?)];
      cbn; bool_to_prop; unfold_chars; lia.
  - destruct m as [|a [|b [|? ?]]]; cbn; try discriminate; intros H; bool_to_prop.
    destruct (N.eq_dec a D0) as [->|Ha].
    + left. exists [D0], [b]. split; [done|]. split; [done|]. exists b. split; [done|]. unfold_chars; lia.
    + right. exists [a], [b]. split; [done|]. split; eexists; (split; [done|]); unfold_chars; lia.
Qed.

Lemma matches_meridiem e : matches meridiem_re e <-> is_meridiem e = true.
Proof.
  unfold meridiem_re. re_simpl. split.
  - intros [(s1 & s2 & -> & -> & ->)|(s1 & s2 & -> & -> & ->)]; cbn; bool_to_prop; unfold_chars; lia.
  - destruct e as [|a [|b [|? ?]]]; cbn; try discriminate; intros H; bool_to_prop.
    destruct H as [[->| ->] ->]; [left|right]; eexists [_], [_]; done.
Qed.

(** Unfolds concatenations and options of a pattern, then its pieces;
    alternatives are left to the piece lemmas. *)
Ltac time_simpl :=
  repeat (setoid_rewrite matches_cat || setoid_rewrite matches_opt);
  repeat first [ setoid_rewrite matches_hour | setoid_rewrite matches_minute
               | setoid_rewrite matches_meridiem | setoid_rewrite matches_chr
               | setoid_rewrite matches_space ].

(** What the pattern matches, piece by piece. *)
Lemma matches_time_regex b : matches time_regex b <-> time_shape b.
Proof.
  unfold time_regex, time_shape.
  time_simpl. split.
  - intros (h & r1 & -> & Hh & c & r2 & -> & Hc & m & r3 & -> & Hm & w & e & -> & Hw & He).
    exists h, c, m, w, e. naive_solver.
  - intros (h & c & m & w & e & -> & Hh & Hc & Hm & Hw & He).
    exists h, (c ++ m ++ w ++ e). do 2 (split; [done|]).
    exists c, (m ++ w ++ e). do 2 (split; [done|]).
    exists m, (w ++ e). do 2 (split; [done|]).
    exists w, e. done.
Qed.

Lemma is_hour_shape h :
  is_hour h = true -> (length h = 1 \/ length h = 2)%nat /\ Forall (fun c => is_digit c = true) h.
Proof.
  destruct h as [|a [|b [|? ?]]]; cbn; try discriminate; intros H; bool_to_prop;
    unfold_chars; (split; [lia|]); repeat constructor; unfold is_digit; bool_to_prop; lia.
Qed.

Lemma is_minute_shape m :
  is_minute m = true -> length m = 2%nat /\ Forall (fun c => is_digit c = true) m.
Proof.
  destruct m as [|a [|b [|? ?]]]; cbn; try discriminate; intros H; bool_to_prop;
    unfold_chars; (split; [lia|]); repeat constructor; unfold is_digit; bool_to_prop; lia.
Qed.

Lemma is_meridiem_shape e :
  is_meridiem e = true -> length e = 2%nat /\ Forall (fun c => c <> SPACE /\ py_isspace c = false) e.
Proof.
  destruct e as [|a [|b [|? ?]]]; cbn; try discriminate; intros H; bool_to_prop;
    unfold_chars; (split; [lia|]).
  destruct H as [[-> | ->] ->]; repeat constructor; done.
Qed.

Lemma digits_no_space s :
  Forall (fun c => is_digit c = true) s -> Forall (fun c => c <> SPACE /\ py_isspace c = false) s.
Proof.
  intros H. eapply Forall_impl; [exact H|]. intros c Hc. split.
  - unfold is_digit, SPACE in *. bool_to_prop. lia.
  - by apply is_digit_not_space.
Qed.

Lemma py_replace_space_id s :
  Forall (fun c => c <> SPACE /\ py_isspace c = false) s -> py_replace_char SPACE [] s = s.
Proof.
  intros H. apply py_replace_char_id. intros Hin.
  rewrite Forall_forall in H. by destruct (H SPACE Hin).
Qed.

(** ** Theorems *)

(** The strings the validator accepts, by their shape. *)
Lemma valid_time_spec s :
  is_valid_time s = true <->
  exists b nl, s = b ++ nl /\ (nl = [] \/ nl = [LF]) /\ time_shape b.
Proof.
  unfold is_valid_time. rewrite re_match_anchored_spec.
  setoid_rewrite matches_time_regex. split.
  - intros [Hb|(b & -> & Hb)].
    + exists s, []. rewrite app_nil_r. auto.
    + exists b, [LF]. auto.
  - intros (b & nl & -> & [-> | ->] & Hb); [left; by rewrite app_nil_r|right; eauto].
Qed.

(** C24: every string the specification's time grammar allows (an hour,
    an optional colon with two minute digits, an optional space, AM or PM)
    is accepted by the validator of the opening and closing fields. *)
Theorem spec_time_accepted s : spec_valid_time s = true -> is_valid_time s = true.
Proof.
  unfold spec_valid_time, spec_time_regex. rewrite re_matchb_spec.
  time_simpl.
  intros (h & r1 & -> & Hh & cm & r2 & -> & Hcm & w & e & -> & Hw & He).
  apply valid_time_spec. exists (h ++ cm ++ w ++ e), []. rewrite app_nil_r.
  split; [done|]. split; [by left|].
  destruct Hcm as [->|(c & m & -> & -> & Hm)].
  - exists h, [], [], w, e. repeat split; auto.
    destruct Hw as [->| ->]; [by left|right; by exists SPACE].
  - exists h, [COLON], m, w, e. rewrite <- app_assoc. repeat split; auto.
    destruct Hw as [->| ->]; [by left|right; by exists SPACE].
Qed.

(** A string the specification's grammar allows, piece by piece. *)
Lemma spec_valid_time_shape s :
  spec_valid_time s = true ->
  exists h cm w e, s = h ++ cm ++ w ++ e /\ is_hour h = true /\
    (cm = [] \/ exists m, cm = COLON :: m /\ is_minute m = true) /\
    (w = [] \/ w = [SPACE]) /\ is_meridiem e = true.
Proof.
  unfold spec_valid_time, spec_time_regex. rewrite re_matchb_spec. time_simpl.
  intros (h & r1 & -> & Hh & cm & r2 & -> & Hcm & w & e & -> & Hw & He).
  exists h, cm, w, e. repeat split; auto.
  destruct Hcm as [->|(c & m & -> & -> & Hm)]; [by left|right; by exists m].
Qed.

(** Splits the pieces of two decompositions of one string into their
    characters and compares them. *)
Ltac time_pieces_contra :=
  repeat match goal with
  | H : is_hour ?h = true |- _ =>
      is_var h; destruct h as [|? [|? [|? ?]]]; cbn in H; try discriminate H
  | H : is_minute ?m = true |- _ =>
      is_var m; destruct m as [|? [|? [|? ?]]]; cbn in H; try discriminate H
  | H : is_meridiem ?e = true |- _ =>
      is_var e; destruct e as [|? [|? [|? ?]]]; cbn in H; try discriminate H
  | H : _ \/ exists m, _ = COLON :: m /\ _ |- _ => destruct H as [->|(? & -> & ?)]
  | H : _ = [] \/ _ = [SPACE] |- _ => destruct H as [-> | ->]
  end;
  cbn in *; simplify_eq; bool_to_prop; unfold_chars; unfold SPACE in *; lia.

(** C25: the validator accepts strings outside the specification's
    grammar, whose colon and minutes come together: for every hour, minute
    and meridiem, the hour and a colon without minutes ([9:PM]), and the
    hour and minutes without a colon ([930PM]), are accepted by the
    pattern and not allowed by the grammar. *)
Theorem time_accepts_beyond_spec h m e :
  is_hour h = true -> is_minute m = true -> is_meridiem e = true ->
  (is_valid_time (h ++ COLON :: e) = true /\ spec_valid_time (h ++ COLON :: e) = false) /\
  (is_valid_time (h ++ m ++ e) = true /\ spec_valid_time (h ++ m ++ e) = false).
Proof.
  intros Hh Hm He. split; split.
  - apply valid_time_spec. exists (h ++ COLON :: e), []. rewrite app_nil_r.
    do 2 (split; [auto|]). exists h, [COLON], [], [], e. repeat split; auto.
  - apply not_true_iff_false. intros (h' & cm & w & e' & Hs & Hh' & Hcm & Hw & He')%spec_valid_time_shape.
    time_pieces_contra.
  - apply valid_time_spec. exists (h ++ m ++ e), []. rewrite app_nil_r.
    do 2 (split; [auto|]). exists h, [], m, [], e. repeat split; auto.
  - apply not_true_iff_false. intros (h' & cm & w & e' & Hs & Hh' & Hcm & Hw & He')%spec_valid_time_shape.
    time_pieces_contra.
Qed.

(** The valid and invalid time examples of section 8 of the specification
    are accepted and rejected by the validator. *)
Theorem time_spec_examples :
  Forall (fun s => is_valid_time (py s) = true) ["9PM"; "5:30AM"; "12:00PM"; "1AM"]%string /\
  Forall (fun s => is_valid_time (py s) = false) ["13:00"; "9 pm"; "9:5PM"; "25PM"]%string.
Proof. split; repeat constructor; vm_compute; reflexivity. Qed.

(** The length of an accepted time. *)
Lemma valid_time_length_spec s : is_valid_time s = true -> (3 <= length s <= 9)%nat.
Proof.
  intros (b & nl & -> & Hnl & h & c & m & w & e & -> & Hh & Hc & Hm & Hw & He)%valid_time_spec.
  apply is_hour_shape in Hh as [Hh _]. apply is_meridiem_shape in He as [He _].
  rewrite !length_app.
  destruct Hnl as [-> | ->], Hc as [-> | ->], Hw as [-> | (x & -> & _)];
    (destruct Hm as [-> | Hm]; [|apply is_minute_shape in Hm as [Hm _]]); cbn; lia.
Qed.

(** An accepted time holds a character that is not whitespace, so the
    [DataRequired] check before the pattern never rejects it. *)
Lemma valid_time_not_blank s :
  is_valid_time s = true -> ~ Forall (fun c => py_isspace c = true) s.
Proof.
  intros (b & nl & -> & _ & h & c & m & w & e & -> & Hh & _)%valid_time_spec Hall.
  apply is_hour_shape in Hh as [Hl Hd]. destruct h as [|a h]; [cbn in Hl; lia|].
  inversion Hall as [|? ? Ha _]; subst. inversion Hd as [|? ? Hda _]; subst.
  apply is_digit_not_space in Hda. congruence.
Qed.

(** Removing the spaces of an accepted time keeps it accepted. *)
Lemma stored_time_spec s :
  is_valid_time s = true -> is_valid_time (py_replace_char SPACE [] s) = true.
Proof.
  intros (b & nl & -> & Hnl & h & c & m & w & e & -> & Hh & Hc & Hm & Hw & He)%valid_time_spec.
  apply valid_time_spec. rewrite !py_replace_char_app.
  pose proof Hh as [_ Hhd]%is_hour_shape. pose proof He as [_ Hes]%is_meridiem_shape.
  rewrite (py_replace_space_id h), (py_replace_space_id e) by auto using digits_no_space.
  assert (py_replace_char SPACE [] c = c) as ->
    by (destruct Hc as [-> | ->]; reflexivity).
  assert (py_replace_char SPACE [] m = m) as ->
    by (destruct Hm as [-> | Hm]; [done|]; apply py_replace_space_id, digits_no_space, is_minute_shape, Hm).
  assert (py_replace_char SPACE [] nl = nl) as ->
    by (destruct Hnl as [-> | ->]; reflexivity).
  exists (h ++ c ++ m ++ py_replace_char SPACE [] w ++ e), nl.
  rewrite <- !app_assoc. split; [done|]. split; [done|].
  exists h, c, m, (py_replace_char SPACE [] w), e. split; [done|].
  do 3 (split; [done|]). split; [|done].
  destruct Hw as [-> | (x & -> & Hx)]; [by left|]. cbn.
  destruct (x =? SPACE)%N; [by left|right; eauto].
Qed.

(** C17: the strings the time validator accepts are exactly an hour
    [1]-[12], an optional colon, an optional two-digit minute [00]-[59],
    one optional whitespace character, [AM] or [PM], and an optional final
    newline. *)
Theorem is_valid_time_iff s :
  is_valid_time s = true <->
  exists b nl, s = b ++ nl /\ (nl = [] \/ nl = [LF]) /\ time_shape b.
Proof. exact (valid_time_spec s). Qed.

(** C28: the value the [add] handler stores for a time,
    [str(data).replace(" ", "")], of an accepted time is again an accepted
    time. *)
Theorem stored_time_valid s :
  is_valid_time s = true -> is_valid_time (py_replace_char SPACE [] s) = true.
Proof. exact (stored_time_spec s). Qed.

(** C29: a time the validator accepts has between 3 and 9 characters. *)
Theorem valid_time_length s : is_valid_time s = true -> (3 <= length s <= 9)%nat.
Proof. exact (valid_time_length_spec s). Qed.

(** ** Witnesses *)

Lemma time_accepts_beyond_spec_witness :
  is_hour (py "9") = true /\ is_minute (py "30") = true /\ is_meridiem (py "PM") = true /\
  (is_valid_time (py "9" ++ COLON :: py "PM") = true /\ spec_valid_time (py "9" ++ COLON :: py "PM") = false) /\
  (is_valid_time (py "9" ++ py "30" ++ py "PM") = true /\ spec_valid_time (py "9" ++ py "30" ++ py "PM") = false).
Proof.
  assert (Hh : is_hour (py "9") = true) by reflexivity.
  assert (Hm : is_minute (py "30") = true) by reflexivity.
  assert (He : is_meridiem (py "PM") = true) by reflexivity.
  exact (conj Hh (conj Hm (conj He (time_accepts_beyond_spec _ _ _ Hh Hm He)))).
Defined.

Lemma spec_time_accepted_witness :
  spec_valid_time (py "5:30 AM") = true /\ is_valid_time (py "5:30 AM") = true.
Proof. split; [vm_compute; reflexivity|apply spec_time_accepted; vm_compute; reflexivity]. Defined.

Lemma valid_time_length_witness :
  is_valid_time (py "12:00 PM") = true /\ (3 <= length (py "12:00 PM") <= 9)%nat.
Proof. split; [vm_compute; reflexivity|apply valid_time_length; vm_compute; reflexivity]. Defined.

Lemma stored_time_valid_witness :
  is_valid_time (py "9 PM") = true /\
  is_valid_time (py_replace_char SPACE [] (py "9 PM")) = true.
Proof. split; [vm_compute; reflexivity|apply stored_time_valid; vm_compute; reflexivity]. Defined.

End TimeFormat.
