(* ===== verification/Csv.v ===== *)
(** * Csv: the flat-file store [cafe-data.csv]

    [src/main.py] reads the store with [csv.reader] over a file opened in
    text mode (line 74-78) and appends a row with [csv.writer(...).writerow]
    over a file opened with an empty [newline] argument (lines 86, 97-98).  Both use the
    default [excel] dialect: delimiter [,], the double-quote character as
    quote character, doubled quotes, minimal quoting, line terminator [\r\n], no escape character,
    non-strict parsing, and the module's field size limit of 131072
    characters.  This file models the writer, the universal-newline
    translation of a text-mode read, the splitting into lines, and the
    reader's state machine (CPython's [Modules/_csv.c], states restricted to
    those the excel dialect reaches).  The theorems show that what the
    writer appends is read back as the same row, that reading a file the
    program wrote succeeds exactly when its fields fit the field limit and
    raises the field-limit error otherwise, and what happens outside those
    conditions. *)

From stdpp Require Import base list sets strings.
From Stdlib Require Import NArith ZArith Lia.
From S2P Require Import Prelude.

Module Csv.

(** ** The writer *)

Definition special (c : N) : bool :=
  (c =? COMMA)%N || (c =? DQUOTE)%N || (c =? LF)%N || (c =? CR)%N.

(** Minimal quoting: a field is quoted when it holds the delimiter, the
    quote character or a line-terminator character. *)
Definition needs_quote (f : pystr) : bool := existsb special f.

Definition escape_quotes (f : pystr) : pystr :=
  flat_map (fun c => if (c =? DQUOTE)%N then [DQUOTE; DQUOTE] else [c]) f.

Definition write_field (f : pystr) : pystr :=
  if needs_quote f then DQUOTE :: escape_quotes f ++ [DQUOTE] else f.

Fixpoint join_fields (fs : list pystr) : pystr :=
  match fs with
  | [] => []
  | [f] => write_field f
  | f :: fs' => write_field f ++ COMMA :: join_fields fs'
  end.

Definition CRLF : pystr := [CR; LF].

(** [writer.writerow(row)]: [None] is written as the empty string, and a
    record made of one empty field is written as two double quotes, so that it is not an
    empty line. *)
Definition writerow (row : list (option pystr)) : pystr :=
  match map (default []) row with
  | [[]] => [DQUOTE; DQUOTE] ++ CRLF
  | fs => join_fields fs ++ CRLF
  end.

(** ** Reading a text file

    A file opened in text mode with [newline=None] turns [\r\n] and a lone
    [\r] into [\n]; iterating over it yields lines that end with [\n],
    except possibly the last one. *)
Fixpoint translate_newlines (s : pystr) : pystr :=
  match s with
  | [] => []
  | c :: s' =>
      if (c =? CR)%N then
        LF :: match s' with
              | d :: s'' => if (d =? LF)%N then translate_newlines s'' else translate_newlines s'
              | [] => []
              end
      else c :: translate_newlines s'
  end.

Fixpoint split_lines (s : pystr) : list pystr :=
  match s with
  | [] => []
  | c :: s' =>
      if (c =? LF)%N then [c] :: split_lines s'
      else match split_lines s' with
           | [] => [[c]]
           | l :: ls => (c :: l) :: ls
           end
  end.

(** ** The reader's state machine *)

Inductive pstate :=
| START_RECORD
| START_FIELD
| IN_FIELD
| IN_QUOTED_FIELD
| QUOTE_IN_QUOTED_FIELD
| EAT_CRNL.

#[export] Instance pstate_eq_dec : EqDecision pstate.
Proof. solve_decision. Defined.

(** The parser: its state, the field being read and the fields of the
    record read so far. *)
Record parser := mkp { state : pstate; field : pystr; fields : list pystr }.

(** A character of a line, or the end of a line. *)
Inductive event := Char (c : N) | EOL.

Definition field_limit : N := 131072.

Definition field_limit_msg : pystr := py "field larger than field limit (131072)".
Definition crnl_msg : pystr :=
  py "new-line character seen in unquoted field - do you need to open the file with newline=''?".

Definition parse_reset : parser := mkp START_RECORD [] [].

Definition parse_save_field (p : parser) : parser := mkp (state p) [] (fields p ++ [field p]).

Definition parse_add_char (p : parser) (c : N) : result parser :=
  if (field_limit <=? N.of_nat (length (field p)))%N then Err (CsvError field_limit_msg)
  else Ok (mkp (state p) (field p ++ [c]) (fields p)).

Definition set_state (p : parser) (st : pstate) : parser := mkp st (field p) (fields p).

Definition is_nl (c : N) : bool := (c =? LF)%N || (c =? CR)%N.

(** The [START_FIELD] case, which [START_RECORD] falls through to. *)
Definition start_field (p : parser) (ev : event) : result parser :=
  match ev with
  | EOL => Ok (set_state (parse_save_field p) START_RECORD)
  | Char c =>
      if is_nl c then Ok (set_state (parse_save_field p) EAT_CRNL)
      else if (c =? DQUOTE)%N then Ok (set_state p IN_QUOTED_FIELD)
      else if (c =? COMMA)%N then Ok (parse_save_field p)
      else p' ← parse_add_char p c; Ok (set_state p' IN_FIELD)
  end.

(** [parse_process_char]. *)
Definition process_event (p : parser) (ev : event) : result parser :=
  match state p with
  | START_RECORD =>
      match ev with
      | EOL => Ok p
      | Char c =>
          if is_nl c then Ok (set_state p EAT_CRNL)
          else start_field (set_state p START_FIELD) ev
      end
  | START_FIELD => start_field p ev
  | IN_FIELD =>
      match ev with
      | EOL => Ok (set_state (parse_save_field p) START_RECORD)
      | Char c =>
          if is_nl c then Ok (set_state (parse_save_field p) EAT_CRNL)
          else if (c =? COMMA)%N then Ok (set_state (parse_save_field p) START_FIELD)
          else parse_add_char p c
      end
  | IN_QUOTED_FIELD =>
      match ev with
      | EOL => Ok p
      | Char c =>
          if (c =? DQUOTE)%N then Ok (set_state p QUOTE_IN_QUOTED_FIELD)
          else parse_add_char p c
      end
  | QUOTE_IN_QUOTED_FIELD =>
      match ev with
      | EOL => Ok (set_state (parse_save_field p) START_RECORD)
      | Char c =>
          if (c =? DQUOTE)%N then
            p' ← parse_add_char p c; Ok (set_state p' IN_QUOTED_FIELD)
          else if (c =? COMMA)%N then Ok (set_state (parse_save_field p) START_FIELD)
          else if is_nl c then Ok (set_state (parse_save_field p) EAT_CRNL)
          else p' ← parse_add_char p c; Ok (set_state p' IN_FIELD)
      end
  | EAT_CRNL =>
      match ev with
      | EOL => Ok (set_state p START_RECORD)
      | Char c => if is_nl c then Ok p else Err (CsvError crnl_msg)
      end
  end.

Fixpoint feed_chars (p : parser) (l : pystr) : result parser :=
  match l with
  | [] => Ok p
  | c :: l' => p' ← process_event p (Char c); feed_chars p' l'
  end.

(** One line: its characters, then the end of line. *)
Definition feed_line (p : parser) (l : pystr) : result parser :=
  p' ← feed_chars p l; process_event p' EOL.

(** [list(csv.reader(lines))]: [Reader_iternext] reads lines until the
    parser is back in [START_RECORD] after an end of line, and at the end of
    the input returns the pending record if a field is being read or a
    quoted field is open. *)
Definition eof_rows (p : parser) : result (list (list pystr)) :=
  if bool_decide (field p <> []) || bool_decide (state p = IN_QUOTED_FIELD)
  then Ok [fields p ++ [field p]] else Ok [].

Fixpoint read_rows (p : parser) (lines : list pystr) : result (list (list pystr)) :=
  match lines with
  | [] => eof_rows p
  | l :: ls =>
      p' ← feed_line p l;
      if bool_decide (state p' = START_RECORD) then
        rest ← read_rows parse_reset ls; Ok (fields p' :: rest)
      else read_rows p' ls
  end.

(** Reading the whole store as [cafes] does. *)
Definition read_csv (content : pystr) : result (list (list pystr)) :=
  read_rows parse_reset (split_lines (translate_newlines content)).

(** ** The reader as a stream of events

    Reading line by line is the same as feeding one stream of events: each
    character, and an end of line after each [\n] and after a last line
    without one; a record is returned when an end of line leaves the parser
    in [START_RECORD]. *)

Definition ev_char (c : N) : list event := if (c =? LF)%N then [Char c; EOL] else [Char c].

Definition final_eol (s : pystr) : list event :=
  match last s with
  | Some c => if (c =? LF)%N then [] else [EOL]
  | None => []
  end.

Definition is_eol (ev : event) : bool := match ev with EOL => true | Char _ => false end.

Fixpoint run_events (p : parser) (evs : list event) : result (list (list pystr)) :=
  match evs with
  | [] => eof_rows p
  | ev :: evs' =>
      p' ← process_event p ev;
      if is_eol ev && bool_decide (state p' = START_RECORD) then
        rest ← run_events parse_reset evs'; Ok (fields p' :: rest)
      else run_events p' evs'
  end.

(** ** Notions of the proofs *)

(** A field the writer and the reader both handle: no carriage return and
    no more characters than the field limit. *)
Definition field_ok (f : pystr) : Prop :=
  (CR ∉ f) /\ (N.of_nat (length f) <= field_limit)%N.

#[export] Instance field_ok_dec f : Decision (field_ok f).
Proof. unfold field_ok. apply _. Defined.

(** The states in which a field has been read up to its end. *)
Definition field_done (st : pstate) : Prop :=
  st = START_FIELD \/ st = IN_FIELD \/ st = QUOTE_IN_QUOTED_FIELD.

(** The state after a written field has been read. *)
Definition end_state (f : pystr) : pstate :=
  if needs_quote f then QUOTE_IN_QUOTED_FIELD
  else match f with [] => START_FIELD | _ => IN_FIELD end.

(** The text of a record before its line terminator. *)
Definition record_body (fs : list pystr) : pystr :=
  match fs with [[]] => [DQUOTE; DQUOTE] | _ => join_fields fs end.

(** What the reader gives back for a field the writer wrote: [None] is the
    empty string, and the newline translation of the text-mode read turns
    each [\r\n] and each lone [\r] into [\n]. *)
Definition field_read_back (o : option pystr) : pystr := translate_newlines (default [] o).

(** A field whose read-back text is within the reader's field limit. *)
Definition within_limit (o : option pystr) : Prop :=
  (N.of_nat (length (field_read_back o)) <= field_limit)%N.

#[export] Instance within_limit_dec o : Decision (within_limit o).
Proof. unfold within_limit. apply _. Defined.

(** A field that fits the field limit. *)
Definition fits (f : pystr) : Prop := (N.of_nat (length f) <= field_limit)%N.

#[export] Instance fits_dec f : Decision (fits f).
Proof. unfold fits. apply _. Defined.

(** ** Lemmas on the event view *)

Lemma bind_assoc {A B C} (m : result A) (f : A -> result B) (g : B -> result C) :
  ((m ≫= f) ≫= g) = (m ≫= fun x => f x ≫= g).
Proof. by destruct m. Qed.

Lemma run_events_chars l p evs :
  run_events p (map Char l ++ evs) = (p' ← feed_chars p l; run_events p' evs).
Proof.
  revert p. induction l as [|c l IH]; intros p; [done|]. cbn.
  destruct (process_event p (Char c)); cbn; [apply IH|done].
Qed.

Lemma read_rows_events lines p :
  read_rows p lines = run_events p (flat_map (fun l => map Char l ++ [EOL]) lines).
Proof.
  revert p. induction lines as [|l ls IH]; intros p; [done|].
  cbn [read_rows flat_map]. rewrite <- app_assoc, run_events_chars. unfold feed_line.
  rewrite bind_assoc. destruct (feed_chars p l) as [p1|e]; [|done]. cbn.
  destruct (process_event p1 EOL) as [p2|e]; [|done]. cbn.
  case_bool_decide; cbn; by rewrite ?IH.
Qed.

Lemma split_lines_nil s : split_lines s = [] -> s = [].
Proof.
  destruct s as [|c s]; cbn; [done|].
  destruct (c =? LF)%N; [discriminate|]. by destruct (split_lines s).
Qed.

Lemma final_eol_cons c s :
  final_eol (c :: s) = match s with [] => if (c =? LF)%N then [] else [EOL] | _ => final_eol s end.
Proof. by destruct s. Qed.

Lemma split_lines_events s :
  flat_map (fun l => map Char l ++ [EOL]) (split_lines s) = flat_map ev_char s ++ final_eol s.
Proof.
  induction s as [|c s IH]; [done|]. rewrite final_eol_cons. cbn [split_lines flat_map].
  unfold ev_char at 1. destruct (c =? LF)%N eqn:Hc.
  - cbn. rewrite IH. by destruct s.
  - destruct (split_lines s) as [|l ls] eqn:Hs.
    + apply split_lines_nil in Hs as ->. done.
    + cbn. f_equal. destruct s as [|d s']; [discriminate|].
      change (flat_map ev_char (d :: s') ++ final_eol (d :: s')) with
        (flat_map ev_char (d :: s') ++ final_eol (d :: s')).
      rewrite <- IH. cbn. by rewrite <- app_assoc.
Qed.

(** [read_csv] as one stream of events over the translated text. *)
Lemma read_csv_events content :
  read_csv content =
  run_events parse_reset
    (flat_map ev_char (translate_newlines content) ++ final_eol (translate_newlines content)).
Proof. unfold read_csv. by rewrite read_rows_events, split_lines_events. Qed.

(** ** Steps of the state machine on the text the writer produces *)


Lemma add_char_ok p c :
  (N.of_nat (length (field p)) < field_limit)%N ->
  parse_add_char p c = Ok (mkp (state p) (field p ++ [c]) (fields p)).
Proof. intros H. unfold parse_add_char. by rewrite (proj2 (N.leb_gt _ _) H). Qed.

Lemma length_snoc_lt (buf g : pystr) c :
  (N.of_nat (length (buf ++ c :: g)) <= field_limit)%N ->
  (N.of_nat (length buf) < field_limit)%N.
Proof. rewrite length_app. cbn. lia. Qed.

Lemma ev_char_not_lf c : c <> LF -> ev_char c = [Char c].
Proof. intros H. unfold ev_char. by rewrite (proj2 (N.eqb_neq _ _) H). Qed.

Lemma ev_char_lf : ev_char LF = [Char LF; EOL].
Proof. reflexivity. Qed.

Lemma dquote_not_lf : DQUOTE <> LF.
Proof. unfold DQUOTE, LF. lia. Qed.

Lemma comma_not_lf : COMMA <> LF.
Proof. unfold COMMA, LF. lia. Qed.

Lemma run_events_char p c evs :
  run_events p (Char c :: evs) = (p' ← process_event p (Char c); run_events p' evs).
Proof. reflexivity. Qed.

Lemma step_quoted_dq buf acc :
  process_event (mkp IN_QUOTED_FIELD buf acc) (Char DQUOTE) = Ok (mkp QUOTE_IN_QUOTED_FIELD buf acc).
Proof. reflexivity. Qed.

Lemma step_quoted_char buf acc c :
  c <> DQUOTE -> (N.of_nat (length buf) < field_limit)%N ->
  process_event (mkp IN_QUOTED_FIELD buf acc) (Char c) = Ok (mkp IN_QUOTED_FIELD (buf ++ [c]) acc).
Proof.
  intros Hc Hl. cbn. rewrite (proj2 (N.eqb_neq _ _) Hc). by apply (add_char_ok (mkp _ _ _)).
Qed.

Lemma step_qq_dq buf acc :
  (N.of_nat (length buf) < field_limit)%N ->
  process_event (mkp QUOTE_IN_QUOTED_FIELD buf acc) (Char DQUOTE)
  = Ok (mkp IN_QUOTED_FIELD (buf ++ [DQUOTE]) acc).
Proof. intros Hl. cbn. by rewrite (add_char_ok (mkp _ _ _)). Qed.

Lemma step_start_dq buf acc :
  process_event (mkp START_FIELD buf acc) (Char DQUOTE) = Ok (mkp IN_QUOTED_FIELD buf acc).
Proof. reflexivity. Qed.

Lemma step_start_plain acc c :
  special c = false ->
  process_event (mkp START_FIELD [] acc) (Char c) = Ok (mkp IN_FIELD [c] acc).
Proof.
  unfold special. intros Hc. bool_to_prop. apply orb_false_iff in Hc as [Hc Hcr].
  apply orb_false_iff in Hc as [Hc Hlf]. apply orb_false_iff in Hc as [Hcm Hdq].
  cbn. unfold is_nl. by rewrite Hlf, Hcr, Hdq, Hcm.
Qed.

Lemma step_in_field_plain buf acc c :
  special c = false -> (N.of_nat (length buf) < field_limit)%N ->
  process_event (mkp IN_FIELD buf acc) (Char c) = Ok (mkp IN_FIELD (buf ++ [c]) acc).
Proof.
  unfold special. intros Hc Hl. apply orb_false_iff in Hc as [Hc Hcr].
  apply orb_false_iff in Hc as [Hc Hlf]. apply orb_false_iff in Hc as [Hcm Hdq].
  cbn. unfold is_nl. rewrite Hlf, Hcr, Hcm. by apply (add_char_ok (mkp _ _ _)).
Qed.


Lemma step_done_comma st buf acc :
  field_done st ->
  process_event (mkp st buf acc) (Char COMMA) = Ok (mkp START_FIELD [] (acc ++ [buf])).
Proof. intros [-> | [-> | ->]]; reflexivity. Qed.

Lemma step_done_lf st buf acc :
  field_done st ->
  process_event (mkp st buf acc) (Char LF) = Ok (mkp EAT_CRNL [] (acc ++ [buf])).
Proof. intros [-> | [-> | ->]]; reflexivity. Qed.

(** ** The reader on written fields and records *)

Lemma run_quoted g buf acc evs :
  CR ∉ g -> (N.of_nat (length (buf ++ g)) <= field_limit)%N ->
  run_events (mkp IN_QUOTED_FIELD buf acc) (flat_map ev_char (escape_quotes g) ++ evs)
  = run_events (mkp IN_QUOTED_FIELD (buf ++ g) acc) evs.
Proof.
  revert buf. induction g as [|c g IH]; intros buf Hcr Hlen; [by rewrite app_nil_r|].
  pose proof (length_snoc_lt buf g c Hlen) as Hl.
  assert (Hlen' : (N.of_nat (length ((buf ++ [c]) ++ g)) <= field_limit)%N)
    by (by rewrite <- app_assoc).
  unfold escape_quotes. cbn [flat_map]. fold (escape_quotes g).
  destruct (N.eqb_spec c DQUOTE) as [->|Hq].
  - cbn [flat_map app]. rewrite ev_char_not_lf by apply dquote_not_lf. cbn [app].
    rewrite run_events_char, step_quoted_dq. cbn [mbind result_bind].
    rewrite run_events_char, step_qq_dq by done. cbn [mbind result_bind].
    rewrite IH by set_solver. by rewrite <- app_assoc.
  - cbn [flat_map app]. destruct (N.eqb_spec c LF) as [->|Hlf].
    + rewrite ev_char_lf. cbn [app].
      rewrite run_events_char, step_quoted_char by done. cbn.
      rewrite IH by set_solver. by rewrite <- app_assoc.
    + rewrite ev_char_not_lf by done. cbn [app].
      rewrite run_events_char, step_quoted_char by done. cbn [mbind result_bind].
      rewrite IH by set_solver. by rewrite <- app_assoc.
Qed.

Lemma run_plain g buf acc evs :
  forallb (fun c => negb (special c)) g = true ->
  (N.of_nat (length (buf ++ g)) <= field_limit)%N ->
  run_events (mkp IN_FIELD buf acc) (flat_map ev_char g ++ evs)
  = run_events (mkp IN_FIELD (buf ++ g) acc) evs.
Proof.
  revert buf. induction g as [|c g IH]; intros buf Hs Hlen; [by rewrite app_nil_r|].
  cbn in Hs. apply andb_prop in Hs as [Hc Hs]. apply negb_true_iff in Hc.
  pose proof (length_snoc_lt buf g c Hlen) as Hl.
  assert (Hlf : (c =? LF)%N = false)
    by (unfold special in Hc; apply orb_false_iff in Hc as [Hc _];
        by apply orb_false_iff in Hc as [_ ?]).
  cbn [flat_map]. unfold ev_char at 1. rewrite Hlf. cbn [app].
  rewrite run_events_char, step_in_field_plain by done. cbn [mbind result_bind].
  rewrite IH by (rewrite ?app_assoc; done || (by rewrite <- app_assoc)).
  by rewrite <- app_assoc.
Qed.


Lemma end_state_done f : field_done (end_state f).
Proof. unfold end_state, field_done. destruct (needs_quote f), f; auto. Qed.

Lemma needs_quote_false f :
  needs_quote f = false -> forallb (fun c => negb (special c)) f = true.
Proof.
  unfold needs_quote. intros H. apply forallb_forall. intros c Hc.
  apply negb_true_iff. destruct (special c) eqn:E; [|done].
  exfalso. assert (existsb special f = true) by (apply existsb_exists; eauto). congruence.
Qed.

Lemma run_field f acc evs :
  field_ok f ->
  run_events (mkp START_FIELD [] acc) (flat_map ev_char (write_field f) ++ evs)
  = run_events (mkp (end_state f) f acc) evs.
Proof.
  intros [Hcr Hlen]. unfold write_field, end_state. destruct (needs_quote f) eqn:Hq.
  - cbn [flat_map]. rewrite ev_char_not_lf by apply dquote_not_lf. cbn [app].
    rewrite run_events_char, step_start_dq. cbn [mbind result_bind].
    rewrite flat_map_app, <- app_assoc, run_quoted by done. cbn [app flat_map].
    rewrite ev_char_not_lf by apply dquote_not_lf. cbn [app].
    rewrite run_events_char, step_quoted_dq. reflexivity.
  - apply needs_quote_false in Hq. destruct f as [|c f]; [done|].
    cbn in Hq. apply andb_prop in Hq as [Hc Hq]. apply negb_true_iff in Hc.
    cbn [flat_map]. rewrite <- app_assoc.
    assert (c <> LF) as Hlf
      by (intros ->; unfold special in Hc; rewrite !orb_false_iff in Hc; naive_solver).
    rewrite ev_char_not_lf by done. cbn [app].
    rewrite run_events_char, step_start_plain by done. cbn [mbind result_bind].
    by rewrite run_plain.
Qed.

Lemma run_end_lf st f acc evs :
  field_done st ->
  run_events (mkp st f acc) (Char LF :: EOL :: evs)
  = (rest ← run_events parse_reset evs; Ok ((acc ++ [f]) :: rest)).
Proof. intros Hst. rewrite run_events_char, step_done_lf by done. reflexivity. Qed.

Lemma run_join fs acc evs :
  fs <> [] -> Forall field_ok fs ->
  run_events (mkp START_FIELD [] acc) (flat_map ev_char (join_fields fs ++ [LF]) ++ evs)
  = (rest ← run_events parse_reset evs; Ok ((acc ++ fs) :: rest)).
Proof.
  revert acc. induction fs as [|f fs IH]; intros acc Hne Hok; [done|].
  apply Forall_cons in Hok as [Hf Hok].
  destruct fs as [|f' fs'].
  - cbn [join_fields]. rewrite flat_map_app, <- app_assoc, run_field by done.
    cbn [flat_map app]. rewrite ev_char_lf. apply run_end_lf, end_state_done.
  - change (join_fields (f :: f' :: fs')) with (write_field f ++ COMMA :: join_fields (f' :: fs')).
    rewrite <- app_assoc, flat_map_app, <- app_assoc, run_field by done.
    cbn [app flat_map]. rewrite ev_char_not_lf by apply comma_not_lf. cbn [app].
    rewrite run_events_char, step_done_comma by apply end_state_done.
    cbn [mbind result_bind]. rewrite IH by done. by rewrite <- app_assoc.
Qed.


Lemma writerow_body row : writerow row = record_body (map (default []) row) ++ CRLF.
Proof.
  unfold writerow, record_body. destruct (map (default []) row) as [|[|c f] fs]; [done| |done].
  by destruct fs.
Qed.

Lemma join_fields_cons f fs :
  join_fields (f :: fs) = write_field f ++ match fs with [] => [] | _ => COMMA :: join_fields fs end.
Proof. destruct fs; cbn; by rewrite ?app_nil_r. Qed.

Lemma join_fields_head fs :
  fs <> [] -> fs <> [[]] -> exists c rest, join_fields fs = c :: rest /\ is_nl c = false.
Proof.
  intros Hne Hne1. destruct fs as [|f fs]; [done|]. rewrite join_fields_cons.
  unfold write_field. destruct (needs_quote f) eqn:Hq; [by eexists _, _|].
  destruct f as [|c f].
  - destruct fs; [done|]. by eexists _, _.
  - apply needs_quote_false in Hq. cbn in Hq. apply andb_prop in Hq as [Hc _].
    apply negb_true_iff in Hc. eexists c, _. split; [reflexivity|].
    unfold special, is_nl in *. rewrite !orb_false_iff in *. naive_solver.
Qed.

Lemma reset_start c :
  is_nl c = false ->
  process_event parse_reset (Char c) = process_event (mkp START_FIELD [] []) (Char c).
Proof. intros Hc. cbn. by rewrite Hc. Qed.

(** The first character of a record that does not start with a line break
    leaves [START_RECORD] the way [START_FIELD] would. *)
Lemma run_reset_line fs evs :
  fs <> [] -> fs <> [[]] ->
  run_events parse_reset (flat_map ev_char (join_fields fs) ++ evs)
  = run_events (mkp START_FIELD [] []) (flat_map ev_char (join_fields fs) ++ evs).
Proof.
  intros Hne Hne1. destruct (join_fields_head fs Hne Hne1) as (c & rest & -> & Hc).
  assert (c <> LF) by (intros ->; discriminate).
  cbn [flat_map]. rewrite ev_char_not_lf by done. cbn [app].
  rewrite !run_events_char. by rewrite reset_start.
Qed.

Lemma run_record fs evs :
  Forall field_ok fs ->
  run_events parse_reset (flat_map ev_char (record_body fs ++ [LF]) ++ evs)
  = (rest ← run_events parse_reset evs; Ok (fs :: rest)).
Proof.
  intros Hok. destruct (decide (fs = [])) as [->|Hne]; [reflexivity|].
  destruct (decide (fs = [[]])) as [->|Hne1]; [reflexivity|].
  assert (record_body fs = join_fields fs) as -> by (destruct fs as [|[|? ?] [|? ?]]; done).
  rewrite flat_map_app, <- app_assoc, run_reset_line by done.
  rewrite app_assoc, <- flat_map_app. by rewrite run_join.
Qed.

(** ** A line the writer did not end *)

Lemma plain_no_cr f : needs_quote f = false -> CR ∉ f.
Proof.
  intros Hq Hcr%list_elem_of_In. apply needs_quote_false in Hq.
  rewrite forallb_forall in Hq. specialize (Hq _ Hcr). by vm_compute in Hq.
Qed.

Lemma plain_field_ok f : needs_quote f = false -> fits f -> field_ok f.
Proof. intros Hq Hf. split; [by apply plain_no_cr|exact Hf]. Qed.

Lemma write_field_plain f : needs_quote f = false -> write_field f = f.
Proof. unfold write_field. by intros ->. Qed.

(** A line of plain fields that does not end with a comma leaves the reader
    inside its last field. *)
Lemma run_open_line init lf acc evs :
  Forall (fun f => needs_quote f = false /\ fits f) (init ++ [lf]) -> lf <> [] ->
  run_events (mkp START_FIELD [] acc) (flat_map ev_char (join_fields (init ++ [lf])) ++ evs)
  = run_events (mkp IN_FIELD lf (acc ++ init)) evs.
Proof.
  revert acc. induction init as [|f init IH]; intros acc Hok Hlf; cbn [app] in *.
  - apply Forall_cons in Hok as [[Hq Hfit] _]. cbn [join_fields].
    rewrite run_field by (by apply plain_field_ok). rewrite app_nil_r.
    unfold end_state. rewrite Hq. by destruct lf.
  - apply Forall_cons in Hok as [[Hq Hfit] Hok].
    replace (join_fields (f :: init ++ [lf])) with (write_field f ++ COMMA :: join_fields (init ++ [lf]))
      by (destruct init; reflexivity).
    rewrite flat_map_app, <- app_assoc, run_field by (by apply plain_field_ok).
    cbn [app flat_map]. rewrite ev_char_not_lf by apply comma_not_lf. cbn [app].
    rewrite run_events_char, step_done_comma by apply end_state_done.
    cbn [mbind result_bind]. rewrite IH by done. by rewrite <- app_assoc.
Qed.

(** Plain text read inside a field extends it, and the rest of the record
    is read as written. *)
Lemma run_continue buf acc f fs evs :
  needs_quote f = false -> fits (buf ++ f) -> Forall field_ok fs ->
  run_events (mkp IN_FIELD buf acc) (flat_map ev_char (join_fields (f :: fs) ++ [LF]) ++ evs)
  = (rest ← run_events parse_reset evs; Ok ((acc ++ (buf ++ f) :: fs) :: rest)).
Proof.
  intros Hq Hfit Hok. rewrite join_fields_cons, write_field_plain by done.
  rewrite <- app_assoc, flat_map_app, <- app_assoc.
  rewrite run_plain; [|by apply needs_quote_false|exact Hfit].
  destruct fs as [|f' fs'].
  - cbn [app flat_map]. rewrite ev_char_lf. apply run_end_lf. unfold field_done. auto.
  - cbn [app flat_map]. rewrite ev_char_not_lf by apply comma_not_lf. cbn [app].
    rewrite run_events_char, step_done_comma by (unfold field_done; auto).
    cbn [mbind result_bind]. rewrite run_join by done. by rewrite <- app_assoc.
Qed.

(** ** Newline translation of the written text *)

Lemma translate_no_cr s : CR ∉ s -> translate_newlines s = s.
Proof.
  induction s as [|c s IH]; intros Hs; [done|]. cbn.
  rewrite (proj2 (N.eqb_neq c CR)) by set_solver. f_equal. apply IH. set_solver.
Qed.

Lemma translate_crlf a b :
  CR ∉ a -> translate_newlines (a ++ CR :: LF :: b) = a ++ LF :: translate_newlines b.
Proof.
  induction a as [|c a IH]; intros Ha; [reflexivity|]. cbn.
  rewrite (proj2 (N.eqb_neq c CR)) by set_solver. f_equal. apply IH. set_solver.
Qed.

Lemma elem_of_escape_quotes f c : c ∈ escape_quotes f -> c ∈ f \/ c = DQUOTE.
Proof.
  unfold escape_quotes. rewrite list_elem_of_In, in_flat_map.
  intros (x & Hx & Hc). destruct (x =? DQUOTE)%N eqn:E.
  - right. apply N.eqb_eq in E. cbn in Hc. intuition.
  - left. cbn in Hc. destruct Hc as [<-|[]]. by apply list_elem_of_In.
Qed.

Lemma elem_of_write_field f c : c ∈ write_field f -> c ∈ f \/ c = DQUOTE.
Proof.
  unfold write_field. destruct (needs_quote f); [|auto].
  rewrite elem_of_cons, elem_of_app, list_elem_of_singleton.
  intros [->|[?%elem_of_escape_quotes| ->]]; tauto.
Qed.

(** The writer adds only quotes, commas and the line terminator to the
    characters of the fields. *)
Lemma record_body_forall (P : N -> Prop) fs :
  P DQUOTE -> P COMMA -> Forall (Forall P) fs -> Forall P (record_body fs).
Proof.
  intros Hq Hc Hfs. assert (Forall P (join_fields fs)).
  { induction fs as [|f fs IH]; [constructor|]. apply Forall_cons in Hfs as [Hf Hfs].
    rewrite join_fields_cons. apply Forall_app. split.
    - apply Forall_forall. intros x [Hx| ->]%elem_of_write_field; [|done].
      by eapply Forall_forall in Hf.
    - destruct fs; [constructor|]. constructor; [done|by apply IH]. }
  destruct fs as [|[|? ?] [|? ?]]; try done. by repeat constructor.
Qed.

Lemma writerow_forall (P : N -> Prop) row :
  P DQUOTE -> P COMMA -> P CR -> P LF -> Forall (fun o => Forall P (default [] o)) row ->
  Forall P (writerow row).
Proof.
  intros Hq Hc Hcr Hlf Hrow. rewrite writerow_body. apply Forall_app. split.
  - apply record_body_forall; [done|done|]. by apply Forall_map.
  - by repeat constructor.
Qed.

Lemma record_body_no_cr fs : Forall (fun f => CR ∉ f) fs -> CR ∉ record_body fs.
Proof.
  intros Hfs Hcr. assert (H : Forall (fun c => c <> CR) (record_body fs)).
  { apply record_body_forall; [unfold DQUOTE, CR; lia|unfold COMMA, CR; lia|].
    eapply Forall_impl; [exact Hfs|]. intros f Hf. apply Forall_forall. by intros x Hx ->. }
  by eapply Forall_forall in H; [|exact Hcr].
Qed.

Lemma translate_app_no_cr a b :
  CR ∉ a -> translate_newlines (a ++ b) = a ++ translate_newlines b.
Proof.
  induction a as [|c a IH]; intros Ha; [reflexivity|]. cbn.
  rewrite (proj2 (N.eqb_neq c CR)) by set_solver. f_equal. apply IH. set_solver.
Qed.

Lemma translate_records_app bs y :
  Forall (fun b => CR ∉ b) bs ->
  translate_newlines (concat (map (fun b => b ++ CRLF) bs) ++ y)
  = concat (map (fun b => b ++ [LF]) bs) ++ translate_newlines y.
Proof.
  induction bs as [|b bs IH]; intros Hbs; [done|]. apply Forall_cons in Hbs as [Hb Hbs].
  cbn [map concat]. rewrite <- !app_assoc. cbn. rewrite translate_crlf by done.
  rewrite IH by done. by rewrite <- ?app_assoc.
Qed.

Lemma translate_records bs :
  Forall (fun b => CR ∉ b) bs ->
  translate_newlines (concat (map (fun b => b ++ CRLF) bs)) = concat (map (fun b => b ++ [LF]) bs).
Proof.
  intros Hbs. rewrite <- (app_nil_r (concat (map _ bs))), translate_records_app by done.
  by rewrite !app_nil_r.
Qed.

Lemma final_eol_records bs : final_eol (concat (map (fun b => b ++ [LF]) bs)) = [].
Proof.
  destruct bs as [|b bs _] using rev_ind; [done|].
  rewrite map_app, concat_app. cbn. rewrite app_nil_r, app_assoc.
  unfold final_eol. by rewrite last_snoc.
Qed.

Lemma run_records rows evs :
  Forall (Forall field_ok) rows ->
  run_events parse_reset (flat_map ev_char (concat (map (fun fs => record_body fs ++ [LF]) rows)) ++ evs)
  = (rest ← run_events parse_reset evs; Ok (rows ++ rest)).
Proof.
  induction rows as [|fs rows IH]; intros Hok; cbn [map concat].
  - cbn. by destruct (run_events parse_reset evs).
  - apply Forall_cons in Hok as [Hfs Hok].
    rewrite flat_map_app, <- app_assoc, run_record, IH by done.
    by destruct (run_events parse_reset evs).
Qed.

(** ** Newline translation of fields with carriage returns *)

(** The induction principle of [translate_newlines]: its three cases. *)
Lemma translate_ind (P : pystr -> Prop) :
  P [] ->
  (forall s, P s -> P (CR :: LF :: s)) ->
  (forall s, head s <> Some LF -> P s -> P (CR :: s)) ->
  (forall c s, c <> CR -> P s -> P (c :: s)) ->
  forall s, P s.
Proof.
  intros H0 H1 H2 H3 s. induction s as [s IH] using (induction_ltof1 _ (@length N)).
  unfold ltof in IH. destruct s as [|c s]; [done|].
  destruct (N.eqb_spec c CR) as [->|Hc]; [|apply H3; [done|apply IH; cbn; lia]].
  destruct s as [|d s]; [apply H2; [done|apply H0]|].
  destruct (N.eqb_spec d LF) as [->|Hd]; [apply H1, IH; cbn; lia|].
  apply H2; [cbn; congruence|apply IH; cbn; lia].
Qed.

Lemma translate_cr_lf s : translate_newlines (CR :: LF :: s) = LF :: translate_newlines s.
Proof. reflexivity. Qed.

Lemma translate_cr s :
  head s <> Some LF -> translate_newlines (CR :: s) = LF :: translate_newlines s.
Proof.
  intros Hs. destruct s as [|d s]; [done|].
  change (translate_newlines (CR :: d :: s))
    with (LF :: (if (d =? LF)%N then translate_newlines s else translate_newlines (d :: s))).
  rewrite (proj2 (N.eqb_neq d LF)); [done|]. cbn in Hs. congruence.
Qed.

Lemma translate_other c s : c <> CR -> translate_newlines (c :: s) = c :: translate_newlines s.
Proof. intros Hc. cbn. by rewrite (proj2 (N.eqb_neq c CR)). Qed.

Lemma last_cons_cons {A} (x y : A) l : last (x :: y :: l) = last (y :: l).
Proof. reflexivity. Qed.

(** The translation of a concatenation is the concatenation of the
    translations, unless a [\r] at the end of the first part and a [\n]
    at the start of the second form one line break. *)
Lemma translate_app a b :
  (last a = Some CR -> head b <> Some LF) ->
  translate_newlines (a ++ b) = translate_newlines a ++ translate_newlines b.
Proof.
  induction a as [|s IH|s Hs IH|c s Hc IH] using translate_ind; intros Hab; [done| | |].
  - cbn [app]. rewrite !translate_cr_lf, IH; [done|].
    intros Hl. apply Hab. destruct s; [done|exact Hl].
  - destruct s as [|d s].
    + cbn [app]. rewrite translate_cr by (apply Hab; reflexivity). reflexivity.
    + cbn [app]. rewrite !translate_cr by (cbn in *; done). cbn [app]. f_equal.
      apply IH. intros Hl. apply Hab. exact Hl.
  - cbn [app]. rewrite !translate_other by done. cbn [app]. f_equal.
    apply IH. intros Hl. apply Hab. destruct s; [done|exact Hl].
Qed.

Lemma escape_quotes_cons c s :
  escape_quotes (c :: s) = (if (c =? DQUOTE)%N then [DQUOTE; DQUOTE] else [c]) ++ escape_quotes s.
Proof. reflexivity. Qed.

Lemma head_escape_quotes s : head s <> Some LF -> head (escape_quotes s) <> Some LF.
Proof.
  destruct s as [|c s]; [done|]. rewrite escape_quotes_cons. cbn.
  destruct (N.eqb_spec c DQUOTE) as [->|]; cbn; [|done]. intros _ [=]; discriminate.
Qed.

(** Doubling the quotes commutes with the newline translation. *)
Lemma translate_escape_quotes f :
  translate_newlines (escape_quotes f) = escape_quotes (translate_newlines f).
Proof.
  induction f as [|s IH|s Hs IH|c s Hc IH] using translate_ind; [done| | |].
  - rewrite translate_cr_lf. change (escape_quotes (CR :: LF :: s))
      with (CR :: LF :: escape_quotes s). by rewrite translate_cr_lf, IH.
  - change (escape_quotes (CR :: s)) with (CR :: escape_quotes s).
    rewrite !translate_cr by auto using head_escape_quotes. by rewrite IH.
  - rewrite translate_other, !escape_quotes_cons by done.
    rewrite translate_app_no_cr, IH; [done|].
    destruct (c =? DQUOTE)%N; set_solver.
Qed.

(** The translation keeps exactly the fields that need quoting. *)
Lemma needs_quote_translate f : needs_quote (translate_newlines f) = needs_quote f.
Proof.
  unfold needs_quote.
  induction f as [|s IH|s Hs IH|c s Hc IH] using translate_ind; [done| | |].
  - by rewrite translate_cr_lf.
  - by rewrite translate_cr.
  - rewrite translate_other by done. cbn. by rewrite IH.
Qed.

Lemma translate_write_field f :
  translate_newlines (write_field f) = write_field (translate_newlines f).
Proof.
  unfold write_field. rewrite needs_quote_translate. destruct (needs_quote f) eqn:Hq.
  - rewrite translate_other by (unfold DQUOTE, CR; lia).
    rewrite translate_app by (intros _; discriminate). rewrite translate_escape_quotes.
    reflexivity.
  - reflexivity.
Qed.

Lemma translate_join_fields fs :
  translate_newlines (join_fields fs) = join_fields (map translate_newlines fs).
Proof.
  induction fs as [|f fs IH]; [done|]. cbn [map]. rewrite !join_fields_cons.
  rewrite translate_app by (intros _; destruct fs; discriminate).
  rewrite translate_write_field. f_equal.
  destruct fs as [|f' fs']; [done|]. cbn [map].
  rewrite translate_other by (unfold COMMA, CR; lia). by rewrite IH.
Qed.

Lemma translate_nil_iff s : translate_newlines s = [] <-> s = [].
Proof.
  split; [|by intros ->]. destruct s as [|c s]; [done|]. cbn.
  by destruct (c =? CR)%N.
Qed.

Lemma record_body_join fs : fs <> [[]] -> record_body fs = join_fields fs.
Proof. intros Hne. by destruct fs as [|[|? ?] [|? ?]]. Qed.

Lemma translate_record_body fs :
  translate_newlines (record_body fs) = record_body (map translate_newlines fs).
Proof.
  destruct (decide (fs = [[]])) as [->|Hne]; [reflexivity|].
  rewrite (record_body_join fs Hne), record_body_join; [apply translate_join_fields|].
  intros Hm. apply Hne. destruct fs as [|f [|f' fs]]; try discriminate.
  injection Hm as Hf. by apply translate_nil_iff in Hf as ->.
Qed.

Lemma translate_written bs :
  translate_newlines (concat (map (fun b => b ++ CRLF) bs))
  = concat (map (fun b => translate_newlines b ++ [LF]) bs).
Proof.
  induction bs as [|b bs IH]; [done|]. cbn [map concat]. rewrite <- app_assoc.
  rewrite translate_app by (intros _; discriminate).
  change (CRLF ++ ?r) with (CR :: LF :: r). rewrite translate_cr_lf, IH.
  by rewrite <- app_assoc.
Qed.

Lemma translate_no_cr_out s : CR ∉ translate_newlines s.
Proof.
  induction s as [s IH] using (induction_ltof1 _ (@length N)); unfold ltof in IH.
  destruct s as [|c s']; cbn; [set_solver|].
  destruct (N.eqb_spec c CR) as [->|Hc].
  - apply not_elem_of_cons. split; [unfold CR, LF; lia|].
    destruct s' as [|d s'']; [set_solver|].
    destruct (d =? LF)%N; apply IH; cbn; lia.
  - apply not_elem_of_cons. split; [done|]. apply IH. cbn; lia.
Qed.

Lemma length_translate_le s : (length (translate_newlines s) <= length s)%nat.
Proof.
  induction s as [|s IH|s Hs IH|c s Hc IH] using translate_ind; [done| | |].
  - rewrite translate_cr_lf. cbn in *. lia.
  - rewrite translate_cr by done. cbn in *. lia.
  - rewrite translate_other by done. cbn in *. lia.
Qed.

(** ** A field longer than the limit *)

Lemma add_char_fail p c :
  (field_limit <= N.of_nat (length (field p)))%N ->
  parse_add_char p c = Err (CsvError field_limit_msg).
Proof. intros H. unfold parse_add_char. by rewrite (proj2 (N.leb_le _ _) H). Qed.

Lemma run_quoted_fail g buf acc evs :
  CR ∉ g -> (N.of_nat (length buf) <= field_limit)%N ->
  (field_limit < N.of_nat (length (buf ++ g)))%N ->
  run_events (mkp IN_QUOTED_FIELD buf acc) (flat_map ev_char (escape_quotes g) ++ evs)
  = Err (CsvError field_limit_msg).
Proof.
  revert buf. induction g as [|c g IH]; intros buf Hcr Hle Hlt.
  { rewrite app_nil_r in Hlt. lia. }
  rewrite length_app in Hlt. cbn in Hlt.
  unfold escape_quotes. cbn [flat_map]. fold (escape_quotes g).
  destruct (decide (N.of_nat (length buf) = field_limit)) as [Heq|Hne].
  - destruct (N.eqb_spec c DQUOTE) as [->|Hq].
    + cbn [flat_map app]. rewrite ev_char_not_lf by apply dquote_not_lf. cbn [app].
      rewrite run_events_char, step_quoted_dq. cbn [mbind result_bind].
      rewrite run_events_char. cbn. by rewrite (add_char_fail (mkp _ _ _)) by (cbn; lia).
    + cbn [flat_map app]. unfold ev_char at 1.
      destruct (c =? LF)%N; cbn [app]; rewrite run_events_char; cbn;
        rewrite (proj2 (N.eqb_neq _ _) Hq);
        by rewrite (add_char_fail (mkp _ _ _)) by (cbn; lia).
  - assert (Hl : (N.of_nat (length buf) < field_limit)%N) by lia.
    assert (Hle' : (N.of_nat (length (buf ++ [c])) <= field_limit)%N)
      by (rewrite length_app; cbn; lia).
    assert (Hlt' : (field_limit < N.of_nat (length ((buf ++ [c]) ++ g)))%N)
      by (rewrite !length_app; cbn; lia).
    destruct (N.eqb_spec c DQUOTE) as [->|Hq].
    + cbn [flat_map app]. rewrite ev_char_not_lf by apply dquote_not_lf. cbn [app].
      rewrite run_events_char, step_quoted_dq. cbn [mbind result_bind].
      rewrite run_events_char, step_qq_dq by done. cbn [mbind result_bind].
      apply IH; [set_solver|done|done].
    + cbn [flat_map app]. destruct (N.eqb_spec c LF) as [->|Hlf].
      * rewrite ev_char_lf. cbn [app].
        rewrite run_events_char, step_quoted_char by done. cbn.
        apply IH; [set_solver|done|done].
      * rewrite ev_char_not_lf by done. cbn [app].
        rewrite run_events_char, step_quoted_char by done. cbn [mbind result_bind].
        apply IH; [set_solver|done|done].
Qed.

Lemma run_plain_fail g buf acc evs :
  forallb (fun c => negb (special c)) g = true ->
  (N.of_nat (length buf) <= field_limit)%N ->
  (field_limit < N.of_nat (length (buf ++ g)))%N ->
  run_events (mkp IN_FIELD buf acc) (flat_map ev_char g ++ evs) = Err (CsvError field_limit_msg).
Proof.
  revert buf. induction g as [|c g IH]; intros buf Hs Hle Hlt.
  { rewrite app_nil_r in Hlt. lia. }
  rewrite length_app in Hlt. cbn in Hlt, Hs. apply andb_prop in Hs as [Hc Hs].
  apply negb_true_iff in Hc.
  assert (c <> LF) as Hlf
    by (intros ->; unfold special in Hc; rewrite !orb_false_iff in Hc; naive_solver).
  cbn [flat_map]. rewrite ev_char_not_lf by done. cbn [app]. rewrite run_events_char.
  destruct (decide (N.of_nat (length buf) = field_limit)) as [Heq|Hne].
  - unfold special in Hc. rewrite !orb_false_iff in Hc. destruct Hc as [[[Hcm _] Hl] Hcr].
    cbn. unfold is_nl. rewrite Hl, Hcr, Hcm.
    by rewrite (add_char_fail (mkp _ _ _)) by (cbn; lia).
  - rewrite step_in_field_plain by (done || lia). cbn [mbind result_bind].
    apply IH; [done|rewrite length_app; cbn; lia|rewrite !length_app; cbn; lia].
Qed.

Lemma run_field_fail f acc evs :
  CR ∉ f -> (field_limit < N.of_nat (length f))%N ->
  run_events (mkp START_FIELD [] acc) (flat_map ev_char (write_field f) ++ evs)
  = Err (CsvError field_limit_msg).
Proof.
  intros Hcr Hlen. unfold write_field. destruct (needs_quote f) eqn:Hq.
  - cbn [flat_map]. rewrite ev_char_not_lf by apply dquote_not_lf. cbn [app].
    rewrite run_events_char, step_start_dq. cbn [mbind result_bind].
    rewrite flat_map_app, <- app_assoc. apply run_quoted_fail; [done|cbn; unfold field_limit; lia|done].
  - apply needs_quote_false in Hq. destruct f as [|c f]; [cbn in Hlen; lia|].
    cbn in Hq. apply andb_prop in Hq as [Hc Hq]. apply negb_true_iff in Hc.
    assert (c <> LF) as Hlf
      by (intros ->; unfold special in Hc; rewrite !orb_false_iff in Hc; naive_solver).
    cbn [flat_map]. rewrite <- app_assoc, ev_char_not_lf by done. cbn [app].
    rewrite run_events_char, step_start_plain by done. cbn [mbind result_bind].
    apply run_plain_fail; [done|cbn; unfold field_limit; lia|done].
Qed.

Lemma run_reset_nil : run_events parse_reset [] = Ok [].
Proof. reflexivity. Qed.

(** ** Theorems *)

Lemma within_limit_field_ok o : within_limit o -> field_ok (field_read_back o).
Proof. intros Ho. split; [apply translate_no_cr_out|exact Ho]. Qed.

Lemma within_limit_ok rows :
  Forall (Forall within_limit) rows -> Forall (Forall field_ok) (map (map field_read_back) rows).
Proof.
  intros Hok. apply Forall_fmap. eapply Forall_impl; [exact Hok|]. intros r Hr.
  apply Forall_fmap. exact (Forall_impl _ _ _ Hr within_limit_field_ok).
Qed.

(** The text the reader parses for rows the writer wrote: the records of
    the fields as the reader gives them back, each ended by [\n]. *)
Lemma translate_writerows rows :
  translate_newlines (concat (map writerow rows))
  = concat (map (fun b => b ++ [LF]) (map record_body (map (map field_read_back) rows))).
Proof.
  replace (concat (map writerow rows))
    with (concat (map (fun b => b ++ CRLF) (map (fun r => record_body (map (default []) r)) rows)))
    by (rewrite map_map; f_equal; apply map_ext; intros r; by rewrite writerow_body).
  rewrite translate_written, !map_map. f_equal. apply map_ext. intros r.
  by rewrite translate_record_body, map_map.
Qed.

(** Reading a file made of rows the writer appended gives back each field
    as the reader sees it, provided it fits the field limit. *)
Lemma read_written_rows rows :
  Forall (Forall within_limit) rows ->
  read_csv (concat (map writerow rows)) = Ok (map (map field_read_back) rows).
Proof.
  intros Hok.
  rewrite read_csv_events, translate_writerows, final_eol_records, map_map.
  rewrite (run_records _ [] (within_limit_ok _ Hok)), run_reset_nil.
  cbn. by rewrite app_nil_r.
Qed.

(** Appending a row to a store the writer produced: the listing is
    the old rows followed by the new one. *)
Corollary read_csv_append rows row :
  Forall (Forall within_limit) (rows ++ [row]) ->
  read_csv (concat (map writerow rows) ++ writerow row)
  = Ok (map (map field_read_back) rows ++ [map field_read_back row]).
Proof.
  intros Hok. rewrite <- (app_nil_r (writerow row)).
  change (writerow row ++ []) with (concat (map writerow [row])).
  rewrite <- concat_app, <- map_app, read_written_rows by done.
  by rewrite map_app.
Qed.

Lemma field_ok_fits f : CR ∉ f -> fits f -> field_ok f.
Proof. by split. Qed.

(** The fields of a record are read one after the other, and the first that
    is too long stops the reader. *)
Lemma run_join_fail fs acc evs :
  Forall (fun f => CR ∉ f) fs -> ~ Forall fits fs ->
  run_events (mkp START_FIELD [] acc) (flat_map ev_char (join_fields fs ++ [LF]) ++ evs)
  = Err (CsvError field_limit_msg).
Proof.
  revert acc. induction fs as [|f fs IH]; intros acc Hcr Hfit; [by destruct Hfit|].
  apply Forall_cons in Hcr as [Hf Hcr]. destruct (decide (fits f)) as [Hok|Hlong].
  - destruct fs as [|f' fs']; [by destruct Hfit; repeat constructor|].
    change (join_fields (f :: f' :: fs')) with (write_field f ++ COMMA :: join_fields (f' :: fs')).
    rewrite <- app_assoc, flat_map_app, <- app_assoc, run_field by by apply field_ok_fits.
    cbn [app flat_map]. rewrite ev_char_not_lf by apply comma_not_lf. cbn [app].
    rewrite run_events_char, step_done_comma by apply end_state_done.
    cbn [mbind result_bind]. apply IH; [done|]. intros Hall. by apply Hfit; constructor.
  - rewrite join_fields_cons, <- app_assoc, flat_map_app, <- app_assoc.
    apply run_field_fail; [done|]. unfold fits in Hlong. lia.
Qed.

Lemma run_record_fail fs evs :
  Forall (fun f => CR ∉ f) fs -> ~ Forall fits fs ->
  run_events parse_reset (flat_map ev_char (record_body fs ++ [LF]) ++ evs)
  = Err (CsvError field_limit_msg).
Proof.
  intros Hcr Hfit. destruct (decide (fs = [])) as [->|Hne]; [by destruct Hfit|].
  destruct (decide (fs = [[]])) as [->|Hne1].
  { destruct Hfit. repeat constructor. unfold fits, field_limit. cbn. lia. }
  rewrite record_body_join by done.
  destruct (join_fields_head fs Hne Hne1) as (c & rest & Hj & Hc).
  assert (c <> LF) by (intros ->; discriminate).
  rewrite Hj. cbn [app flat_map]. rewrite ev_char_not_lf by done. cbn [app].
  rewrite run_events_char, reset_start, <- run_events_char by done.
  replace (Char c :: flat_map ev_char (rest ++ [LF]) ++ evs)
    with (flat_map ev_char ((c :: rest) ++ [LF]) ++ evs)
    by (cbn; rewrite ev_char_not_lf by done; reflexivity).
  rewrite <- Hj. by apply run_join_fail.
Qed.

(** The records before the first one with a field too long are read, then
    the reader stops. *)
Lemma run_records_fail rows evs :
  Forall (Forall (fun f => CR ∉ f)) rows -> ~ Forall (Forall fits) rows ->
  run_events parse_reset (flat_map ev_char (concat (map (fun fs => record_body fs ++ [LF]) rows)) ++ evs)
  = Err (CsvError field_limit_msg).
Proof.
  induction rows as [|fs rows IH]; intros Hcr Hfit; [by destruct Hfit|].
  apply Forall_cons in Hcr as [Hfs Hcr]. cbn [map concat].
  rewrite flat_map_app, <- app_assoc.
  destruct (decide (Forall fits fs)) as [Hok|Hlong]; [|by apply run_record_fail].
  rewrite run_record, IH; [done|done| |].
  - intros Hall. by apply Hfit; constructor.
  - apply Forall_forall. intros f Hf. apply field_ok_fits.
    + by eapply Forall_forall in Hfs.
    + by eapply Forall_forall in Hok.
Qed.

Lemma within_limit_fits rows :
  Forall (Forall within_limit) rows <-> Forall (Forall fits) (map (map field_read_back) rows).
Proof.
  rewrite Forall_map. apply Forall_proper; [|done]. intros r. by rewrite Forall_map.
Qed.

(** C19: the field limit of the reader on a store the writer produced:
    when every field, as the reader gives it back, has at most 131072
    characters, the listing is the rows written; when one has more, the
    writer appended it all the same, and reading the store raises
    [csv.Error], whatever comes before or after it. *)
Theorem read_csv_written_limit rows :
  (Forall (Forall within_limit) rows /\
   read_csv (concat (map writerow rows)) = Ok (map (map field_read_back) rows)) \/
  (~ Forall (Forall within_limit) rows /\
   read_csv (concat (map writerow rows)) = Err (CsvError field_limit_msg)).
Proof.
  destruct (decide (Forall (Forall within_limit) rows)) as [Hok|Hlong].
  - left. split; [done|]. by apply read_written_rows.
  - right. split; [done|].
    rewrite read_csv_events, translate_writerows, final_eol_records, map_map.
    apply run_records_fail.
    + apply Forall_map, Forall_forall. intros r _.
      apply Forall_map, Forall_forall. intros o _. apply translate_no_cr_out.
    + by rewrite <- within_limit_fits.
Qed.

(** A carriage return in a field comes back as a line feed: the
    reader opens the file with universal newlines. *)
Theorem read_csv_cr_field : read_csv (writerow [Some [97; CR; 98]%N]) = Ok [[[97; LF; 98]%N]].
Proof. vm_compute. reflexivity. Qed.

(** C30: appending a row to a store whose last line was left without a line
    terminator (say, edited by hand) merges the row into that line. When
    the line is plain fields with a non-empty last one, the listing has the
    rows before it, then one row: the line's fields, the last one followed
    by the new row's first field, then the new row's other fields. *)
Theorem read_csv_unterminated rows init lf f1 rest :
  Forall (Forall within_limit) rows ->
  Forall (fun f => needs_quote f = false /\ fits f) (init ++ [lf]) -> lf <> [] ->
  needs_quote f1 = false -> fits (lf ++ f1) -> (f1 <> [] \/ rest <> []) ->
  Forall within_limit rest ->
  read_csv (concat (map writerow rows) ++ join_fields (init ++ [lf]) ++ writerow (Some f1 :: rest))
  = Ok (map (map field_read_back) rows ++ [init ++ (lf ++ f1) :: map field_read_back rest]).
Proof.
  intros Hrows Hline Hlf Hq1 Hfit Hne Hrest.
  assert (Hls : init ++ [lf] <> [] /\ init ++ [lf] <> [[]])
    by (split; [by destruct init|]; intros [[_ [= ?]]|[_ ?]]%app_eq_unit; done).
  destruct (join_fields_head _ (proj1 Hls) (proj2 Hls)) as (c & s & Hj & Hc).
  assert (Hcr : CR ∉ join_fields (init ++ [lf])).
  { rewrite <- record_body_join by apply Hls. apply record_body_no_cr.
    eapply Forall_impl; [exact Hline|]. intros f [Hq _]. by apply plain_no_cr. }
  assert (Hrow : translate_newlines (writerow (Some f1 :: rest))
                 = join_fields (f1 :: map field_read_back rest) ++ [LF]).
  { rewrite <- (app_nil_r (writerow _)).
    change (writerow ?r ++ []) with (concat (map writerow [r])).
    rewrite translate_writerows. cbn [map concat]. rewrite app_nil_r, record_body_join.
    - unfold field_read_back at 1. cbn [default]. by rewrite translate_no_cr by (by apply plain_no_cr).
    - destruct Hne as [Hf1|Hr]; [intros [=]; by apply Hf1, translate_nil_iff|by destruct rest]. }
  rewrite read_csv_events, translate_app
    by (rewrite Hj; intros _ [= ->]; discriminate Hc).
  rewrite translate_app_no_cr, Hrow, translate_writerows by done.
  rewrite !app_assoc. unfold final_eol at 1. rewrite last_snoc, N.eqb_refl.
  rewrite app_nil_r, <- !app_assoc, flat_map_app, map_map.
  rewrite (run_records _ _ (within_limit_ok _ Hrows)).
  rewrite flat_map_app, run_reset_line, run_open_line by (apply Hls || done).
  rewrite <- (app_nil_r (flat_map _ (join_fields (f1 :: _) ++ [LF]))).
  rewrite run_continue, run_reset_nil by (done || by apply Forall_fmap, (Forall_impl _ _ _ Hrest), within_limit_field_ok).
  reflexivity.
Qed.

Lemma add_char_cases p c :
  (exists p', parse_add_char p c = Ok p' /\ state p' = state p) \/
  parse_add_char p c = Err (CsvError field_limit_msg).
Proof.
  unfold parse_add_char. destruct (field_limit <=? _)%N; [by right|left; by eexists].
Qed.

(** Outside [EAT_CRNL], a character other than a carriage return gives a
    parser outside [EAT_CRNL] unless it is a line feed, or the field-limit
    error. *)
Lemma process_char_cases p c :
  state p <> EAT_CRNL -> c <> CR ->
  (exists p', process_event p (Char c) = Ok p' /\ (c <> LF -> state p' <> EAT_CRNL)) \/
  process_event p (Char c) = Err (CsvError field_limit_msg).
Proof.
  intros Hst Hcr. destruct p as [st f fs]. cbn in Hst.
  assert (Hnl : is_nl c = true -> c = LF)
    by (unfold is_nl; rewrite orb_true_iff, !N.eqb_eq; intuition).
  destruct st; try done; cbn -[parse_add_char];
    repeat match goal with
    | |- context [if ?b then _ else _] => destruct b eqn:?
    end;
    try (left; eexists; split; [reflexivity|]; cbn; naive_solver);
    match goal with
    | |- context [parse_add_char ?q ?x] =>
        destruct (add_char_cases q x) as [(p' & -> & Hs)| ->]; [left|by right]
    end; cbn; eexists; (split; [reflexivity|]); cbn in *; rewrite ?Hs; cbn; naive_solver.
Qed.

Lemma process_eol_cases p : exists p', process_event p EOL = Ok p' /\ state p' <> EAT_CRNL.
Proof.
  destruct p as [[] f fs]; cbn; eexists; (split; [reflexivity|]); cbn; congruence.
Qed.

Lemma eof_rows_ok p : exists rows, eof_rows p = Ok rows.
Proof. unfold eof_rows. destruct (_ || _); by eexists. Qed.

Lemma run_events_error s tl p e :
  CR ∉ s -> state p <> EAT_CRNL -> (tl = [] \/ tl = [EOL]) ->
  run_events p (flat_map ev_char s ++ tl) = Err e -> e = CsvError field_limit_msg.
Proof.
  revert p. induction s as [|c s IH]; intros p Hcr Hst Htl Hrun.
  - destruct Htl as [-> | ->]; cbn in Hrun.
    + destruct (eof_rows_ok p) as [rows Hr]. congruence.
    + destruct (process_eol_cases p) as (p' & Hp' & _). rewrite Hp' in Hrun. cbn in Hrun.
      destruct (bool_decide _); [|destruct (eof_rows_ok p') as [rows Hr]; congruence].
      cbn in Hrun. destruct (eof_rows_ok parse_reset) as [rows Hr]. rewrite Hr in Hrun.
      discriminate.
  - apply not_elem_of_cons in Hcr as [Hc Hcr]. cbn [flat_map] in Hrun.
    rewrite <- app_assoc in Hrun.
    destruct (process_char_cases p c Hst (not_eq_sym Hc)) as [(p1 & Hp1 & Hs1)| Hp1];
      [|unfold ev_char in Hrun; destruct (c =? LF)%N; cbn in Hrun; rewrite Hp1 in Hrun;
        by inversion Hrun].
    destruct (N.eqb_spec c LF) as [->|Hlf].
    + rewrite ev_char_lf in Hrun. cbn [app] in Hrun.
      rewrite run_events_char, Hp1 in Hrun. cbn [mbind result_bind] in Hrun.
      destruct (process_eol_cases p1) as (p2 & Hp2 & Hs2). cbn in Hrun. rewrite Hp2 in Hrun.
      cbn in Hrun. destruct (bool_decide _).
      * destruct (run_events parse_reset _) eqn:Hr; cbn in Hrun; [discriminate|].
        inversion Hrun; subst. eapply IH; [done| |done|exact Hr]. cbn. congruence.
      * by apply (IH p2).
    + rewrite ev_char_not_lf in Hrun by done. cbn [app] in Hrun.
      rewrite run_events_char, Hp1 in Hrun. cbn [mbind result_bind] in Hrun.
      apply (IH p1); auto.
Qed.

(** C18: whatever the store holds, reading it either gives rows or raises
    the field-limit [csv.Error]: the reader's new-line error cannot occur,
    since the file is read with universal newlines. *)
Theorem read_csv_error_only_limit content :
  (exists rows, read_csv content = Ok rows) \/
  read_csv content = Err (CsvError field_limit_msg).
Proof.
  destruct (read_csv content) as [rows|e] eqn:Hr; [left; by eexists|right].
  rewrite read_csv_events in Hr. f_equal.
  apply run_events_error in Hr; [congruence|apply translate_no_cr_out|done|].
  unfold final_eol. destruct (last _); [destruct (_ =? LF)%N|]; auto.
Qed.

(** C4: reading back what the writer appended gives the rows written,
    whatever commas, quotes and line breaks the fields hold: each field
    comes back as [field_read_back], that is [None] as the empty string and
    each [\r\n] or lone [\r] as [\n], provided it fits the reader's field
    limit. *)
Theorem read_csv_writerows rows :
  Forall (Forall within_limit) rows ->
  read_csv (concat (map writerow rows)) = Ok (map (map field_read_back) rows).
Proof. exact (read_written_rows rows). Qed.

(** ** Witnesses *)

(** A name with a comma, a quoted word and a Windows line break. *)
Definition sample_name : pystr := py "Joe, the " ++ [DQUOTE] ++ py "best" ++ [DQUOTE; CR; LF].

Lemma read_csv_writerows_witness :
  Forall (Forall within_limit) [[Some sample_name; None]; [Some []]] /\
  read_csv (concat (map writerow [[Some sample_name; None]; [Some []]]))
  = Ok (map (map field_read_back) [[Some sample_name; None]; [Some []]]).
Proof.
  split; [apply (bool_decide_unpack _); vm_compute; reflexivity|].
  apply (read_csv_writerows [[Some sample_name; None]; [Some []]]).
  apply (bool_decide_unpack _); vm_compute; reflexivity.
Defined.

Lemma read_csv_append_witness :
  Forall (Forall within_limit) ([[Some (py "a")]] ++ [[Some sample_name]]) /\
  read_csv (concat (map writerow [[Some (py "a")]]) ++ writerow [Some sample_name])
  = Ok (map (map field_read_back) [[Some (py "a")]] ++ [map field_read_back [Some sample_name]]).
Proof.
  split; [apply (bool_decide_unpack _); vm_compute; reflexivity|].
  apply (read_csv_append [[Some (py "a")]] [Some sample_name]).
  apply (bool_decide_unpack _); vm_compute; reflexivity.
Defined.

(** A store with one written row and then the hand-typed line [a,b]. *)
Lemma read_csv_unterminated_witness :
  read_csv (concat (map writerow [[Some (py "x")]]) ++ join_fields ([py "a"] ++ [py "b"])
            ++ writerow [Some (py "c"); Some (py "d")])
  = Ok [[py "x"]; [py "a"; py "bc"; py "d"]].
Proof.
  apply (read_csv_unterminated [[Some (py "x")]] [py "a"] (py "b") (py "c") [Some (py "d")]);
    try (apply (bool_decide_unpack _); vm_compute; reflexivity); discriminate.
Defined.

End Csv.
