(* ===== verification/Form.v ===== *)
(** * Form: the [CafeForm] of [src/main.py] and its validation

    [CafeForm] (lines 45-63) is a Flask-WTF form with seven data fields and
    a submit button; Flask-WTF adds a [csrf_token] field.  Each field takes
    the first value the request posts under its name, runs its
    [pre_validate] (a select field checks that the value is one of its
    choices) and then its chain of validators: [DataRequired] stops the
    chain and clears the errors collected so far, [URL] and [Regexp] add
    their message and go on.  The form is valid when no field has an error.

    The URL check and the CSRF-token check belong to WTForms and Flask-WTF:
    they are the two operations of the interface [FormLibrary], and every
    theorem here holds for any implementation of it. *)

From stdpp Require Import base list strings.
From Stdlib Require Import NArith ZArith Lia.
From S2P Require Import Prelude Ratings Regex TimeFormat.
Import Emoji Regex TimeFormat.

Module Form.

(** What the form needs from the libraries. *)
Class FormLibrary := {
  (** [wtforms.validators.URL()] on a field's data *)
  url_check : pystr -> bool;
  (** Flask-WTF's [validate_csrf(token, secret_key)] *)
  csrf_check : pystr -> option pystr -> bool
}.

(** The body of a POST request, [request.form]: its pairs in order. *)
Definition formdata := list (pystr * pystr).

(** [formdata.getlist(name)[0]] when the name is posted. *)
Fixpoint getfirst (fd : formdata) (k : pystr) : option pystr :=
  match fd with
  | [] => None
  | (k', v) :: fd' => if bool_decide (k' = k) then Some v else getfirst fd' k
  end.

Inductive validator :=
| DataRequired
| URL
| Regexp (r : regex) (message : pystr).

Inductive field_kind :=
| StringField
| URLField
| SelectField (choices : list (Z * pystr))
| SubmitField.

Record field_decl := { fname : pystr; kind : field_kind; validators : list validator }.

(** The outcome of one validator: it passes, raises [ValidationError], or
    raises [StopValidation] after clearing the field's errors. *)
Inductive outcome := Pass | Fail (msg : pystr) | StopClear (msg : pystr).

Definition required_msg : pystr := py "This field is required.".
Definition url_msg : pystr := py "Invalid URL.".
Definition choice_msg : pystr := py "Not a valid choice.".
Definition csrf_msg : pystr := py "The CSRF token is invalid.".

Section WithLibrary.
Context `{FormLibrary}.

(** [DataRequired]: the data is present and not only whitespace. *)
Definition data_required (data : option pystr) : bool :=
  match data with
  | Some s => negb (bool_decide (py_strip s = []))
  | None => false
  end.

Definition run_validator (v : validator) (data : option pystr) : outcome :=
  match v with
  | DataRequired => if data_required data then Pass else StopClear required_msg
  | URL => if url_check (default [] data) then Pass else Fail url_msg
  | Regexp r message =>
      if re_match_anchored r (default [] data) then Pass else Fail message
  end.

(** [Field._run_validation_chain]. *)
Fixpoint run_chain (vs : list validator) (data : option pystr) (errors : list pystr)
  : list pystr :=
  match vs with
  | [] => errors
  | v :: vs' =>
      match run_validator v data with
      | Pass => run_chain vs' data errors
      | Fail msg => run_chain vs' data (errors ++ [msg])
      | StopClear msg => [msg]
      end
  end.

(** [SelectField.pre_validate] with [coerce=str]: some choice [(value, _)]
    has [str(value) == data]. *)
Definition pre_validate (k : field_kind) (data : option pystr) : list pystr :=
  match k with
  | SelectField choices =>
      if existsb (fun vl => bool_decide (data = Some (py_str_Z vl.1))) choices then []
      else [choice_msg]
  | _ => []
  end.

(** [Field.validate]: the errors of one field. *)
Definition field_errors (d : field_decl) (data : option pystr) : list pystr :=
  run_chain (validators d) data (pre_validate (kind d) data).

(** ** [CafeForm] (lines 45-63) *)

Definition time_validators : list validator := [DataRequired; Regexp time_regex time_message].

Definition CafeForm (g : Globals) : list field_decl := [
  {| fname := py "name"; kind := StringField; validators := [DataRequired] |};
  {| fname := py "cafe_location"; kind := URLField; validators := [DataRequired; URL] |};
  {| fname := py "opening"; kind := StringField; validators := time_validators |};
  {| fname := py "closing"; kind := StringField; validators := time_validators |};
  {| fname := py "coffee_rating"; kind := SelectField (coffee_rating_list g);
     validators := [DataRequired] |};
  {| fname := py "wifi_rating"; kind := SelectField (wifi_rating_list g);
     validators := [DataRequired] |};
  {| fname := py "power_socket_rating"; kind := SelectField (power_rating_list g);
     validators := [DataRequired] |};
  {| fname := py "submit"; kind := SubmitField; validators := [] |}
].

(** [form.validate()]: every field is validated, the data fields in
    declaration order and then [csrf_token]; the result pairs each field
    name with its errors. *)
Definition form_errors (g : Globals) (secret : pystr) (fd : formdata)
  : list (pystr * list pystr) :=
  map (fun d => (fname d, field_errors d (getfirst fd (fname d)))) (CafeForm g) ++
  [(py "csrf_token",
    if csrf_check secret (getfirst fd (py "csrf_token")) then [] else [csrf_msg])].

Definition form_valid (g : Globals) (secret : pystr) (fd : formdata) : bool :=
  forallb (fun fe => bool_decide (fe.2 = [])) (form_errors g secret fd).

(** ** Lemmas on the validators *)

Lemma data_required_Some s :
  data_required (Some s) = true <-> ~ Forall (fun c => py_isspace c = true) s.
Proof.
  cbn. rewrite negb_true_iff, bool_decide_eq_false, py_strip_nil_iff. done.
Qed.

Lemma py_str_Z_not_blank n : data_required (Some (py_str_Z n)) = true.
Proof.
  apply data_required_Some. intros Hall. unfold py_str_Z in Hall.
  destruct (py_str_N_spec (Z.to_N (- n))) as (_ & Hne1 & _).
  destruct (py_str_N_spec (Z.to_N n)) as (Hd & Hne & _).
  destruct (n <? 0)%Z.
  - inversion Hall as [|? ? Hm _]. discriminate.
  - destruct (py_str_N (Z.to_N n)) as [|c t]; [done|].
    inversion Hall as [|? ? Hc _]; subst. inversion Hd as [|? ? Hdc _]; subst.
    apply is_digit_not_space in Hdc. congruence.
Qed.

Lemma errors_required data :
  field_errors {| fname := py "name"; kind := StringField; validators := [DataRequired] |} data = []
  <-> data_required data = true.
Proof. unfold field_errors. cbn. destruct (data_required data); done. Qed.

Lemma errors_url data :
  field_errors {| fname := py "cafe_location"; kind := URLField;
                  validators := [DataRequired; URL] |} data = []
  <-> data_required data = true /\ url_check (default [] data) = true.
Proof.
  unfold field_errors. cbn. destruct (data_required data), (url_check _); naive_solver.
Qed.

Lemma errors_time n data :
  field_errors {| fname := n; kind := StringField; validators := time_validators |} data = []
  <-> exists s, data = Some s /\ is_valid_time s = true.
Proof.
  unfold field_errors. cbn. destruct (data_required data) eqn:Hr.
  - destruct data as [s|]; [|discriminate]. cbn. fold (is_valid_time s).
    destruct (is_valid_time s) eqn:Hv; cbn.
    + split; [intros _; by exists s|done].
    + split; [discriminate|]. intros (s0 & [= <-] & Hs0). congruence.
  - split; [discriminate|]. intros (s & -> & Hs).
    apply valid_time_not_blank in Hs. apply data_required_Some in Hs. congruence.
Qed.

Lemma errors_select n ch data :
  field_errors {| fname := n; kind := SelectField ch; validators := [DataRequired] |} data = []
  <-> exists v l, data = Some (py_str_Z v) /\ (v, l) ∈ ch.
Proof.
  unfold field_errors. cbn. destruct (existsb _ ch) eqn:He.
  - apply existsb_exists in He as ([v l] & Hin & Hv). apply bool_decide_eq_true in Hv.
    subst. rewrite py_str_Z_not_blank. split; [|done]. intros _.
    exists v, l. split; [done|]. by apply list_elem_of_In.
  - destruct (data_required data); (split; [discriminate|]);
      intros (v & l & -> & Hin); rewrite <- not_true_iff_false in He; exfalso; apply He;
      apply existsb_exists; exists (v, l); (split; [by apply list_elem_of_In|]);
      by apply bool_decide_eq_true.
Qed.

Lemma pre_validate_None ch : pre_validate (SelectField ch) None = [choice_msg].
Proof.
  unfold pre_validate. induction ch as [|vl ch IH]; [done|]. cbn.
  rewrite bool_decide_eq_false_2 by discriminate. exact IH.
Qed.

(** ** Theorems *)

(** The conditions of [form.validate()], field by field. *)
Lemma form_valid_spec g secret fd :
  form_valid g secret fd = true <->
  csrf_check secret (getfirst fd (py "csrf_token")) = true /\
  data_required (getfirst fd (py "name")) = true /\
  (data_required (getfirst fd (py "cafe_location")) = true /\
   url_check (default [] (getfirst fd (py "cafe_location"))) = true) /\
  (exists s, getfirst fd (py "opening") = Some s /\ is_valid_time s = true) /\
  (exists s, getfirst fd (py "closing") = Some s /\ is_valid_time s = true) /\
  (exists v l, getfirst fd (py "coffee_rating") = Some (py_str_Z v) /\ (v, l) ∈ coffee_rating_list g) /\
  (exists v l, getfirst fd (py "wifi_rating") = Some (py_str_Z v) /\ (v, l) ∈ wifi_rating_list g) /\
  (exists v l, getfirst fd (py "power_socket_rating") = Some (py_str_Z v) /\
               (v, l) ∈ power_rating_list g).
Proof.
  unfold form_valid, form_errors. rewrite forallb_app. cbn [CafeForm map forallb].
  rewrite !andb_true_iff. cbn [fst snd]. rewrite !bool_decide_eq_true.
  rewrite errors_required, errors_url, !errors_time, !errors_select.
  assert (Hcsrf : (if csrf_check secret (getfirst fd (py "csrf_token")) then [] else [csrf_msg])
                  = [] <-> csrf_check secret (getfirst fd (py "csrf_token")) = true)
    by (destruct (csrf_check _ _); done).
  rewrite Hcsrf. unfold field_errors at 1. cbn [run_chain pre_validate kind validators].
  tauto.
Qed.

(** C31: every field of [CafeForm] reports at most one error, whatever
    the request posts. *)
Theorem field_errors_at_most_one g d data :
  d ∈ CafeForm g -> (length (field_errors d data) <= 1)%nat.
Proof.
  unfold CafeForm. rewrite !elem_of_cons, elem_of_nil.
  intros Hd. repeat destruct Hd as [-> | Hd]; try done; unfold field_errors; cbn;
    repeat case_match; simplify_eq; cbn; lia.
Qed.

(** C32: a rating left out of the request: [pre_validate] fails first with
    the message [choice_msg], but [DataRequired] clears it, so the message
    shown is [required_msg]. *)
Theorem missing_rating_message g :
  field_errors {| fname := py "coffee_rating"; kind := SelectField (coffee_rating_list g);
                  validators := [DataRequired] |} None = [required_msg] /\
  pre_validate (SelectField (coffee_rating_list g)) None = [choice_msg].
Proof.
  unfold field_errors. cbn [kind validators]. rewrite pre_validate_None. done.
Qed.

(** The opening time "25:00" is reported with the pattern's message. *)
Theorem opening_format_message :
  field_errors {| fname := py "opening"; kind := StringField; validators := time_validators |}
    (Some (py "25:00")) = [time_message].
Proof. vm_compute. reflexivity. Qed.

(** ** Claims *)

(** C13: a submission passes [form.validate()] exactly when the CSRF token
    checks, the name has a character that is not whitespace, the location
    has one and passes the URL check, both times are accepted by the time
    pattern, and each rating is [str(n)] of one of the field's choices. *)
Theorem form_valid_iff g secret fd :
  form_valid g secret fd = true <->
  csrf_check secret (getfirst fd (py "csrf_token")) = true /\
  data_required (getfirst fd (py "name")) = true /\
  (data_required (getfirst fd (py "cafe_location")) = true /\
   url_check (default [] (getfirst fd (py "cafe_location"))) = true) /\
  (exists s, getfirst fd (py "opening") = Some s /\ is_valid_time s = true) /\
  (exists s, getfirst fd (py "closing") = Some s /\ is_valid_time s = true) /\
  (exists v l, getfirst fd (py "coffee_rating") = Some (py_str_Z v) /\ (v, l) ∈ coffee_rating_list g) /\
  (exists v l, getfirst fd (py "wifi_rating") = Some (py_str_Z v) /\ (v, l) ∈ wifi_rating_list g) /\
  (exists v l, getfirst fd (py "power_socket_rating") = Some (py_str_Z v) /\
               (v, l) ∈ power_rating_list g).
Proof. exact (form_valid_spec g secret fd). Qed.

End WithLibrary.

(** ** Examples *)

(** An implementation of [FormLibrary] that accepts every URL and every
    token, for the examples. *)
Definition accept_all_library : FormLibrary :=
  {| url_check := fun _ => true; csrf_check := fun _ _ => true |}.

Lemma field_errors_at_most_one_witness :
  exists g, load_module ∅ = Ok g /\
    {| fname := py "opening"; kind := StringField; validators := time_validators |}
      ∈ CafeForm g /\
    (length (@field_errors accept_all_library
              {| fname := py "opening"; kind := StringField; validators := time_validators |}
              (Some (py "9 PM"))) <= 1)%nat.
Proof.
  eexists. split; [reflexivity|].
  match goal with
  | |- ?d ∈ CafeForm ?g /\ _ =>
      assert (Hd : d ∈ CafeForm g)
        by (apply elem_of_cons; right; apply elem_of_cons; right;
            apply elem_of_cons; left; reflexivity);
      exact (conj Hd (@field_errors_at_most_one accept_all_library g d _ Hd))
  end.
Defined.

End Form.
