(* ===== verification/Records.v ===== *)
(** * Records: the café record of the specification and its rows

    Section 3 of the specification describes a [CafeRecord]: a name, a
    location URL, an opening and a closing time, and three integer ratings,
    stored in the file as the glyph strings of the rating encoder.  This
    file gives that record ([cafe]), the row [add] writes for it
    ([cafe_row]: the seven fields of [new_row], lines 90-96, the ratings
    through the lookups of lines 87-89), the record as the reader gives it
    back ([read_back_cafe]), and the decoding of a listed row back into a
    record by counting glyphs ([decode_row]).  [cafe_valid] is the validity
    the form enforces.  The lemma [decode_row_cafe_row] is the round trip
    record, row, file, listing, record, which [Store.new_row_decodes]
    extends to the row the handler builds. *)

From stdpp Require Import base list strings gmap.
From Stdlib Require Import NArith ZArith Lia.
From S2P Require Import Prelude Ratings TimeFormat Csv Form.
Import Emoji TimeFormat Csv Form.

Module Records.

Record cafe := mk_cafe {
  cafe_name : pystr;
  cafe_location : pystr;
  opening_time : pystr;
  closing_time : pystr;
  coffee_rating : Z;
  wifi_rating : Z;
  power_rating : Z
}.

(** The row [add] writes for a café: text fields as they are, each rating
    as [dict(rating_list).get(rating)], which is the encoder of the
    specification ([choices_encode]). *)
Definition cafe_row (c : cafe) : list (option pystr) :=
  [Some (cafe_name c); Some (cafe_location c); Some (opening_time c); Some (closing_time c);
   encode_spec Coffee (coffee_rating c); encode_spec Wifi (wifi_rating c);
   encode_spec Power (power_rating c)].

(** The record as a later listing shows it: the reader translates the line
    breaks of the text fields; ratings are unchanged. *)
Definition read_back_cafe (c : cafe) : cafe :=
  {| cafe_name := translate_newlines (cafe_name c);
     cafe_location := translate_newlines (cafe_location c);
     opening_time := translate_newlines (opening_time c);
     closing_time := translate_newlines (closing_time c);
     coffee_rating := coffee_rating c; wifi_rating := wifi_rating c;
     power_rating := power_rating c |}.

(** A listed row back to a record: seven cells, ratings by counting glyphs. *)
Definition decode_row (row : list pystr) : option cafe :=
  match row with
  | [n; l; o; cl; cf; w; p] =>
      cf' ← decode_rating Coffee cf; w' ← decode_rating Wifi w; p' ← decode_rating Power p;
      Some (mk_cafe n l o cl cf' w' p')
  | _ => None
  end.

(** The ratings a select field offers: coffee 1 to 5, wifi and power 0 to 5. *)
Definition rating_domain (c : category) (n : Z) : Prop :=
  match c with Coffee => (1 <= n <= 5)%Z | Wifi | Power => (0 <= n <= 5)%Z end.

Definition ratings_ok (c : cafe) : Prop :=
  rating_domain Coffee (coffee_rating c) /\ rating_domain Wifi (wifi_rating c) /\
  rating_domain Power (power_rating c).

Section WithLibrary.
Context `{FormLibrary}.

(** What the form guarantees of a record it accepts (section 3 of the
    specification, with the URL check of the library). *)
Definition cafe_valid (c : cafe) : Prop :=
  data_required (Some (cafe_name c)) = true /\
  data_required (Some (cafe_location c)) = true /\ url_check (cafe_location c) = true /\
  is_valid_time (opening_time c) = true /\ (SPACE ∉ opening_time c) /\
  is_valid_time (closing_time c) = true /\ (SPACE ∉ closing_time c) /\
  ratings_ok c.

End WithLibrary.

(** ** Lemmas *)

Lemma encode_spec_domain c n : rating_domain c n -> exists s, encode_spec c n = Some s.
Proof.
  unfold encode_spec. destruct ((1 <=? n)%Z && (n <=? 5)%Z) eqn:Hn; [by eexists|].
  apply andb_false_iff in Hn as [Hn|Hn]; apply Z.leb_gt in Hn;
    destruct c; cbn; intros Hd; try lia; replace n with 0%Z by lia; by eexists.
Qed.

Lemma encode_spec_no_cr c n s : encode_spec c n = Some s -> CR ∉ s.
Proof.
  intros (_ & Hs)%encode_spec_glyphs Hcr.
  rewrite Forall_forall in Hs. specialize (Hs CR Hcr). unfold CR in Hs. lia.
Qed.

Lemma read_back_encode c n s : encode_spec c n = Some s -> field_read_back (Some s) = s.
Proof. intros Hs. apply translate_no_cr. by apply (encode_spec_no_cr c n). Qed.

(** A rating in its domain is read back and decoded to itself. *)
Lemma decode_read_back c n :
  rating_domain c n -> decode_rating c (field_read_back (encode_spec c n)) = Some n.
Proof.
  intros (s & Hs)%encode_spec_domain. rewrite Hs, (read_back_encode c n s Hs).
  by apply decode_encode_spec.
Qed.

Lemma encode_spec_Some_domain c n s : encode_spec c n = Some s -> rating_domain c n.
Proof.
  unfold encode_spec, rating_domain. destruct ((1 <=? n)%Z && (n <=? 5)%Z) eqn:Hn.
  - apply andb_prop in Hn as [H1 H2]. apply Z.leb_le in H1, H2. destruct c; lia.
  - destruct c; [discriminate| |]; destruct (Z.eqb_spec n 0); intros Hs; [lia|discriminate|lia|discriminate].
Qed.

(** An encoded rating has at most ten code points: five glyphs of two. *)
Lemma encode_spec_length c n s : encode_spec c n = Some s -> (length s <= 10)%nat.
Proof.
  intros Hs. pose proof (encode_spec_Some_domain c n s Hs) as Hd. revert Hs.
  unfold encode_spec. destruct ((1 <=? n)%Z && (n <=? 5)%Z) eqn:Hn.
  - intros [= <-]. rewrite length_py_str_mul. apply andb_prop in Hn as [_ H2].
    apply Z.leb_le in H2. destruct c; cbn; lia.
  - destruct c; [discriminate| |]; destruct (n =? 0)%Z; intros [= <-]; cbn; lia.
Qed.

Lemma decode_row_cafe_row c :
  ratings_ok c -> decode_row (map field_read_back (cafe_row c)) = Some (read_back_cafe c).
Proof.
  intros (Hc & Hw & Hp). cbn [cafe_row map decode_row].
  rewrite (decode_read_back Coffee), (decode_read_back Wifi), (decode_read_back Power) by done.
  reflexivity.
Qed.

(** ** Theorems *)

(** C27: the choice lists the module builds are well formed: in each, the
    ratings are distinct, lie in the category's domain, and are paired
    with their encoding. *)
Theorem globals_well_formed environ g c :
  load_module environ = Ok g ->
  NoDup (choices g c).*1 /\
  Forall (fun vl => rating_domain c vl.1 /\ encode_spec c vl.1 = Some vl.2) (choices g c).
Proof.
  intros Hg. split.
  - rewrite load_module_value in Hg. injection Hg as <-.
    destruct c; cbn [choices coffee_rating_list wifi_rating_list power_rating_list fmap list_fmap];
      rewrite ?rating_list_keys; [apply NoDup_py_range| |];
      (apply NoDup_cons; split; [cbn; rewrite elem_of_py_range; lia|apply NoDup_py_range]).
  - apply Forall_forall. intros [v l] Hin.
    pose proof (choices_mem_encode environ g c v l Hg Hin) as Henc.
    split; [exact (encode_spec_Some_domain c v l Henc)|exact Henc].
Qed.

(** ** Witnesses *)

Definition sample_cafe : cafe :=
  mk_cafe (py "Joe's") (py "https://maps.example/x") (py "8AM") (py "5:30PM") 3 0 5.

Lemma globals_well_formed_witness :
  exists g, load_module ∅ = Ok g /\
    NoDup (choices g Wifi).*1 /\
    Forall (fun vl => rating_domain Wifi vl.1 /\ encode_spec Wifi vl.1 = Some vl.2) (choices g Wifi).
Proof.
  eexists. split; [reflexivity|].
  match goal with |- NoDup (choices ?g _).*1 /\ _ => exact (globals_well_formed ∅ g Wifi eq_refl) end.
Defined.

End Records.
