(* ===== verification/App.v ===== *)
(** * App: the three routes of [src/main.py] over the store

    The application's state is the file [cafe-data.csv]: its bytes, or its
    absence, and whether the process may write it.  [home] (lines 67-69)
    renders a page; [cafes] (lines 72-79) opens the store, decodes it as
    UTF-8, reads all its rows with [csv.reader] and renders them; [add]
    (lines 82-100) builds a [CafeForm], and when the request is a valid
    submission opens the store for appending, looks each rating up in its
    choice list, writes the row, encoded as UTF-8, and redirects to the
    listing, otherwise renders the form with its errors.  [dispatch] routes
    a request as the [@app.route] decorators do, with the methods Flask
    adds to each rule ([HEAD] with [GET], and [OPTIONS], which Flask
    answers itself) and [405] for any other method; [serve] answers a
    sequence of requests one after the other.  The theorems describe each
    handler on every branch, the route table, and show by induction over
    the requests that the file holds one row for each request answered
    with the redirect to the listing, the row [new_row] built from it, in
    request order and a valid cafe record, that the listing shows exactly
    the rows written, and that a file that does not decode is never listed
    again. *)

From stdpp Require Import base list strings gmap.
From Stdlib Require Import NArith ZArith Lia.
From S2P Require Import Prelude Utf8 Ratings Regex TimeFormat Csv Form.
Import Utf8 Emoji TimeFormat Csv Form.

Module App.

(** The store: the bytes of the file, [None] when it does not exist. *)
Record fs_state := { cafe_data : option (list N); writable : bool }.

(** The method of a request: the standard ones, and any other name. *)
Inductive method := GET | HEAD | POST | PUT | PATCH | DELETE | OPTIONS | OtherMethod (name : pystr).

#[export] Instance method_eq_dec : EqDecision method.
Proof. solve_decision. Defined.

Record request := { req_method : method; req_path : pystr; req_form : formdata }.

Inductive response :=
| RenderIndex
| RenderCafes (table_data : list (list pystr))
| RenderAdd (errors : list (pystr * list pystr))
| Redirect (location : pystr)
| ServerError (e : exc)
| NotFound
| MethodNotAllowed
| Options (allow : list method).

Definition csrf_secret_msg : pystr := py "A secret key is required to use CSRF.".

Section WithLibrary.
Context `{FormLibrary}.

(** ** [home] (lines 67-69) *)
Definition home : response := RenderIndex.

(** ** [cafes] (lines 72-79): [open] raises [FileNotFoundError] when the
    store is missing; the file is decoded as UTF-8 and its rows are read
    in file order. *)
Definition cafes (fs : fs_state) : response :=
  match cafe_data fs with
  | None => ServerError FileNotFoundError
  | Some raw =>
      match (data_file ← utf8_decode raw; read_csv data_file) with
      | Ok cafe_data => RenderCafes cafe_data
      | Err e => ServerError e
      end
  end.

(** ** [add] (lines 82-100) *)

(** [str(x)] of a field's data: [str(None)] is ["None"]. *)
Definition py_str_data (data : option pystr) : pystr :=
  match data with Some s => s | None => py "None" end.

(** [dict(rating_list).get(int(data))]: [int(None)] raises [TypeError]. *)
Definition rating_of (rating_list : list (Z * pystr)) (data : option pystr)
  : result (option pystr) :=
  match data with
  | Some s => rating_option rating_list s
  | None => Err TypeError
  end.

(** Lines 87-96: the three lookups, then [new_row]. *)
Definition new_row (g : Globals) (fd : formdata) : result (list (option pystr)) :=
  coffee_rating_option ← rating_of (coffee_rating_list g) (getfirst fd (py "coffee_rating"));
  wifi_rating_option ← rating_of (wifi_rating_list g) (getfirst fd (py "wifi_rating"));
  socket_rating_option ← rating_of (power_rating_list g) (getfirst fd (py "power_socket_rating"));
  Ok [getfirst fd (py "name");
      getfirst fd (py "cafe_location");
      Some (py_replace_char SPACE [] (py_str_data (getfirst fd (py "opening"))));
      Some (py_replace_char SPACE [] (py_str_data (getfirst fd (py "closing"))));
      coffee_rating_option;
      wifi_rating_option;
      socket_rating_option].

(** Flask-WTF's [is_submitted()]: the methods that submit a form. *)
Definition is_submitted (m : method) : bool :=
  match m with POST | PUT | PATCH | DELETE => true | _ => false end.

(** [form.validate_on_submit()]: [is_submitted() and validate()]. *)
Definition validate_on_submit (g : Globals) (secret : pystr) (req : request) : bool :=
  is_submitted (req_method req) && form_valid g secret (req_form req).

(** [add]: [CafeForm()] raises when no secret key is configured, since
    Flask-WTF generates a CSRF token when the form is built; opening the
    store in append mode creates it, before the lookups run; the line
    [writer.writerow] writes is encoded before it reaches the file, so a
    [UnicodeEncodeError] leaves the file as it was. *)
Definition add (g : Globals) (fs : fs_state) (req : request) : fs_state * response :=
  match secret_key g with
  | None => (fs, ServerError (RuntimeError csrf_secret_msg))
  | Some secret =>
      if validate_on_submit g secret req then
        if writable fs then
          let content := default [] (cafe_data fs) in
          match new_row g (req_form req) with
          | Ok row =>
              match utf8_encode (writerow row) with
              | Ok line => ({| cafe_data := Some (content ++ line); writable := true |},
                            Redirect (py "/cafes"))
              | Err e => ({| cafe_data := Some content; writable := true |}, ServerError e)
              end
          | Err e => ({| cafe_data := Some content; writable := true |}, ServerError e)
          end
        else (fs, ServerError PermissionError)
      else
        (fs, RenderAdd (if is_submitted (req_method req)
                        then form_errors g secret (req_form req) else []))
  end.

(** ** Routing (lines 67, 72, 82)

    The methods a rule accepts: those its decorator declares ([GET] when it
    declares none), [HEAD] with [GET], and [OPTIONS], which Flask answers
    itself with the list of the rule's methods. *)
Definition rule_methods (declared : list method) : list method :=
  declared ++ (if bool_decide (GET ∈ declared) then [HEAD] else []) ++ [OPTIONS].

(** A request to a rule: Flask's answer to [OPTIONS], the view for a
    method of the rule, [405 Method Not Allowed] for any other. *)
Definition route (declared : list method) (fs : fs_state) (req : request)
    (view : fs_state * response) : fs_state * response :=
  if bool_decide (req_method req = OPTIONS) then (fs, Options (rule_methods declared))
  else if bool_decide (req_method req ∈ rule_methods declared) then view
  else (fs, MethodNotAllowed).

Definition dispatch (g : Globals) (fs : fs_state) (req : request) : fs_state * response :=
  if bool_decide (req_path req = py "/") then route [GET] fs req (fs, home)
  else if bool_decide (req_path req = py "/cafes") then route [GET] fs req (fs, cafes fs)
  else if bool_decide (req_path req = py "/add") then route [GET; POST] fs req (add g fs req)
  else (fs, NotFound).

(** ** The record the specification describes (section 3)

    A row [add] writes: a non-blank name, a non-blank location accepted by
    the URL check, two accepted times without spaces, and three encoded
    ratings. *)
Definition record_ok (row : list (option pystr)) : Prop :=
  exists name loc o c cof wif pow,
    row = [Some name; Some loc; Some o; Some c; Some cof; Some wif; Some pow] /\
    data_required (Some name) = true /\ data_required (Some loc) = true /\
    url_check loc = true /\
    is_valid_time o = true /\ (SPACE ∉ o) /\ is_valid_time c = true /\ (SPACE ∉ c) /\
    (exists n, encode_spec Coffee n = Some cof) /\ (exists n, encode_spec Wifi n = Some wif) /\
    (exists n, encode_spec Power n = Some pow).

(** The store holds the rows [rows] in the writer's format, encoded, or is
    missing and nothing was written. *)
Definition store_holds (fs : fs_state) (rows : list (list (option pystr))) : Prop :=
  (cafe_data fs = None /\ rows = []) \/
  exists raw, cafe_data fs = Some raw /\ utf8_encode (concat (map writerow rows)) = Ok raw.

(** Text the encoder accepts: every character a scalar value. *)
Definition text_ok (s : pystr) : Prop := Forall (fun c => is_scalar c = true) s.

(** The form of a request as Werkzeug decodes it: text that encodes. *)
Definition form_text_ok (fd : formdata) : Prop := Forall (fun kv => text_ok kv.2) fd.

#[export] Instance text_ok_dec s : Decision (text_ok s).
Proof. unfold text_ok. apply _. Defined.

#[export] Instance form_text_ok_dec fd : Decision (form_text_ok fd).
Proof. unfold form_text_ok. apply _. Defined.

(** The states a sequence of requests can lead to from [fs0]. *)
Inductive reachable (g : Globals) (fs0 : fs_state) : fs_state -> Prop :=
| reach_init : reachable g fs0 fs0
| reach_step fs req : reachable g fs0 fs -> reachable g fs0 (dispatch g fs req).1.

(** The server answering requests one after the other: the store after
    them and the response to each. *)
Fixpoint serve (g : Globals) (fs : fs_state) (reqs : list request) : fs_state * list response :=
  match reqs with
  | [] => (fs, [])
  | req :: reqs' =>
      let p := dispatch g fs req in
      let q := serve g p.1 reqs' in
      (q.1, p.2 :: q.2)
  end.

(** The response of [add] after its write: the redirect to the listing. *)
Definition is_redirect_cafes (r : response) : bool :=
  match r with Redirect u => bool_decide (u = py "/cafes") | _ => false end.

(** The row [new_row] builds from a request answered by that redirect. *)
Definition accepted_row (g : Globals) (req : request) (r : response) : list (list (option pystr)) :=
  if is_redirect_cafes r then
    match new_row g (req_form req) with Ok row => [row] | Err _ => [] end
  else [].

(** The rows of the accepted submissions of a sequence, in order. *)
Fixpoint accepted_rows (g : Globals) (reqs : list request) (resps : list response)
    : list (list (option pystr)) :=
  match reqs, resps with
  | req :: reqs', r :: resps' => accepted_row g req r ++ accepted_rows g reqs' resps'
  | _, _ => []
  end.

(** ** Lemmas *)

(** Routing answers without the view, or with it. *)
Lemma route_cases declared fs req view :
  (route declared fs req view).1 = fs \/ route declared fs req view = view.
Proof. unfold route. repeat case_bool_decide; auto. Qed.

Lemma route_keep declared fs req view :
  view.1 = fs -> (route declared fs req view).1 = fs.
Proof. intros Hv. unfold route. by repeat case_bool_decide. Qed.

(** A request to [/add] with a method of its rule other than [OPTIONS]
    runs [add]. *)
Lemma dispatch_add g fs req :
  req_path req = py "/add" -> req_method req <> OPTIONS -> req_method req ∈ rule_methods [GET; POST] ->
  dispatch g fs req = add g fs req.
Proof.
  intros Hp Ho Hm. unfold dispatch, route. rewrite Hp.
  rewrite bool_decide_false by (vm_compute; discriminate).
  rewrite bool_decide_false by (vm_compute; discriminate).
  rewrite bool_decide_true by done. rewrite bool_decide_false by done.
  by rewrite bool_decide_true.
Qed.

Lemma route_view declared fs req view :
  req_method req <> OPTIONS -> req_method req ∈ rule_methods declared ->
  route declared fs req view = view.
Proof. intros Ho Hm. unfold route. by rewrite bool_decide_false, bool_decide_true. Qed.

(** A rule that declares [GET] accepts [GET] and [HEAD]. *)
Lemma get_rule declared : GET ∈ declared -> GET ∈ rule_methods declared.
Proof. unfold rule_methods. set_solver. Qed.

Lemma head_rule declared : GET ∈ declared -> HEAD ∈ rule_methods declared.
Proof. intros Hg. unfold rule_methods. rewrite bool_decide_true by done. set_solver. Qed.

Lemma post_add_methods : POST ∈ rule_methods [GET; POST].
Proof. apply (bool_decide_unpack _). vm_compute. reflexivity. Qed.

Lemma dispatch_post_add g fs req :
  req_path req = py "/add" -> req_method req = POST -> dispatch g fs req = add g fs req.
Proof.
  intros Hp Hm. apply dispatch_add; [done|by rewrite Hm|rewrite Hm; apply post_add_methods].
Qed.

Lemma rating_of_valid environ g c v l data :
  load_module environ = Ok g -> data = Some (py_str_Z v) -> (v, l) ∈ choices g c ->
  rating_of (choices g c) data = Ok (Some l).
Proof.
  intros Hg -> Hin. cbn. unfold rating_option. rewrite int_of_str_Z. cbn.
  rewrite (lookup_choices environ g c v Hg). by rewrite (choices_mem_encode environ g c v l).
Qed.

(** On a valid form the lookups succeed and [new_row] is a valid record. *)
Lemma new_row_ok environ g secret fd :
  load_module environ = Ok g -> form_valid g secret fd = true ->
  exists row, new_row g fd = Ok row /\ record_ok row.
Proof.
  intros Hg Hv. apply form_valid_spec in Hv as
    (_ & Hname & [Hloc Hurl] & (o & Ho & Hov) & (c & Hc & Hcv) &
     (cv & cl & Hcd & Hcm) & (wv & wl & Hwd & Hwm) & (pv & pl & Hpd & Hpm)).
  unfold new_row.
  rewrite (rating_of_valid environ g Coffee cv cl) by done. cbn [mbind result_bind].
  rewrite (rating_of_valid environ g Wifi wv wl) by done. cbn [mbind result_bind].
  rewrite (rating_of_valid environ g Power pv pl) by done. cbn [mbind result_bind].
  destruct (getfirst fd (py "name")) as [name|]; [|discriminate].
  destruct (getfirst fd (py "cafe_location")) as [loc|]; [|discriminate].
  rewrite Ho, Hc. eexists. split; [reflexivity|].
  do 7 eexists. split; [reflexivity|].
  repeat split; try done.
  - by apply stored_time_spec.
  - apply py_replace_char_notin.
  - by apply stored_time_spec.
  - apply py_replace_char_notin.
  - exists cv. by apply (choices_mem_encode environ g Coffee).
  - exists wv. by apply (choices_mem_encode environ g Wifi).
  - exists pv. by apply (choices_mem_encode environ g Power).
Qed.

(** A lookup that succeeds gives an encoding of the specification, or [None]. *)
Lemma rating_of_encode environ g c data o :
  load_module environ = Ok g -> rating_of (choices g c) data = Ok o -> exists n, o = encode_spec c n.
Proof.
  intros Hg. destruct data as [s|]; [|discriminate]. unfold rating_of, rating_option.
  destruct (py_int s) as [k|]; cbn; [|discriminate]. intros [= <-].
  exists k. exact (lookup_choices environ g c k Hg).
Qed.

Lemma encode_spec_text c n : text_ok (default [] (encode_spec c n)).
Proof.
  unfold encode_spec, text_ok. destruct (_ && _).
  - cbn. apply Forall_forall. intros ch Hch%elem_of_py_str_mul. revert Hch.
    destruct c; cbn; rewrite list_elem_of_In; cbn; intuition subst; reflexivity.
  - destruct c; [constructor| |]; destruct (n =? 0)%Z; cbn; repeat constructor.
Qed.

Lemma text_ok_replace c s : text_ok s -> text_ok (py_replace_char c [] s).
Proof.
  unfold text_ok. rewrite !Forall_forall. intros Hs x [Hx|[Hx _]]%elem_of_py_replace_char;
    [set_solver|auto].
Qed.

Lemma getfirst_text fd k : form_text_ok fd -> text_ok (default [] (getfirst fd k)).
Proof.
  induction fd as [|[k' v] fd IH]; intros Hfd; [constructor|].
  apply Forall_cons in Hfd as [Hv Hfd]. cbn. case_bool_decide; [done|by apply IH].
Qed.

Lemma py_str_data_text o : text_ok (default [] o) -> text_ok (py_str_data o).
Proof.
  destruct o; [done|]. intros _. apply (bool_decide_unpack _). vm_compute. reflexivity.
Qed.

(** On a form of text, every field of the new row is text. *)
Lemma new_row_text environ g fd row :
  load_module environ = Ok g -> form_text_ok fd -> new_row g fd = Ok row ->
  Forall (fun o => text_ok (default [] o)) row.
Proof.
  intros Hg Hfd. unfold new_row.
  change (coffee_rating_list g) with (choices g Coffee).
  change (wifi_rating_list g) with (choices g Wifi).
  change (power_rating_list g) with (choices g Power).
  destruct (rating_of (choices g Coffee) _) as [o1|] eqn:E1; cbn [mbind result_bind]; [|discriminate].
  destruct (rating_of (choices g Wifi) _) as [o2|] eqn:E2; cbn [mbind result_bind]; [|discriminate].
  destruct (rating_of (choices g Power) _) as [o3|] eqn:E3; cbn [mbind result_bind]; [|discriminate].
  intros [= <-].
  destruct (rating_of_encode environ g Coffee _ _ Hg E1) as (n1 & ->).
  destruct (rating_of_encode environ g Wifi _ _ Hg E2) as (n2 & ->).
  destruct (rating_of_encode environ g Power _ _ Hg E3) as (n3 & ->).
  repeat constructor; cbn [default from_option id];
    auto using getfirst_text, encode_spec_text, text_ok_replace, py_str_data_text.
Qed.

(** The line written for such a row encodes. *)
Lemma new_row_encodes environ g fd row :
  load_module environ = Ok g -> form_text_ok fd -> new_row g fd = Ok row ->
  exists line, utf8_encode (writerow row) = Ok line.
Proof.
  intros Hg Hfd Hrow. apply encode_ok_iff, writerow_forall; try reflexivity.
  exact (new_row_text environ g fd row Hg Hfd Hrow).
Qed.

(** ** The store and its rows *)

Lemma store_holds_create fs rows :
  store_holds fs rows ->
  store_holds {| cafe_data := Some (default [] (cafe_data fs)); writable := true |} rows.
Proof.
  intros [[-> ->]|(raw & -> & Hraw)]; right; eexists; (split; [reflexivity|]); [reflexivity|done].
Qed.

Lemma store_holds_append fs rows row line :
  store_holds fs rows -> utf8_encode (writerow row) = Ok line ->
  store_holds {| cafe_data := Some (default [] (cafe_data fs) ++ line); writable := true |}
    (rows ++ [row]).
Proof.
  intros Hst Hl. right. eexists. split; [reflexivity|].
  rewrite map_app, concat_app, utf8_encode_app. cbn [map concat]. rewrite app_nil_r, Hl.
  destruct Hst as [[-> ->]|(raw & -> & Hraw)]; cbn; [|rewrite Hraw]; reflexivity.
Qed.

(** The listing of a store holding written rows that fit the field limit. *)
Lemma cafes_written fs rows :
  store_holds fs rows -> cafe_data fs <> None -> Forall (Forall within_limit) rows ->
  cafes fs = RenderCafes (map (map field_read_back) rows).
Proof.
  intros [[Hn _]|(raw & Hraw & Henc)] Hne Hf; [done|]. unfold cafes.
  rewrite Hraw, (decode_encoded _ _ Henc). cbn [mbind result_bind]. by rewrite read_written_rows.
Qed.

(** ** Theorems about [add] *)

(** C9: a valid POST submission of text to [/add] with a writable store
    appends one valid record in the writer's format, encoded as UTF-8, and
    redirects to the listing. *)
Theorem add_valid environ g secret fs req :
  load_module environ = Ok g -> secret_key g = Some secret -> req_method req = POST ->
  form_valid g secret (req_form req) = true -> form_text_ok (req_form req) -> writable fs = true ->
  exists row line, record_ok row /\ new_row g (req_form req) = Ok row /\
    utf8_encode (writerow row) = Ok line /\
    add g fs req = ({| cafe_data := Some (default [] (cafe_data fs) ++ line);
                       writable := true |}, Redirect (py "/cafes")).
Proof.
  intros Hg Hs Hm Hv Ht Hw. destruct (new_row_ok environ g secret (req_form req) Hg Hv)
    as (row & Hrow & Hok).
  destruct (new_row_encodes environ g (req_form req) row Hg Ht Hrow) as (line & Hl).
  exists row, line. do 3 (split; [done|]).
  unfold add, validate_on_submit. by rewrite Hs, Hm, Hv, Hw, Hrow, Hl.
Qed.

(** C11: a request that does not submit the form (a GET or a HEAD), or a
    submission that fails validation, leaves the store untouched and
    renders the form, with the validation errors for a submission. *)
Theorem add_invalid g secret fs req :
  secret_key g = Some secret ->
  (is_submitted (req_method req) = false \/ form_valid g secret (req_form req) = false) ->
  add g fs req = (fs, RenderAdd (if is_submitted (req_method req)
                                 then form_errors g secret (req_form req) else [])).
Proof.
  intros Hs Hm. unfold add, validate_on_submit. rewrite Hs.
  destruct Hm as [-> | ->]; [done|by rewrite andb_false_r].
Qed.

(** C26: without [SECRET_KEY] every request that reaches the view of
    [/add] (a GET, HEAD or POST) fails with a server error and leaves the
    store untouched, although loading the module did not fail. *)
Theorem add_without_secret g fs req :
  secret_key g = None -> req_path req = py "/add" ->
  req_method req <> OPTIONS -> req_method req ∈ rule_methods [GET; POST] ->
  dispatch g fs req = (fs, ServerError (RuntimeError csrf_secret_msg)).
Proof.
  intros Hs Hp Ho Hm. rewrite dispatch_add by done. unfold add. by rewrite Hs.
Qed.

(** [HEAD] is answered as [GET] on every path: Flask accepts [HEAD] on
    every rule that accepts [GET] and runs the same view, which does not see
    the form as submitted. *)
Lemma head_as_get g fs req :
  dispatch g fs {| req_method := HEAD; req_path := req_path req; req_form := req_form req |}
  = dispatch g fs {| req_method := GET; req_path := req_path req; req_form := req_form req |}.
Proof.
  unfold dispatch. cbn [req_path].
  repeat case_bool_decide; try reflexivity;
    rewrite !route_view by first [discriminate | apply get_rule; set_solver | apply head_rule; set_solver];
    reflexivity.
Qed.

(** The methods of the two kinds of rule, as Flask completes them. *)
Lemma rule_get : rule_methods [GET] = [GET; HEAD; OPTIONS].
Proof. reflexivity. Qed.

Lemma rule_get_post : rule_methods [GET; POST] = [GET; POST; HEAD; OPTIONS].
Proof. reflexivity. Qed.

Lemma options_rule declared : OPTIONS ∈ rule_methods declared.
Proof. unfold rule_methods. set_solver. Qed.

(** A rule answers [405] exactly for the methods outside it, when its view
    does not. *)
Lemma route_405 declared fs req view :
  view.2 <> MethodNotAllowed ->
  (route declared fs req view).2 = MethodNotAllowed <-> req_method req ∉ rule_methods declared.
Proof.
  intros Hv. unfold route. case_bool_decide as Ho.
  - rewrite Ho. split; [discriminate|]. intros Hn. exfalso. apply Hn, options_rule.
  - case_bool_decide; naive_solver.
Qed.

Lemma cafes_not_405 fs : cafes fs <> MethodNotAllowed.
Proof. unfold cafes. by repeat case_match. Qed.

Lemma add_not_405 g fs req : (add g fs req).2 <> MethodNotAllowed.
Proof. unfold add. by repeat case_match. Qed.

Lemma paths_distinct : py "/" <> py "/cafes" /\ py "/" <> py "/add" /\ py "/cafes" <> py "/add".
Proof. repeat split; vm_compute; congruence. Qed.

(** C22: the route table of the program (lines 67, 72, 82): a request is
    answered [405 Method Not Allowed] exactly when its path is [/] or
    [/cafes] and its method is not [GET], [HEAD] or [OPTIONS], or its path
    is [/add] and its method is not [GET], [POST], [HEAD] or [OPTIONS];
    no view answers [405] itself. *)
Theorem method_not_allowed_iff g fs req :
  (dispatch g fs req).2 = MethodNotAllowed <->
  ((req_path req = py "/" \/ req_path req = py "/cafes") /\ req_method req ∉ [GET; HEAD; OPTIONS]) \/
  (req_path req = py "/add" /\ req_method req ∉ [GET; POST; HEAD; OPTIONS]).
Proof.
  pose proof paths_distinct as (D1 & D2 & D3).
  unfold dispatch. rewrite <- rule_get, <- rule_get_post.
  case_bool_decide as Hp; [rewrite Hp, route_405 by discriminate; naive_solver|].
  case_bool_decide as Hc; [rewrite Hc, route_405 by apply cafes_not_405; naive_solver|].
  case_bool_decide as Ha; [rewrite Ha, route_405 by apply add_not_405; naive_solver|].
  naive_solver.
Qed.

(** C12: only a [POST] can change the store: a request with any other
    method (GET, HEAD, OPTIONS, PUT, PATCH, DELETE or another name) to any
    path leaves it as it was. *)
Theorem non_post_readonly g fs req :
  req_method req <> POST -> (dispatch g fs req).1 = fs.
Proof.
  intros Hpost. unfold dispatch.
  case_bool_decide; [by apply route_keep|]. case_bool_decide; [by apply route_keep|].
  case_bool_decide; [|done].
  unfold route. case_bool_decide; [done|]. case_bool_decide as Hm; [|done].
  unfold add. destruct (secret_key g); [|done]. unfold validate_on_submit.
  revert Hpost Hm. destruct (req_method req); cbn; intros Hpost Hm; try done;
    exfalso; apply (bool_decide_pack _) in Hm; by vm_compute in Hm.
Qed.

(** ** The store over a sequence of requests *)

Lemma dispatch_cases g fs req :
  (dispatch g fs req).1 = fs \/
  (exists secret, secret_key g = Some secret /\ validate_on_submit g secret req = true /\
     writable fs = true /\
     ((exists row line, new_row g (req_form req) = Ok row /\ utf8_encode (writerow row) = Ok line /\
        (dispatch g fs req).1 = {| cafe_data := Some (default [] (cafe_data fs) ++ line);
                                   writable := true |}) \/
      (dispatch g fs req).1 = {| cafe_data := Some (default [] (cafe_data fs)); writable := true |})).
Proof.
  unfold dispatch. case_bool_decide; [left; by apply route_keep|].
  case_bool_decide; [left; by apply route_keep|].
  case_bool_decide; [|by left].
  destruct (route_cases [GET; POST] fs req (add g fs req)) as [Hr| ->]; [by left|].
  unfold add. destruct (secret_key g) as [secret|] eqn:Hs; [|by left].
  destruct (validate_on_submit g secret req) eqn:Hv; [|by left].
  destruct (writable fs) eqn:Hw; [|by left].
  right. exists secret. do 3 (split; [done|]).
  destruct (new_row g (req_form req)) as [row|e]; [|by right].
  destruct (utf8_encode (writerow row)) as [line|e] eqn:Hl; [left; exists row, line; by repeat split|by right].
Qed.

(** The store after any sequence of requests, by induction on it. *)
Lemma store_rows environ g fs0 rows0 fs :
  load_module environ = Ok g -> store_holds fs0 rows0 -> reachable g fs0 fs ->
  exists rows, Forall record_ok rows /\ store_holds fs (rows0 ++ rows).
Proof.
  intros Hg Hinit Hr. induction Hr as [|fs req Hr IH].
  - exists []. rewrite app_nil_r. by split.
  - destruct IH as (rows & Hok & Hst).
    destruct (dispatch_cases g fs req)
      as [->|(secret & Hs & Hv & Hw & [(row & line & Hrow & Hl & ->)| ->])];
      [by exists rows| |exists rows; split; [done|by apply store_holds_create]].
    assert (Hfv : form_valid g secret (req_form req) = true)
      by (unfold validate_on_submit in Hv; destruct (req_method req); done).
    destruct (new_row_ok environ g secret (req_form req) Hg Hfv) as (row' & Hrow' & Hrok).
    rewrite Hrow in Hrow'. injection Hrow' as <-.
    exists (rows ++ [row]). split; [by apply Forall_app; auto|].
    rewrite app_assoc. by apply store_holds_append.
Qed.

(** Routing answers [OPTIONS] itself, refuses a method outside the rule,
    or runs the view. *)
Lemma route_answers declared fs req view :
  route declared fs req view = (fs, Options (rule_methods declared)) \/
  route declared fs req view = (fs, MethodNotAllowed) \/ route declared fs req view = view.
Proof. unfold route. repeat case_bool_decide; auto. Qed.

Lemma cafes_not_redirect fs : is_redirect_cafes (cafes fs) = false.
Proof. unfold cafes. by repeat case_match. Qed.

(** A request answered without the redirect to the listing, the store
    unchanged, accepts no row. *)
Lemma keep_step g fs rows req r :
  store_holds fs rows -> is_redirect_cafes r = false ->
  Forall record_ok (accepted_row g req r) /\ store_holds fs (rows ++ accepted_row g req r).
Proof. intros Hst Hr. unfold accepted_row. rewrite Hr, app_nil_r. by split. Qed.

(** One run of [add]: the rows held grow by the row it accepts. *)
Lemma add_step environ g fs rows req :
  load_module environ = Ok g -> store_holds fs rows ->
  Forall record_ok (accepted_row g req (add g fs req).2) /\
  store_holds (add g fs req).1 (rows ++ accepted_row g req (add g fs req).2).
Proof.
  intros Hg Hst. unfold add.
  destruct (secret_key g) as [secret|]; [|by apply keep_step].
  destruct (validate_on_submit g secret req) eqn:Hv; [|by apply keep_step].
  destruct (writable fs); [|by apply keep_step].
  assert (Hfv : form_valid g secret (req_form req) = true)
    by (unfold validate_on_submit in Hv; by apply andb_prop in Hv as [_ ?]).
  destruct (new_row_ok environ g secret (req_form req) Hg Hfv) as (row & Hrow & Hrok).
  rewrite Hrow. destruct (utf8_encode (writerow row)) as [line|e] eqn:Hl.
  - unfold accepted_row. cbn [snd fst]. rewrite Hrow. split; [by constructor|].
    by apply store_holds_append.
  - cbn [snd fst]. change (accepted_row g req (ServerError e)) with (@nil (list (option pystr))).
    rewrite app_nil_r. split; [done|by apply store_holds_create].
Qed.

(** One request: the rows held grow by the row it accepts. *)
Lemma dispatch_step environ g fs rows req :
  load_module environ = Ok g -> store_holds fs rows ->
  Forall record_ok (accepted_row g req (dispatch g fs req).2) /\
  store_holds (dispatch g fs req).1 (rows ++ accepted_row g req (dispatch g fs req).2).
Proof.
  intros Hg Hst. unfold dispatch.
  repeat case_bool_decide; try by apply keep_step.
  all: match goal with |- context [route ?d ?f ?r ?v] =>
         destruct (route_answers d f r v) as [->|[->| ->]] end;
    first [ by apply keep_step | by eapply add_step
          | apply keep_step; [done|exact (cafes_not_redirect fs)] ].
Qed.

(** The rows held after a sequence of requests, by induction on it. *)
Lemma serve_rows environ g fs0 rows0 reqs :
  load_module environ = Ok g -> store_holds fs0 rows0 ->
  Forall record_ok (accepted_rows g reqs (serve g fs0 reqs).2) /\
  store_holds (serve g fs0 reqs).1 (rows0 ++ accepted_rows g reqs (serve g fs0 reqs).2).
Proof.
  intros Hg. revert fs0 rows0. induction reqs as [|req reqs IH]; intros fs0 rows0 Hst.
  - cbn. rewrite app_nil_r. by split.
  - cbn [serve fst snd accepted_rows].
    destruct (dispatch_step environ g fs0 rows0 req Hg Hst) as [Hok Hst'].
    destruct (IH _ _ Hst') as [Hok' Hst''].
    rewrite app_assoc. split; [by apply Forall_app|exact Hst''].
Qed.

(** A file that does not decode stays so: [add] appends encoded text. *)
Lemma undecodable_store g fs0 fs raw :
  cafe_data fs0 = Some raw -> utf8_decode raw = Err UnicodeDecodeError -> reachable g fs0 fs ->
  exists raw', cafe_data fs = Some raw' /\ utf8_decode raw' = Err UnicodeDecodeError.
Proof.
  intros H0 Hd Hr. induction Hr as [|fs req Hr IH]; [by exists raw|].
  destruct IH as (raw' & Hraw & Hd').
  destruct (dispatch_cases g fs req)
    as [->|(_ & _ & _ & _ & [(row & line & _ & Hl & ->)| ->])]; [by exists raw'| |];
    cbn [cafe_data]; rewrite Hraw; eexists; (split; [reflexivity|]); [|done].
  apply decode_err_app; [done|]. exact (encode_lead _ _ Hl).
Qed.

(** C3: the listing of a reachable store is the initial rows followed by
    the accepted records, in the order they were submitted, each field as
    the reader gives it back ([field_read_back]), when every field fits the
    reader's field limit; a missing store is a server error. *)
Theorem cafes_lists_records environ g fs0 rows0 fs :
  load_module environ = Ok g -> store_holds fs0 rows0 -> reachable g fs0 fs ->
  exists rows, Forall record_ok rows /\
    ((cafe_data fs = None /\ rows0 ++ rows = [] /\ cafes fs = ServerError FileNotFoundError) \/
     (Forall (Forall within_limit) (rows0 ++ rows) ->
      cafes fs = RenderCafes (map (map field_read_back) (rows0 ++ rows)))).
Proof.
  intros Hg Hinit Hr.
  destruct (store_rows environ g fs0 rows0 fs Hg Hinit Hr) as (rows & Hok & Hst).
  exists rows. split; [done|].
  destruct (cafe_data fs) eqn:Hn.
  - right. intros Hf. apply (cafes_written fs); [done|by rewrite Hn|done].
  - left. destruct Hst as [[_ Hnil]|(raw & Hraw & _)]; [|congruence].
    unfold cafes. by rewrite Hn.
Qed.

(** ** The scenarios of section 8 of the specification *)

(** C33: the submission of the specification's example cafe appends the line
    [Joe's,https://maps.example/x,8AM,5:30PM,] followed by three coffee
    glyphs, the sentinel and five plugs, redirects to the listing, and the
    listing then ends with that row. *)
Theorem joes_scenario environ g secret tok fs rows0 :
  load_module environ = Ok g -> secret_key g = Some secret ->
  url_check (py "https://maps.example/x") = true -> csrf_check secret (Some tok) = true ->
  writable fs = true -> store_holds fs rows0 ->
  let req := {| req_method := POST; req_path := py "/add";
                req_form := [(py "name", py "Joe's"); (py "cafe_location", py "https://maps.example/x");
                             (py "opening", py "8AM"); (py "closing", py "5:30PM");
                             (py "coffee_rating", py "3"); (py "wifi_rating", py "0");
                             (py "power_socket_rating", py "5"); (py "csrf_token", tok)] |} in
  let row := [Some (py "Joe's"); Some (py "https://maps.example/x"); Some (py "8AM");
              Some (py "5:30PM"); Some (py_str_mul coffee_glyph 3); Some x_glyph;
              Some (py_str_mul power_glyph 5)] in
  writerow row = py "Joe's,https://maps.example/x,8AM,5:30PM," ++ py_str_mul coffee_glyph 3 ++
                 py "," ++ x_glyph ++ py "," ++ py_str_mul power_glyph 5 ++ [CR; LF] /\
  (exists line, utf8_encode (writerow row) = Ok line /\
     dispatch g fs req = ({| cafe_data := Some (default [] (cafe_data fs) ++ line);
                             writable := true |}, Redirect (py "/cafes"))) /\
  (Forall (Forall within_limit) rows0 ->
   cafes (dispatch g fs req).1 = RenderCafes (map (map field_read_back) rows0 ++ [map (default []) row])).
Proof.
  intros Hg Hs Hurl Hcsrf Hw Hst req row.
  assert (Hv : form_valid g secret (req_form req) = true).
  { apply form_valid_spec. rewrite load_module_value in Hg. injection Hg as <-.
    repeat split; try exact Hcsrf; try exact Hurl; try reflexivity;
      try (eexists; split; reflexivity);
      repeat constructor.
    - exists 3%Z, (py_str_mul coffee_glyph 3). split; [reflexivity|].
      apply list_elem_of_In. vm_compute. do 2 right. by left.
    - exists 0%Z, x_glyph. split; [reflexivity|].
      apply list_elem_of_In. vm_compute. by left.
    - exists 5%Z, (py_str_mul power_glyph 5). split; [reflexivity|].
      apply list_elem_of_In. vm_compute. do 5 right. by left. }
  assert (Hrow : new_row g (req_form req) = Ok row)
    by (rewrite load_module_value in Hg; injection Hg as <-; reflexivity).
  destruct (utf8_encode (writerow row)) as [line|e] eqn:Hl; [|vm_compute in Hl; discriminate].
  assert (Hd : dispatch g fs req = ({| cafe_data := Some (default [] (cafe_data fs) ++ line);
                                      writable := true |}, Redirect (py "/cafes"))).
  { unfold dispatch. cbn -[add]. unfold add, validate_on_submit. cbn [req_method].
    by rewrite Hs, Hv, Hw, Hrow, Hl. }
  split; [reflexivity|]. split; [eauto|]. intros Hok0.
  rewrite Hd. cbn [fst]. rewrite (cafes_written _ (rows0 ++ [row])).
  - by rewrite map_app.
  - by apply store_holds_append.
  - discriminate.
  - apply Forall_app. split; [done|].
    apply List.Forall_cons; [|apply List.Forall_nil].
    apply (bool_decide_unpack _). vm_compute. reflexivity.
Qed.

(** C34: an opening time [25:00] leaves the store untouched and renders the
    form with the pattern's message on the opening field. *)
Theorem bad_opening_scenario environ g secret fs fd :
  load_module environ = Ok g -> secret_key g = Some secret ->
  getfirst fd (py "opening") = Some (py "25:00") ->
  let req := {| req_method := POST; req_path := py "/add"; req_form := fd |} in
  exists errors, dispatch g fs req = (fs, RenderAdd errors) /\
    (py "opening", [time_message]) ∈ errors.
Proof.
  intros Hg Hs Ho req.
  assert (Hv : form_valid g secret fd = false).
  { apply not_true_iff_false. intros (_ & _ & _ & (s & Hs' & Hsv) & _)%form_valid_spec.
    rewrite Ho in Hs'. injection Hs' as <-. discriminate. }
  exists (form_errors g secret fd). split.
  - unfold dispatch. cbn -[add]. unfold add, validate_on_submit. rewrite Hs.
    cbn -[form_valid form_errors]. by rewrite Hv.
  - unfold form_errors. apply elem_of_app. left. apply list_elem_of_fmap.
    eexists. split; [|do 2 right; left]. cbn -[py field_errors]. rewrite Ho.
    f_equal.
Qed.

(** ** Claims *)

(** C1: the store over any sequence of requests to any route, served one
    after the other: from a store holding rows the writer wrote, it holds
    those rows followed by one row for each request answered with the
    redirect to the listing, in the order of the requests, the row
    [new_row] builds from that request's form, and each such row is a
    valid record; no other request adds a row. *)
Theorem store_invariant environ g fs0 rows0 reqs :
  load_module environ = Ok g -> store_holds fs0 rows0 ->
  Forall record_ok (accepted_rows g reqs (serve g fs0 reqs).2) /\
  store_holds (serve g fs0 reqs).1 (rows0 ++ accepted_rows g reqs (serve g fs0 reqs).2).
Proof. exact (serve_rows environ g fs0 rows0 reqs). Qed.

(** C21: a store file holding a byte that never occurs in UTF-8 ([0xC0],
    [0xC1], or [0xF5] and above, such as a Latin-1 [ö] or [ÿ]) makes the
    listing fail with [UnicodeDecodeError]; the specification names only
    the missing file as an error of [list_all]. *)
Theorem cafes_invalid_byte fs raw b :
  cafe_data fs = Some raw -> b ∈ raw -> valid_byte b = false ->
  cafes fs = ServerError UnicodeDecodeError.
Proof.
  intros Hraw Hb Hv. unfold cafes. rewrite Hraw.
  destruct (utf8_decode raw) as [s|e] eqn:Hd.
  - apply decode_ok_valid in Hd. rewrite Forall_forall in Hd. specialize (Hd b Hb). congruence.
  - cbn [mbind result_bind]. by pose proof (decode_err raw e Hd) as ->.
Qed.

(** C20: a store file that does not decode stays unreadable: after any
    sequence of requests the listing fails with [UnicodeDecodeError],
    although [add] goes on appending the records it accepts. *)
Theorem corrupt_store_persists g fs0 fs raw e :
  cafe_data fs0 = Some raw -> utf8_decode raw = Err e -> reachable g fs0 fs ->
  cafes fs = ServerError UnicodeDecodeError.
Proof.
  intros H0 Hd Hr. pose proof (decode_err raw e Hd) as ->.
  destruct (undecodable_store g fs0 fs raw H0 Hd Hr) as (raw' & Hraw & Hd').
  unfold cafes. by rewrite Hraw, Hd'.
Qed.

(** C23: a valid submission to a store the process may not write passes
    validation, then fails with [PermissionError] when [add] opens the file
    (section 4.3 of the specification), and the store stays as it was. *)
Theorem readonly_store_unchanged g secret fs req :
  secret_key g = Some secret -> writable fs = false ->
  req_path req = py "/add" -> req_method req = POST -> form_valid g secret (req_form req) = true ->
  dispatch g fs req = (fs, ServerError PermissionError).
Proof.
  intros Hs Hw Hp Hm Hv. rewrite dispatch_post_add by done.
  unfold add, validate_on_submit. by rewrite Hs, Hm, Hv, Hw.
Qed.

End WithLibrary.

(** ** Witnesses *)

#[local] Existing Instance accept_all_library.

Definition example_env : gmap pystr pystr := {[ py "SECRET_KEY" := py "k" ]}.

Definition empty_store : fs_state := {| cafe_data := None; writable := true |}.

Definition joe_request : request :=
  {| req_method := POST; req_path := py "/add";
     req_form := [(py "name", py "Joe's"); (py "cafe_location", py "https://maps.example/x");
                  (py "opening", py "8AM"); (py "closing", py "5:30 PM");
                  (py "coffee_rating", py "3"); (py "wifi_rating", py "0");
                  (py "power_socket_rating", py "5"); (py "csrf_token", py "t")] |}.

Lemma store_invariant_witness :
  exists g, load_module example_env = Ok g /\ store_holds empty_store [] /\
    Forall record_ok (accepted_rows g [joe_request; joe_request]
                        (serve g empty_store [joe_request; joe_request]).2) /\
    store_holds (serve g empty_store [joe_request; joe_request]).1
      ([] ++ accepted_rows g [joe_request; joe_request]
               (serve g empty_store [joe_request; joe_request]).2).
Proof.
  eexists. split; [reflexivity|].
  assert (Hs : store_holds empty_store []) by (left; split; reflexivity).
  exact (conj Hs (store_invariant example_env _ empty_store [] _ eq_refl Hs)).
Defined.

Lemma cafes_lists_records_witness :
  exists g, load_module example_env = Ok g /\ store_holds empty_store [] /\
    reachable g empty_store (dispatch g empty_store joe_request).1 /\
    exists rows, Forall record_ok rows /\
      ((cafe_data (dispatch g empty_store joe_request).1 = None /\ [] ++ rows = [] /\
        cafes (dispatch g empty_store joe_request).1 = ServerError FileNotFoundError) \/
       (Forall (Forall within_limit) ([] ++ rows) ->
        cafes (dispatch g empty_store joe_request).1 = RenderCafes (map (map field_read_back) ([] ++ rows)))).
Proof.
  eexists. split; [reflexivity|].
  assert (Hs : store_holds empty_store []) by (left; split; reflexivity).
  split; [exact Hs|].
  match goal with
  | |- reachable ?g _ _ /\ _ =>
      assert (Hr : reachable g empty_store (dispatch g empty_store joe_request).1)
        by (apply reach_step, reach_init);
      exact (conj Hr (cafes_lists_records example_env g empty_store [] _ eq_refl Hs Hr))
  end.
Defined.

Lemma add_valid_witness :
  exists g, load_module example_env = Ok g /\ secret_key g = Some (py "k") /\
    req_method joe_request = POST /\ form_valid g (py "k") (req_form joe_request) = true /\
    form_text_ok (req_form joe_request) /\ writable empty_store = true /\
    exists row line, record_ok row /\ new_row g (req_form joe_request) = Ok row /\
      utf8_encode (writerow row) = Ok line /\
      add g empty_store joe_request =
        ({| cafe_data := Some (default [] (cafe_data empty_store) ++ line);
            writable := true |}, Redirect (py "/cafes")).
Proof.
  eexists. split; [reflexivity|].
  assert (Ht : form_text_ok (req_form joe_request))
    by (apply (bool_decide_unpack _); vm_compute; reflexivity).
  match goal with
  | |- secret_key ?g = _ /\ _ =>
      assert (Hs : secret_key g = Some (py "k")) by reflexivity;
      assert (Hv : form_valid g (py "k") (req_form joe_request) = true)
        by (vm_compute; reflexivity);
      exact (conj Hs (conj eq_refl (conj Hv (conj Ht (conj eq_refl
               (add_valid example_env g (py "k") empty_store joe_request
                  eq_refl Hs eq_refl Hv Ht eq_refl))))))
  end.
Defined.

Definition get_add : request := {| req_method := GET; req_path := py "/add"; req_form := [] |}.

Lemma add_invalid_witness :
  exists g, load_module example_env = Ok g /\ secret_key g = Some (py "k") /\
    (is_submitted (req_method get_add) = false \/ form_valid g (py "k") (req_form get_add) = false) /\
    add g empty_store get_add = (empty_store, RenderAdd []).
Proof.
  eexists. split; [reflexivity|].
  match goal with
  | |- secret_key ?g = _ /\ _ =>
      assert (Hs : secret_key g = Some (py "k")) by reflexivity;
      assert (Hm : is_submitted (req_method get_add) = false \/
                   form_valid g (py "k") (req_form get_add) = false)
        by (left; reflexivity);
      exact (conj Hs (conj Hm (add_invalid g (py "k") empty_store get_add Hs Hm)))
  end.
Defined.

Lemma add_without_secret_witness :
  exists g, load_module ∅ = Ok g /\ secret_key g = None /\ req_path joe_request = py "/add" /\
    req_method joe_request <> OPTIONS /\ req_method joe_request ∈ rule_methods [GET; POST] /\
    dispatch g empty_store joe_request = (empty_store, ServerError (RuntimeError csrf_secret_msg)).
Proof.
  eexists. split; [reflexivity|].
  match goal with
  | |- secret_key ?g = _ /\ _ =>
      assert (Hs : secret_key g = None) by reflexivity;
      assert (Hp : req_path joe_request = py "/add") by reflexivity;
      assert (Ho : req_method joe_request <> OPTIONS) by discriminate;
      exact (conj Hs (conj Hp (conj Ho (conj post_add_methods
        (add_without_secret g empty_store joe_request Hs Hp Ho post_add_methods)))))
  end.
Defined.

Lemma joes_scenario_witness :
  exists g, load_module example_env = Ok g /\ secret_key g = Some (py "k") /\
    store_holds empty_store [] /\
    (dispatch g empty_store
       {| req_method := POST; req_path := py "/add";
          req_form := [(py "name", py "Joe's"); (py "cafe_location", py "https://maps.example/x");
                       (py "opening", py "8AM"); (py "closing", py "5:30PM");
                       (py "coffee_rating", py "3"); (py "wifi_rating", py "0");
                       (py "power_socket_rating", py "5"); (py "csrf_token", py "t")] |}).2
    = Redirect (py "/cafes").
Proof.
  eexists. split; [reflexivity|].
  match goal with
  | |- secret_key ?g = _ /\ _ =>
      assert (Hs : secret_key g = Some (py "k")) by reflexivity;
      assert (Hst : store_holds empty_store []) by (left; split; reflexivity);
      destruct (@joes_scenario accept_all_library example_env g (py "k") (py "t") empty_store []
                  eq_refl Hs eq_refl eq_refl eq_refl Hst) as (_ & (line & _ & Hd) & _);
      refine (conj Hs (conj Hst _)); rewrite Hd; reflexivity
  end.
Defined.

Lemma bad_opening_scenario_witness :
  exists g, load_module example_env = Ok g /\ secret_key g = Some (py "k") /\
    getfirst [(py "opening", py "25:00")] (py "opening") = Some (py "25:00") /\
    exists errors,
      dispatch g empty_store {| req_method := POST; req_path := py "/add";
                                req_form := [(py "opening", py "25:00")] |}
      = (empty_store, RenderAdd errors) /\
      (py "opening", [time_message]) ∈ errors.
Proof.
  eexists. split; [reflexivity|].
  match goal with
  | |- secret_key ?g = _ /\ _ =>
      assert (Hs : secret_key g = Some (py "k")) by reflexivity;
      assert (Ho : getfirst [(py "opening", py "25:00")] (py "opening") = Some (py "25:00"))
        by reflexivity;
      exact (conj Hs (conj Ho (bad_opening_scenario example_env g (py "k") empty_store _
                                 eq_refl Hs Ho)))
  end.
Defined.

Definition readonly_store : fs_state := {| cafe_data := None; writable := false |}.

Lemma readonly_store_unchanged_witness :
  exists g, load_module example_env = Ok g /\ secret_key g = Some (py "k") /\
    writable readonly_store = false /\ req_path joe_request = py "/add" /\
    req_method joe_request = POST /\ form_valid g (py "k") (req_form joe_request) = true /\
    dispatch g readonly_store joe_request = (readonly_store, ServerError PermissionError).
Proof.
  eexists. split; [reflexivity|].
  match goal with
  | |- secret_key ?g = _ /\ _ =>
      assert (Hs : secret_key g = Some (py "k")) by reflexivity;
      assert (Hv : form_valid g (py "k") (req_form joe_request) = true) by (vm_compute; reflexivity);
      exact (conj Hs (conj eq_refl (conj eq_refl (conj eq_refl (conj Hv
        (readonly_store_unchanged g _ readonly_store joe_request Hs eq_refl eq_refl eq_refl Hv))))))
  end.
Defined.

(** A file written in Latin-1: [Böhm]. *)
Definition latin1_store : fs_state :=
  {| cafe_data := Some (py "B" ++ [0xF6%N] ++ py "hm" ++ [CR; LF]); writable := true |}.

Lemma cafes_invalid_byte_witness :
  cafe_data latin1_store = Some (py "B" ++ [0xF6%N] ++ py "hm" ++ [CR; LF]) /\
  0xF6%N ∈ py "B" ++ [0xF6%N] ++ py "hm" ++ [CR; LF] /\ valid_byte 0xF6 = false /\
  cafes latin1_store = ServerError UnicodeDecodeError.
Proof.
  assert (Hin : 0xF6%N ∈ py "B" ++ [0xF6%N] ++ py "hm" ++ [CR; LF])
    by (apply elem_of_app; right; apply elem_of_app; left; by left).
  exact (conj eq_refl (conj Hin (conj eq_refl
           (cafes_invalid_byte latin1_store _ _ eq_refl Hin eq_refl)))).
Defined.

Lemma corrupt_store_persists_witness :
  exists g, load_module example_env = Ok g /\
    cafe_data latin1_store = Some (py "B" ++ [0xF6%N] ++ py "hm" ++ [CR; LF]) /\
    utf8_decode (py "B" ++ [0xF6%N] ++ py "hm" ++ [CR; LF]) = Err UnicodeDecodeError /\
    reachable g latin1_store (dispatch g latin1_store joe_request).1 /\
    cafes (dispatch g latin1_store joe_request).1 = ServerError UnicodeDecodeError.
Proof.
  eexists. split; [reflexivity|].
  assert (Hd : utf8_decode (py "B" ++ [0xF6%N] ++ py "hm" ++ [CR; LF]) = Err UnicodeDecodeError)
    by reflexivity.
  match goal with
  | |- _ /\ _ /\ reachable ?g _ _ /\ _ =>
      assert (Hr : reachable g latin1_store (dispatch g latin1_store joe_request).1)
        by (apply reach_step, reach_init);
      exact (conj eq_refl (conj Hd (conj Hr
               (corrupt_store_persists g latin1_store _ _ _ eq_refl Hd Hr))))
  end.
Defined.

Definition put_add : request :=
  {| req_method := PUT; req_path := py "/add"; req_form := req_form joe_request |}.

(** A PUT of a valid form to [/add] is refused with 405 and writes nothing. *)
Lemma non_post_readonly_witness :
  exists g, load_module example_env = Ok g /\ req_method put_add <> POST /\
    (dispatch g empty_store put_add).1 = empty_store /\
    (dispatch g empty_store put_add).2 = MethodNotAllowed.
Proof.
  eexists. split; [reflexivity|].
  assert (Hm : req_method put_add <> POST) by discriminate.
  match goal with
  | |- _ /\ (dispatch ?g _ _).1 = _ /\ _ =>
      exact (conj Hm (conj (non_post_readonly g empty_store put_add Hm) eq_refl))
  end.
Defined.

End App.
