(* ===== verification/Store.v ===== *)
(** * Store: the file refines the specification's record store

    Section 4.3 of the specification describes the CSV Record Store as a
    sequence of café records: [append(record)] adds one at the end and
    [list_all()] returns them in insertion order, failing when the file
    does not exist.  [store_view] reads that abstract state off the file the
    program keeps: it decodes and reads the file as [cafes] does (lines
    74-78) and decodes every row into a [cafe] by counting glyphs.  The
    theorems show that every state the routes of [App] can reach from a
    missing file stores exactly the encoded rows of a list of valid
    records, one per accepted submission, whose view is that list
    ([store_refinement]), and that every valid record whose text encodes
    can be added by the request a browser sends for it
    ([add_every_valid_cafe]). *)

From stdpp Require Import base list strings gmap.
From Stdlib Require Import NArith ZArith Lia.
From S2P Require Import Prelude Utf8 Ratings TimeFormat Csv Form Records App.
Import Utf8 Emoji TimeFormat Csv Form Records App.

Module Store.

(** What [list_all] of the specification returns for a store: an error
    for a missing file, the records, or a file that does not decode. *)
Inductive view := NoFile | Listing (records : list cafe) | Unreadable.

(** A record whose name and location fit the reader's field limit. *)
Definition cafe_fits (c : cafe) : Prop :=
  within_limit (Some (cafe_name c)) /\ within_limit (Some (cafe_location c)).

(** The text fields of a record as a browser posts them: text that
    encodes. *)
Definition cafe_text (c : cafe) : Prop :=
  text_ok (cafe_name c) /\ text_ok (cafe_location c) /\ text_ok (opening_time c) /\
  text_ok (closing_time c).

(** The abstract state of a file: the records its rows decode to. *)
Definition store_view (fs : fs_state) : view :=
  match cafe_data fs with
  | None => NoFile
  | Some raw =>
      match (data_file ← utf8_decode raw; read_csv data_file) with
      | Ok rows => match mapM decode_row rows with Some L => Listing L | None => Unreadable end
      | Err _ => Unreadable
      end
  end.

(** The request a browser sends when the form of [add] is filled in with
    the record [c] and carries the CSRF token [tok]: each select field posts
    [str] of its value, the submit button its label. *)
Definition cafe_request (c : cafe) (tok : pystr) : request :=
  {| req_method := POST; req_path := py "/add";
     req_form := [(py "name", cafe_name c); (py "cafe_location", cafe_location c);
                  (py "opening", opening_time c); (py "closing", closing_time c);
                  (py "coffee_rating", py_str_Z (coffee_rating c));
                  (py "wifi_rating", py_str_Z (wifi_rating c));
                  (py "power_socket_rating", py_str_Z (power_rating c));
                  (py "csrf_token", tok); (py "submit", py "Submit")] |}.

Section WithLibrary.
Context `{FormLibrary}.

(** ** Lemmas *)

(** A row [add] writes is the row of a valid record. *)
Lemma record_ok_cafe row : record_ok row -> exists c, cafe_valid c /\ row = cafe_row c.
Proof.
  intros (n & l & o & cl & cof & wif & pow & -> & Hn & Hl & Hu & Ho & Hos & Hc & Hcs &
          (n1 & E1) & (n2 & E2) & (n3 & E3)).
  exists (mk_cafe n l o cl n1 n2 n3). split.
  - exact (conj Hn (conj Hl (conj Hu (conj Ho (conj Hos (conj Hc (conj Hcs
             (conj (encode_spec_Some_domain _ _ _ E1) (conj (encode_spec_Some_domain _ _ _ E2)
                (encode_spec_Some_domain _ _ _ E3)))))))))).
  - unfold cafe_row. cbn. by rewrite E1, E2, E3.
Qed.

Lemma records_of_rows rows :
  Forall record_ok rows -> exists L, Forall cafe_valid L /\ rows = map cafe_row L.
Proof.
  induction rows as [|row rows IH]; intros Hok; [by exists []|].
  apply Forall_cons in Hok as [(c & Hc & ->)%record_ok_cafe (L & HL & ->)%IH].
  exists (c :: L). split; [by constructor|done].
Qed.

Lemma rating_within_limit c n : rating_domain c n -> within_limit (encode_spec c n).
Proof.
  intros (s & Hs)%encode_spec_domain. unfold within_limit. rewrite Hs.
  rewrite (read_back_encode c n s Hs). pose proof (encode_spec_length c n s Hs).
  unfold field_limit. lia.
Qed.

Lemma time_within_limit t : is_valid_time t = true -> within_limit (Some t).
Proof.
  intros Ht%valid_time_length_spec. unfold within_limit, field_read_back, field_limit. cbn.
  pose proof (length_translate_le t). lia.
Qed.

(** Every field of the row of a valid record that fits is read back. *)
Lemma cafe_row_within_limit c :
  cafe_valid c -> cafe_fits c -> Forall within_limit (cafe_row c).
Proof.
  intros (_ & _ & _ & Ho & _ & Hc & _ & Hcf & Hwf & Hpf) [Hn Hl].
  repeat constructor; auto using time_within_limit, rating_within_limit.
Qed.

Lemma decode_rows L :
  Forall ratings_ok L ->
  mapM decode_row (map (map field_read_back) (map cafe_row L)) = Some (map read_back_cafe L).
Proof.
  induction L as [|c L IH]; intros HL; [done|]. apply Forall_cons in HL as [Hc HL].
  cbn [map mapM]. rewrite decode_row_cafe_row, IH by done. reflexivity.
Qed.

(** The view of a file holding the rows of valid records that fit. *)
Lemma view_of_rows fs L :
  Forall cafe_valid L -> Forall cafe_fits L -> store_holds fs (map cafe_row L) ->
  cafe_data fs <> None -> store_view fs = Listing (map read_back_cafe L).
Proof.
  intros Hv Hf [[Hn _]|(raw & Hd & Henc)] Hne; [done|]. unfold store_view.
  rewrite Hd, (decode_encoded _ _ Henc). cbn [mbind result_bind]. rewrite read_written_rows.
  - rewrite decode_rows; [done|]. eapply Forall_impl; [exact Hv|].
    intros c (_ & _ & _ & _ & _ & _ & _ & ?). done.
  - apply Forall_fmap. apply Forall_forall. intros c Hc.
    apply cafe_row_within_limit; [by eapply Forall_forall in Hv|by eapply Forall_forall in Hf].
Qed.

(** The row of a record of text encodes. *)
Lemma cafe_row_encodes c :
  cafe_text c -> exists line, utf8_encode (writerow (cafe_row c)) = Ok line.
Proof.
  intros (Hn & Hl & Ho & Hc). apply encode_ok_iff, writerow_forall; try reflexivity.
  unfold cafe_row. repeat constructor;
    first [apply encode_spec_text | cbn [default from_option id]; assumption].
Qed.

(** The view of a store holding the rows of valid records that fit: no
    file and no record, or the records as the reader gives them back. *)
Lemma view_of_store fs L :
  Forall cafe_valid L -> Forall cafe_fits L -> store_holds fs (map cafe_row L) ->
  (store_view fs = NoFile /\ L = []) \/ store_view fs = Listing (map read_back_cafe L).
Proof.
  intros HL Hf Hst. destruct (cafe_data fs) eqn:Hn.
  - right. apply view_of_rows; [done|done|done|by rewrite Hn].
  - left. destruct Hst as [[_ Hnil]|(raw & Hraw & _)]; [|congruence].
    unfold store_view. rewrite Hn. split; [done|]. by apply map_eq_nil in Hnil.
Qed.

(** The form of [cafe_request], field by field. *)
Lemma getfirst_cafe_request c tok :
  getfirst (req_form (cafe_request c tok)) (py "name") = Some (cafe_name c) /\
  getfirst (req_form (cafe_request c tok)) (py "cafe_location") = Some (cafe_location c) /\
  getfirst (req_form (cafe_request c tok)) (py "opening") = Some (opening_time c) /\
  getfirst (req_form (cafe_request c tok)) (py "closing") = Some (closing_time c) /\
  getfirst (req_form (cafe_request c tok)) (py "coffee_rating") = Some (py_str_Z (coffee_rating c)) /\
  getfirst (req_form (cafe_request c tok)) (py "wifi_rating") = Some (py_str_Z (wifi_rating c)) /\
  getfirst (req_form (cafe_request c tok)) (py "power_socket_rating")
    = Some (py_str_Z (power_rating c)) /\
  getfirst (req_form (cafe_request c tok)) (py "csrf_token") = Some tok.
Proof. repeat split; reflexivity. Qed.

(** The row [new_row] builds from the browser's request for a valid
    record: the record's row, the ratings looked up in the choice lists. *)
Lemma new_row_cafe_request environ g tok c :
  load_module environ = Ok g -> cafe_valid c -> new_row g (req_form (cafe_request c tok)) = Ok (cafe_row c).
Proof.
  intros Hg (Hn & Hl & Hu & Ho & Hos & Hc & Hcs & Hcf & Hwf & Hpf).
  destruct (getfirst_cafe_request c tok) as (Gn & Gl & Go & Gc & Gcf & Gwf & Gpf & Gt).
  destruct (encode_spec_domain Coffee _ Hcf) as (lc & Ec).
  destruct (encode_spec_domain Wifi _ Hwf) as (lw & Ew).
  destruct (encode_spec_domain Power _ Hpf) as (lp & Ep).
  unfold new_row. rewrite Gcf, Gwf, Gpf.
  change (coffee_rating_list g) with (choices g Coffee).
  change (wifi_rating_list g) with (choices g Wifi).
  change (power_rating_list g) with (choices g Power).
  rewrite (rating_of_valid environ g Coffee (coffee_rating c) lc),
    (rating_of_valid environ g Wifi (wifi_rating c) lw),
    (rating_of_valid environ g Power (power_rating c) lp)
    by eauto using choices_mem_of_encode.
  cbn [mbind result_bind]. rewrite Gn, Gl, Go, Gc. cbn [py_str_data].
  rewrite !py_replace_char_id by done. unfold cafe_row. by rewrite Ec, Ew, Ep.
Qed.

(** ** Theorems *)

(** C2: refinement of the specification's record store.  From a missing
    file, after any sequence of requests served one after the other, the
    rows of the requests answered with the redirect to the listing are the
    rows of a list [L] of valid records, in the order of the requests; when
    their names and locations fit the reader's field limit, the abstract
    view of the file is [L] itself, with line breaks as the reader
    translates them, or the file is still missing and [L] is empty: each
    accepted submission appended its record once, at the end. *)
Theorem store_refinement environ g fs0 reqs :
  load_module environ = Ok g -> cafe_data fs0 = None ->
  exists L, Forall cafe_valid L /\ accepted_rows g reqs (serve g fs0 reqs).2 = map cafe_row L /\
    (Forall cafe_fits L ->
     (store_view (serve g fs0 reqs).1 = NoFile /\ L = []) \/
     store_view (serve g fs0 reqs).1 = Listing (map read_back_cafe L)).
Proof.
  intros Hg H0.
  destruct (serve_rows environ g fs0 [] reqs Hg (or_introl (conj H0 eq_refl)))
    as [(L & HL & HLr)%records_of_rows Hst].
  exists L. do 2 (split; [done|]). intros Hf. apply view_of_store; [done|done|]. by rewrite <- HLr.
Qed.

(** C15: the row [new_row] builds from the request a browser sends for a
    valid record, listed by [cafes] and decoded by the specification's
    counting of glyphs, is that record, line breaks translated: the code
    puts each rating of the form in its own column, with the glyphs of its
    own category. *)
Theorem new_row_decodes environ g tok c :
  load_module environ = Ok g -> cafe_valid c ->
  exists row, new_row g (req_form (cafe_request c tok)) = Ok row /\
    decode_row (map field_read_back row) = Some (read_back_cafe c).
Proof.
  intros Hg Hc. exists (cafe_row c). split; [by apply (new_row_cafe_request environ)|].
  apply decode_row_cafe_row. by destruct Hc as (_ & _ & _ & _ & _ & _ & _ & ?).
Qed.

(** C10: progress of [add]: with a secret key, a token the CSRF check
    accepts and a writable store, the request a browser sends for any valid
    record of text appends exactly that record's row, encoded as UTF-8, and
    redirects to the listing. *)
Theorem add_every_valid_cafe environ g secret tok fs c :
  load_module environ = Ok g -> secret_key g = Some secret ->
  csrf_check secret (Some tok) = true -> writable fs = true -> cafe_valid c -> cafe_text c ->
  exists line, utf8_encode (writerow (cafe_row c)) = Ok line /\
  dispatch g fs (cafe_request c tok) =
    ({| cafe_data := Some (default [] (cafe_data fs) ++ line); writable := true |},
     Redirect (py "/cafes")).
Proof.
  intros Hg Hs Hcsrf Hw (Hn & Hl & Hu & Ho & Hos & Hc & Hcs & Hcf & Hwf & Hpf) Ht.
  destruct (getfirst_cafe_request c tok) as (Gn & Gl & Go & Gc & Gcf & Gwf & Gpf & Gt).
  destruct (encode_spec_domain Coffee _ Hcf) as (lc & Ec).
  destruct (encode_spec_domain Wifi _ Hwf) as (lw & Ew).
  destruct (encode_spec_domain Power _ Hpf) as (lp & Ep).
  assert (Hv : form_valid g secret (req_form (cafe_request c tok)) = true).
  { apply form_valid_spec. rewrite Gt, Gn, Gl, Go, Gc, Gcf, Gwf, Gpf.
    split; [done|]. split; [done|]. split; [done|].
    split; [eauto|]. split; [eauto|].
    split; [exists (coffee_rating c), lc; split; [done|exact (choices_mem_of_encode environ g Coffee _ _ Hg Ec)]|].
    split; [exists (wifi_rating c), lw; split; [done|exact (choices_mem_of_encode environ g Wifi _ _ Hg Ew)]|].
    exists (power_rating c), lp; split; [done|exact (choices_mem_of_encode environ g Power _ _ Hg Ep)]. }
  pose proof (new_row_cafe_request environ g tok c Hg
    (conj Hn (conj Hl (conj Hu (conj Ho (conj Hos (conj Hc (conj Hcs (conj Hcf (conj Hwf Hpf)))))))))) as Hrow.
  destruct (cafe_row_encodes c Ht) as (line & Hline). exists line. split; [done|].
  unfold dispatch. change (req_path (cafe_request c tok)) with (py "/add").
  rewrite bool_decide_false by (vm_compute; discriminate).
  rewrite bool_decide_false by (vm_compute; discriminate).
  rewrite bool_decide_true by reflexivity.
  unfold add, validate_on_submit. change (req_method (cafe_request c tok)) with POST.
  by rewrite Hs, Hv, Hw, Hrow, Hline.
Qed.

End WithLibrary.

(** ** Witnesses *)

#[local] Existing Instance accept_all_library.

Lemma sample_cafe_valid : cafe_valid sample_cafe.
Proof.
  repeat split;
    first [vm_compute; reflexivity | lia | apply (bool_decide_unpack _); vm_compute; reflexivity].
Qed.

Lemma new_row_decodes_witness :
  exists g, load_module example_env = Ok g /\ cafe_valid sample_cafe /\
    exists row, new_row g (req_form (cafe_request sample_cafe (py "t"))) = Ok row /\
      decode_row (map field_read_back row) = Some (read_back_cafe sample_cafe).
Proof.
  eexists. split; [reflexivity|].
  exact (conj sample_cafe_valid (new_row_decodes example_env _ (py "t") sample_cafe eq_refl sample_cafe_valid)).
Defined.

Lemma store_refinement_witness :
  exists g, load_module example_env = Ok g /\ cafe_data empty_store = None /\
    exists L, Forall cafe_valid L /\
      accepted_rows g [cafe_request sample_cafe (py "t")]
        (serve g empty_store [cafe_request sample_cafe (py "t")]).2 = map cafe_row L /\
      (Forall cafe_fits L ->
       (store_view (serve g empty_store [cafe_request sample_cafe (py "t")]).1 = NoFile /\ L = []) \/
       store_view (serve g empty_store [cafe_request sample_cafe (py "t")]).1
       = Listing (map read_back_cafe L)).
Proof.
  eexists. split; [reflexivity|]. split; [reflexivity|].
  exact (store_refinement example_env _ empty_store _ eq_refl eq_refl).
Defined.

Lemma add_every_valid_cafe_witness :
  exists g, load_module example_env = Ok g /\ secret_key g = Some (py "k") /\
    cafe_valid sample_cafe /\ cafe_text sample_cafe /\
    exists line, utf8_encode (writerow (cafe_row sample_cafe)) = Ok line /\
    dispatch g empty_store (cafe_request sample_cafe (py "t")) =
      ({| cafe_data := Some (default [] (cafe_data empty_store) ++ line);
          writable := true |}, Redirect (py "/cafes")).
Proof.
  eexists. split; [reflexivity|].
  match goal with
  | |- secret_key ?g = _ /\ _ =>
      assert (Hs : secret_key g = Some (py "k")) by reflexivity;
      assert (Ht : cafe_text sample_cafe)
        by (repeat split; apply (bool_decide_unpack _); vm_compute; reflexivity);
      exact (conj Hs (conj sample_cafe_valid (conj Ht
        (add_every_valid_cafe example_env g (py "k") (py "t") empty_store sample_cafe
           eq_refl Hs eq_refl eq_refl sample_cafe_valid Ht))))
  end.
Defined.

End Store.
